(** * Charon authentication server: wire codec and database operations

    A shallow embedding of [source/proto.js] (the packet codec), of the
    older revision of that codec that only speaks protocol version 1, and
    of the user and session operations of [source/dbconn.js], together
    with the properties of the specification that concern them.

    Conventions.
    - A Node [Buffer] is a [list Z] of bytes; a JavaScript string is the
      list of its UTF-16 code units.
    - A JavaScript exception is the [Throw] case of [result]; a chain of
      promises is a sequence of binds in the monad of the operation.
    - Numbers handed to the codec are integers, modelled in [Z]. *)

From Stdlib Require Import ZArith Lia.
From stdpp Require Import base tactics option list numbers strings.

Local Open Scope Z_scope.

(** ** Exceptions and the error monad *)

Inductive exn : Type :=
  | TypeError (msg : string)
  | RangeError
  | Error (msg : string)
  | SessionNotFound (msg : string) (session : Z)
  | UserNotFound (msg : string) (username : list Z).

Inductive result (A : Type) : Type :=
  | Ok (a : A)
  | Throw (e : exn).
Arguments Ok {A} a.
Arguments Throw {A} e.

Definition result_bind {A B : Type} (m : result A) (f : A -> result B) : result B :=
  match m with
  | Ok a => f a
  | Throw e => Throw e
  end.

Notation "'do' x <- m ; k" := (result_bind m (fun x => k))
  (at level 10, x name, m at level 100, k at level 200,
   format "'[v' 'do'  x  <-  m ; '/' k ']'").

Definition throws {A : Type} (m : result A) : Prop := exists e, m = Throw e.

Definition throwsb {A : Type} (m : result A) : bool :=
  match m with Ok _ => false | Throw _ => true end.

(** ** Node's Buffer *)

Definition Buffer : Type := list Z.

(** A JavaScript string, as its UTF-16 code units. *)
Definition jsstring : Type := list Z.

Definition blength (b : list Z) : Z := Z.of_nat (length b).

Definition is_byte (b : Z) : bool := (0 <=? b) && (b <? 256).

(** The elements of a real [Buffer] are bytes. *)
Definition is_buffer (buf : Buffer) : bool := forallb is_byte buf.

(** [Buffer.alloc(size)]: a zero-filled buffer; a negative size is a
    [RangeError]. *)
Definition alloc (size : Z) : result Buffer :=
  if size <? 0 then Throw RangeError
  else Ok (replicate (Z.to_nat size) 0).

(** Little-endian value of a run of bytes, and the bytes of a value. *)
Fixpoint le_value (bs : list Z) : Z :=
  match bs with
  | [] => 0
  | b :: bs => b + 256 * le_value bs
  end.

Fixpoint le_bytes (n : nat) (v : Z) : list Z :=
  match n with
  | O => []
  | S n => v mod 256 :: le_bytes n (v / 256)
  end.

(** The [n] bytes at [offset]; reading past either end of the buffer is a
    [RangeError], as in [readUInt8], [readUInt16LE] and [readUInt32LE]. *)
Definition read_le (n : nat) (buf : Buffer) (offset : Z) : result Z :=
  if (offset <? 0) || (blength buf <? offset + Z.of_nat n) then Throw RangeError
  else Ok (le_value (take n (drop (Z.to_nat offset) buf))).

Definition readUInt8 (buf : Buffer) (offset : Z) : result Z := read_le 1 buf offset.
Definition readUInt16LE (buf : Buffer) (offset : Z) : result Z := read_le 2 buf offset.
Definition readUInt32LE (buf : Buffer) (offset : Z) : result Z := read_le 4 buf offset.

(** [readInt16LE]: the same two bytes, read as a two's complement number. *)
Definition readInt16LE (buf : Buffer) (offset : Z) : result Z :=
  do val <- readUInt16LE buf offset;
  Ok (if Z.testbit val 15 then val - 65536 else val).

(** Writing an unsigned [n]-byte value: a value out of range, or an offset
    that leaves less than [n] bytes, is a [RangeError]. *)
Definition write_le (n : nat) (buf : Buffer) (value offset : Z) : result Buffer :=
  if (value <? 0) || (2 ^ (8 * Z.of_nat n) <=? value) then Throw RangeError
  else if (offset <? 0) || (blength buf <? offset + Z.of_nat n) then Throw RangeError
  else Ok (list_inserts (Z.to_nat offset) (le_bytes n value) buf).

Definition writeUInt8 (buf : Buffer) (value offset : Z) : result Buffer := write_le 1 buf value offset.
Definition writeUInt16LE (buf : Buffer) (value offset : Z) : result Buffer := write_le 2 buf value offset.
Definition writeUInt32LE (buf : Buffer) (value offset : Z) : result Buffer := write_le 4 buf value offset.

(** [source.copy(target, targetStart, sourceStart, sourceEnd)], returning
    the target after the copy.  Bytes that the source does not have, or
    that the target has no room for, are not copied; the only errors are a
    negative argument and a [sourceStart] beyond the end of the source. *)
Definition copy (source target : Buffer) (targetStart sourceStart sourceEnd : Z)
  : result Buffer :=
  if targetStart <? 0 then Throw RangeError
  else if (sourceStart <? 0) || (blength source <? sourceStart) then Throw RangeError
  else if sourceEnd <? 0 then Throw RangeError
  else if (blength target <=? targetStart) || (sourceEnd <=? sourceStart) then Ok target
  else Ok (list_inserts (Z.to_nat targetStart)
             (take (Z.to_nat (sourceEnd - sourceStart)) (drop (Z.to_nat sourceStart) source))
             target).

(** [source.copy(target, targetStart)]: the whole source. *)
Definition copy_all (source target : Buffer) (targetStart : Z) : result Buffer :=
  copy source target targetStart 0 (blength source).

(** [Buffer.from(str, 'ascii')] keeps the low byte of every code unit, and
    [Buffer.byteLength(str, 'ascii')] is the number of code units. *)
Definition Buffer_from_ascii (str : jsstring) : Buffer := map (fun c => Z.land c 255) str.
Definition byteLength_ascii (str : jsstring) : Z := blength str.

(** [buf.toString('ascii', start, end)] clears the top bit of every byte. *)
Definition toString_ascii (buf : Buffer) (start stop : Z) : jsstring :=
  map (fun b => Z.land b 127) (take (Z.to_nat (stop - start)) (drop (Z.to_nat start) buf)).

(** Position of the first zero of a list. *)
Fixpoint find_zero (l : list Z) : option nat :=
  match l with
  | [] => None
  | b :: l => if b =? 0 then Some O else S <$> find_zero l
  end.

(** [buf.indexOf("\0", offset, encoding)]: index of the first NUL byte at
    or after [offset], or [-1]. *)
Definition indexOf_NUL (buf : Buffer) (offset : Z) : Z :=
  match find_zero (drop (Z.to_nat offset) buf) with
  | Some i => offset + Z.of_nat i
  | None => -1
  end.

(** ** source/proto.js *)

Definition SERVER_NEGOTIATE : Z := 0xD003CA01.
Definition AUTH_NEGOTIATE : Z := 0xD003CA10.
Definition SERVER_EPHEMERAL : Z := 0xD003CA02.
Definition AUTH_EPHEMERAL : Z := 0xD003CA20.
Definition SERVER_PROOF : Z := 0xD003CA03.
Definition AUTH_PROOF : Z := 0xD003CA30.
Definition ERROR_USER : Z := 0xD003CAFF.
Definition ERROR_CLIENTSESSION : Z := 0xD003CAFF.
Definition ERROR_SESSION : Z := 0xD003CAEE.

(** Every caller passes the offset and the ['ascii'] encoding. *)
Definition readString (buf : Buffer) (offset : Z) : result jsstring :=
  let z := indexOf_NUL buf offset in
  if z =? -1 then Throw (TypeError "Null-terminator not found in buffer")
  else Ok (toString_ascii buf offset z).

Definition writeString (buf : Buffer) (str : jsstring) (offset : Z) : result Buffer :=
  let string := Buffer_from_ascii str in
  do buf <- copy_all string buf offset;
  writeUInt8 buf 0 (offset + blength string).

(** *** Server negotiation

    Header, UInt32; maximum protocol version, UInt8; client session id,
    UInt32; username, string. *)
Module serverNegotiate.
Record t : Type := mk { clientSession : Z; username : jsstring; version : Z }.

Definition marshall (data : t) : result Buffer :=
  do buf <- alloc (9 + byteLength_ascii (username data) + 1);
  do buf <- writeUInt32LE buf SERVER_NEGOTIATE 0;
  do buf <- writeUInt8 buf (version data) 4;
  do buf <- writeUInt32LE buf (clientSession data) 5;
  do buf <- writeString buf (username data) 9;
  Ok buf.

Definition unmarshall (buf : Buffer) : result t :=
  do magic <- readUInt32LE buf 0;
  if negb (magic =? SERVER_NEGOTIATE)
  then Throw (TypeError "Buffer is not a SERVER_NEGOTIATE packet")
  else
    do version <- readUInt8 buf 4;
    if negb (version =? 1) && negb (version =? 2)
    then Throw (TypeError "Buffer is unknown version of protocol")
    else
      do clientSession <- readUInt32LE buf 5;
      do username <- readString buf 9;
      Ok (mk clientSession username version).
End serverNegotiate.

(** *** Auth server negotiation

    Header, UInt32; protocol version, UInt8; client session id, UInt32;
    session id, UInt32; salt length, UInt8; salt, bytes; username, string. *)
Module authNegotiate.
Record t : Type :=
  mk { clientSession : Z; session : Z; salt : Buffer; username : jsstring }.

Definition marshall (data : t) : result Buffer :=
  do buf <- alloc (14 + blength (salt data) + byteLength_ascii (username data) + 1);
  do buf <- writeUInt32LE buf AUTH_NEGOTIATE 0;
  do buf <- writeUInt8 buf 1 4;
  do buf <- writeUInt32LE buf (clientSession data) 5;
  do buf <- writeUInt32LE buf (session data) 9;
  do buf <- writeUInt8 buf (blength (salt data)) 13;
  do buf <- copy_all (salt data) buf 14;
  do buf <- writeString buf (username data) (14 + blength (salt data));
  Ok buf.

Definition unmarshall (buf : Buffer) : result t :=
  do magic <- readUInt32LE buf 0;
  if negb (magic =? AUTH_NEGOTIATE)
  then Throw (TypeError "Buffer is not a AUTH_NEGOTIATE packet")
  else
    do version <- readUInt8 buf 4;
    if negb (version =? 1)
    then Throw (TypeError "Buffer is incorrect version of protocol")
    else
      do salt_len <- readUInt8 buf 13;
      do salt <- alloc salt_len;
      do salt <- copy buf salt 0 14 (14 + salt_len);
      do clientSession <- readUInt32LE buf 5;
      do session <- readUInt32LE buf 9;
      do username <- readString buf (14 + salt_len);
      Ok (mk clientSession session salt username).
End authNegotiate.

(** *** Server ephemeral: UInt32, UInt32, UInt16, buffer *)
Module serverEphemeral.
Record t : Type := mk { session : Z; ephemeral : Buffer }.

Definition marshall (data : t) : result Buffer :=
  do buf <- alloc (10 + blength (ephemeral data));
  do buf <- writeUInt32LE buf SERVER_EPHEMERAL 0;
  do buf <- writeUInt32LE buf (session data) 4;
  do buf <- writeUInt16LE buf (blength (ephemeral data)) 8;
  do buf <- copy_all (ephemeral data) buf 10;
  Ok buf.

Definition unmarshall (buf : Buffer) : result t :=
  do magic <- readUInt32LE buf 0;
  if negb (magic =? SERVER_EPHEMERAL)
  then Throw (TypeError "Buffer is not a SERVER_EPHEMERAL packet")
  else
    do ephemeralLength <- readUInt16LE buf 8;
    do ephemeral <- alloc ephemeralLength;
    do ephemeral <- copy buf ephemeral 0 10 (10 + ephemeralLength);
    do session <- readUInt32LE buf 4;
    Ok (mk session ephemeral).
End serverEphemeral.

(** *** Auth server ephemeral *)
Module authEphemeral.
Record t : Type := mk { session : Z; ephemeral : Buffer }.

Definition marshall (data : t) : result Buffer :=
  do buf <- alloc (10 + blength (ephemeral data));
  do buf <- writeUInt32LE buf AUTH_EPHEMERAL 0;
  do buf <- writeUInt32LE buf (session data) 4;
  do buf <- writeUInt16LE buf (blength (ephemeral data)) 8;
  do buf <- copy_all (ephemeral data) buf 10;
  Ok buf.

Definition unmarshall (buf : Buffer) : result t :=
  do magic <- readUInt32LE buf 0;
  if negb (magic =? AUTH_EPHEMERAL)
  then Throw (TypeError "Buffer is not an AUTH_EPHEMERAL packet")
  else
    do ephemeralLength <- readUInt16LE buf 8;
    do ephemeral <- alloc ephemeralLength;
    do ephemeral <- copy buf ephemeral 0 10 (10 + ephemeralLength);
    do session <- readUInt32LE buf 4;
    Ok (mk session ephemeral).
End authEphemeral.

(** *** Server proof *)
Module serverProof.
Record t : Type := mk { session : Z; proof : Buffer }.

Definition marshall (data : t) : result Buffer :=
  do buf <- alloc (10 + blength (proof data));
  do buf <- writeUInt32LE buf SERVER_PROOF 0;
  do buf <- writeUInt32LE buf (session data) 4;
  do buf <- writeUInt16LE buf (blength (proof data)) 8;
  do buf <- copy_all (proof data) buf 10;
  Ok buf.

Definition unmarshall (buf : Buffer) : result t :=
  do magic <- readUInt32LE buf 0;
  if negb (magic =? SERVER_PROOF)
  then Throw (TypeError "Buffer is not an SERVER_PROOF packet")
  else
    do proofLength <- readUInt16LE buf 8;
    do proof <- alloc proofLength;
    do proof <- copy buf proof 0 10 (10 + proofLength);
    do session <- readUInt32LE buf 4;
    Ok (mk session proof).
End serverProof.

(** *** Auth server proof; the length is read with [readInt16LE] *)
Module authProof.
Record t : Type := mk { session : Z; proof : Buffer }.

Definition marshall (data : t) : result Buffer :=
  do buf <- alloc (10 + blength (proof data));
  do buf <- writeUInt32LE buf AUTH_PROOF 0;
  do buf <- writeUInt32LE buf (session data) 4;
  do buf <- writeUInt16LE buf (blength (proof data)) 8;
  do buf <- copy_all (proof data) buf 10;
  Ok buf.

Definition unmarshall (buf : Buffer) : result t :=
  do magic <- readUInt32LE buf 0;
  if negb (magic =? AUTH_PROOF)
  then Throw (TypeError "Buffer is not an AUTH_PROOF packet")
  else
    do proofLength <- readInt16LE buf 8;
    do proof <- alloc proofLength;
    do proof <- copy buf proof 0 10 (10 + proofLength);
    do session <- readUInt32LE buf 4;
    Ok (mk session proof).
End authProof.

(** *** Errors *)
Module userError.
Record t : Type := mk { error : Z; username : jsstring }.

Definition marshall (data : t) : result Buffer :=
  do buf <- alloc (5 + byteLength_ascii (username data) + 1);
  do buf <- writeUInt32LE buf ERROR_USER 0;
  do buf <- writeUInt8 buf (error data) 4;
  do buf <- writeString buf (username data) 5;
  Ok buf.

Definition unmarshall (buf : Buffer) : result t :=
  do magic <- readUInt32LE buf 0;
  if negb (magic =? ERROR_USER)
  then Throw (TypeError "Buffer is not an ERROR_USER packet")
  else
    do error <- readUInt8 buf 4;
    do username <- readString buf 5;
    Ok (mk error username).
End userError.

Module clientSessionError.
Record t : Type := mk { clientSession : Z; error : Z }.

Definition marshall (data : t) : result Buffer :=
  do buf <- alloc 9;
  do buf <- writeUInt32LE buf ERROR_CLIENTSESSION 0;
  do buf <- writeUInt8 buf (error data) 4;
  do buf <- writeUInt32LE buf (clientSession data) 5;
  Ok buf.

Definition unmarshall (buf : Buffer) : result t :=
  do magic <- readUInt32LE buf 0;
  if negb (magic =? ERROR_CLIENTSESSION)
  then Throw (TypeError "Buffer is not an ERROR_SESSION packet")
  else
    do clientSession <- readUInt32LE buf 5;
    do error <- readUInt8 buf 4;
    Ok (mk clientSession error).
End clientSessionError.

Module sessionError.
Record t : Type := mk { error : Z; session : Z }.

Definition marshall (data : t) : result Buffer :=
  do buf <- alloc 9;
  do buf <- writeUInt32LE buf ERROR_SESSION 0;
  do buf <- writeUInt8 buf (error data) 4;
  do buf <- writeUInt32LE buf (session data) 5;
  Ok buf.

Definition unmarshall (buf : Buffer) : result t :=
  do magic <- readUInt32LE buf 0;
  if negb (magic =? ERROR_SESSION)
  then Throw (TypeError "Buffer is not an ERROR_SESSION packet")
  else
    do error <- readUInt8 buf 4;
    do session <- readUInt32LE buf 5;
    Ok (mk error session).
End sessionError.

(** ** The version 1 codec

    The earlier revision of the codec: SERVER_NEGOTIATE has no client
    session id and only version 1 is accepted. *)
Module V1.
Module serverNegotiate.
Record t : Type := mk { username : jsstring }.

Definition marshall (data : t) : result Buffer :=
  do buf <- alloc (5 + byteLength_ascii (username data) + 1);
  do buf <- writeUInt32LE buf SERVER_NEGOTIATE 0;
  do buf <- writeUInt8 buf 1 4;
  do buf <- writeString buf (username data) 5;
  Ok buf.

Definition unmarshall (buf : Buffer) : result t :=
  do magic <- readUInt32LE buf 0;
  if negb (magic =? SERVER_NEGOTIATE)
  then Throw (TypeError "Buffer is not a SERVER_NEGOTIATE packet")
  else
    do version <- readUInt8 buf 4;
    if negb (version =? 1)
    then Throw (TypeError "Buffer is incorrect version of protocol")
    else
      do username <- readString buf 5;
      Ok (mk username).
End serverNegotiate.
End V1.


(** Code units of a literal, for writing examples. *)
Definition js (s : string) : jsstring :=
  map (fun a => Z.of_nat (Ascii.nat_of_ascii a)) (String.list_ascii_of_string s).

(** *** The six handshake packets, taken together *)

Inductive kind : Type :=
  | ServerNegotiate | AuthNegotiate
  | ServerEphemeral | AuthEphemeral
  | ServerProof | AuthProof.

Inductive packet : Type :=
  | PServerNegotiate (p : serverNegotiate.t)
  | PAuthNegotiate (p : authNegotiate.t)
  | PServerEphemeral (p : serverEphemeral.t)
  | PAuthEphemeral (p : authEphemeral.t)
  | PServerProof (p : serverProof.t)
  | PAuthProof (p : authProof.t).

Definition kind_of (p : packet) : kind :=
  match p with
  | PServerNegotiate _ => ServerNegotiate
  | PAuthNegotiate _ => AuthNegotiate
  | PServerEphemeral _ => ServerEphemeral
  | PAuthEphemeral _ => AuthEphemeral
  | PServerProof _ => ServerProof
  | PAuthProof _ => AuthProof
  end.

Definition magic_of (k : kind) : Z :=
  match k with
  | ServerNegotiate => SERVER_NEGOTIATE
  | AuthNegotiate => AUTH_NEGOTIATE
  | ServerEphemeral => SERVER_EPHEMERAL
  | AuthEphemeral => AUTH_EPHEMERAL
  | ServerProof => SERVER_PROOF
  | AuthProof => AUTH_PROOF
  end.

Definition marshall (p : packet) : result Buffer :=
  match p with
  | PServerNegotiate p => serverNegotiate.marshall p
  | PAuthNegotiate p => authNegotiate.marshall p
  | PServerEphemeral p => serverEphemeral.marshall p
  | PAuthEphemeral p => authEphemeral.marshall p
  | PServerProof p => serverProof.marshall p
  | PAuthProof p => authProof.marshall p
  end.

Definition unmarshall (k : kind) (buf : Buffer) : result packet :=
  match k with
  | ServerNegotiate => do p <- serverNegotiate.unmarshall buf; Ok (PServerNegotiate p)
  | AuthNegotiate => do p <- authNegotiate.unmarshall buf; Ok (PAuthNegotiate p)
  | ServerEphemeral => do p <- serverEphemeral.unmarshall buf; Ok (PServerEphemeral p)
  | AuthEphemeral => do p <- authEphemeral.unmarshall buf; Ok (PAuthEphemeral p)
  | ServerProof => do p <- serverProof.unmarshall buf; Ok (PServerProof p)
  | AuthProof => do p <- authProof.unmarshall buf; Ok (PAuthProof p)
  end.

(** *** Well-formed packet values

    Integer fields fit their width, a payload fits its length prefix, and
    a username is ASCII without NUL. *)

Definition is_uint (bits : Z) (v : Z) : bool := (0 <=? v) && (v <? 2 ^ bits).

Definition is_username (s : jsstring) : bool :=
  forallb (fun c => (1 <=? c) && (c <=? 127)) s.

Definition well_formed (p : packet) : bool :=
  match p with
  | PServerNegotiate p =>
      is_uint 32 (serverNegotiate.clientSession p)
      && ((serverNegotiate.version p =? 1) || (serverNegotiate.version p =? 2))
      && is_username (serverNegotiate.username p)
  | PAuthNegotiate p =>
      is_uint 32 (authNegotiate.clientSession p)
      && is_uint 32 (authNegotiate.session p)
      && (blength (authNegotiate.salt p) <? 256)
      && is_username (authNegotiate.username p)
  | PServerEphemeral p =>
      is_uint 32 (serverEphemeral.session p)
      && (blength (serverEphemeral.ephemeral p) <? 65536)
  | PAuthEphemeral p =>
      is_uint 32 (authEphemeral.session p)
      && (blength (authEphemeral.ephemeral p) <? 65536)
  | PServerProof p =>
      is_uint 32 (serverProof.session p)
      && (blength (serverProof.proof p) <? 65536)
  | PAuthProof p =>
      is_uint 32 (authProof.session p)
      && (blength (authProof.proof p) <? 65536)
  end.

(** *** Malformed buffers, in the words of the decoder contract

    A buffer is malformed for a packet kind when it is truncated before
    the end of the fixed-size fields, carries another magic, carries a
    version the decoder does not know, or has no NUL after the start of
    its string. *)

Definition header_size (k : kind) : Z :=
  match k with
  | ServerNegotiate => 9
  | AuthNegotiate => 14
  | _ => 10
  end.

Definition truncated (k : kind) (buf : Buffer) : bool := blength buf <? header_size k.

Definition wrong_magic (k : kind) (buf : Buffer) : bool :=
  match readUInt32LE buf 0 with
  | Ok magic => negb (magic =? magic_of k)
  | Throw _ => true
  end.

Definition unknown_version (k : kind) (buf : Buffer) : bool :=
  match k, readUInt8 buf 4 with
  | ServerNegotiate, Ok v => negb (v =? 1) && negb (v =? 2)
  | AuthNegotiate, Ok v => negb (v =? 1)
  | _, _ => false
  end.

Definition string_offset (k : kind) (buf : Buffer) : option Z :=
  match k with
  | ServerNegotiate => Some 9
  | AuthNegotiate =>
      match readUInt8 buf 13 with
      | Ok salt_len => Some (14 + salt_len)
      | Throw _ => None
      end
  | _ => None
  end.

Definition unterminated (k : kind) (buf : Buffer) : bool :=
  match string_offset k buf with
  | Some offset => indexOf_NUL buf offset =? -1
  | None => false
  end.

Definition malformed (k : kind) (buf : Buffer) : bool :=
  truncated k buf || wrong_magic k buf || unknown_version k buf || unterminated k buf.

(** The 16-bit length field of the ephemeral and proof packets. *)
Definition length_field (buf : Buffer) : result Z := readUInt16LE buf 8.

(** ** source/dbconn.js *)

(** *** What the database code takes from elsewhere

    [srp.computeVerifier] and [srp.params] come from the SRP module, and
    [String.prototype.toLowerCase] from the language; lowering a lowered
    string changes nothing. *)
Class Env : Type := {
  SrpParams : Type;
  params : string -> SrpParams;
  computeVerifier : SrpParams -> Buffer -> Buffer -> Buffer -> Buffer;
  toLowerCase : jsstring -> jsstring;
  toLowerCase_idem : forall s, toLowerCase (toLowerCase s) = toLowerCase s
}.

(** *** Tables

    A table is the list of its rows in insertion order; the primary key
    of a row is its position, since no operation here deletes a row.
    Times are milliseconds since the epoch. *)

Inductive Access : Type := OWNER | MASTER | OP | USER | UNVERIFIED.

Definition Access_eqb (a b : Access) : bool :=
  match a, b with
  | OWNER, OWNER | MASTER, MASTER | OP, OP | USER, USER | UNVERIFIED, UNVERIFIED => true
  | _, _ => false
  end.

Module User.
Record t : Type := mk {
  username : jsstring;
  email : jsstring;
  verifier : Buffer;
  salt : Buffer;
  access : Access;
  active : bool
}.
End User.

Module Session.
Record t : Type := mk {
  session : Z;
  ephemeral : option Buffer;
  secret : option Buffer;
  createdAt : Z;
  UserId : option nat
}.
End Session.

Module Profile.
Record t : Type := mk { username : jsstring; UserId : option nat }.
End Profile.

(** The database, and the source of [crypto.randomBytes]: an unbounded
    stream of which every draw consumes a prefix. *)
Record World : Type := mkWorld {
  Users : list User.t;
  Sessions : list Session.t;
  Profiles : list Profile.t;
  entropy : nat -> Z
}.

Definition empty_world (entropy : nat -> Z) : World := mkWorld [] [] [] entropy.

(** A model instance: the primary key and the values of the row. *)
Definition instance (A : Type) : Type := (nat * A)%type.

(** *** Promises: state and exceptions *)

Definition M (A : Type) : Type := World -> result A * World.

Definition resolve {A : Type} (a : A) : M A := fun w => (Ok a, w).
Definition reject {A : Type} (e : exn) : M A := fun w => (Throw e, w).

Definition then_ {A B : Type} (m : M A) (f : A -> M B) : M B :=
  fun w =>
    match m w with
    | (Ok a, w') => f a w'
    | (Throw e, w') => (Throw e, w')
    end.

Notation "'run' x <- m ; k" := (then_ m (fun x => k))
  (at level 10, x name, m at level 100, k at level 200,
   format "'[v' 'run'  x  <-  m ; '/' k ']'").

(** [Promise.all] of two promises: both run to their end, and the first
    rejection is the result. *)
Definition Promise_all {A B : Type} (a : M A) (b : M B) : M (A * B) :=
  fun w =>
    let '(ra, w1) := a w in
    let '(rb, w2) := b w1 in
    match ra, rb with
    | Ok x, Ok y => (Ok (x, y), w2)
    | Throw e, _ => (Throw e, w2)
    | _, Throw e => (Throw e, w2)
    end.

Definition of_result {A : Type} (r : result A) : M A := fun w => (r, w).

(** The next [n] random bytes. *)
Definition draw (n : nat) (w : World) : Buffer :=
  map (fun i => entropy w i mod 256) (seq 0 n).

(** [crypto.randomBytes(n)] *)
Definition randomBytes (n : nat) : M Buffer :=
  fun w =>
    (Ok (draw n w),
     mkWorld (Users w) (Sessions w) (Profiles w) (fun i => entropy w (n + i)%nat)).

(** *** Queries *)

(** [findOne]: the first row that satisfies the [where] clause. *)
Fixpoint findOne_from {A : Type} (where_ : A -> bool) (i : nat) (rows : list A)
  : option (instance A) :=
  match rows with
  | [] => None
  | r :: rows => if where_ r then Some (i, r) else findOne_from where_ (S i) rows
  end.

Definition findOne {A : Type} (where_ : A -> bool) (rows : list A) : option (instance A) :=
  findOne_from where_ O rows.

Definition jsstring_eqb (a b : jsstring) : bool := bool_decide (a = b).

Definition User_create (row : User.t) : M (instance User.t) :=
  fun w =>
    (Ok (length (Users w), row),
     mkWorld (Users w ++ [row]) (Sessions w) (Profiles w) (entropy w)).

Definition User_findOne (where_ : User.t -> bool) : M (option (instance User.t)) :=
  fun w => (Ok (findOne where_ (Users w)), w).

(** [User.findOne({ where: { id: id } })] *)
Definition User_findById (id : option nat) : M (option (instance User.t)) :=
  fun w =>
    (Ok (match id with
         | Some id => match Users w !! id with
                      | Some row => Some (id, row)
                      | None => None
                      end
         | None => None
         end), w).

Definition User_save (user : instance User.t) : M (instance User.t) :=
  fun w =>
    (Ok user,
     mkWorld (<[fst user := snd user]> (Users w)) (Sessions w) (Profiles w) (entropy w)).

Definition Profile_create (row : Profile.t) : M (instance Profile.t) :=
  fun w =>
    (Ok (length (Profiles w), row),
     mkWorld (Users w) (Sessions w) (Profiles w ++ [row]) (entropy w)).

(** [user.setProfile(profile)] *)
Definition setProfile (user : instance User.t) (profile : instance Profile.t)
  : M (instance Profile.t) :=
  fun w =>
    let row := Profile.mk (Profile.username (snd profile)) (Some (fst user)) in
    (Ok (fst profile, row),
     mkWorld (Users w) (Sessions w) (<[fst profile := row]> (Profiles w)) (entropy w)).

(** [Session.create({ session: sessionID })], at time [now]. *)
Definition Session_create (sessionID : Z) (now : Z) : M (instance Session.t) :=
  fun w =>
    let row := Session.mk sessionID None None now None in
    (Ok (length (Sessions w), row),
     mkWorld (Users w) (Sessions w ++ [row]) (Profiles w) (entropy w)).

Definition is_Some_b {A : Type} (o : option A) : bool :=
  match o with Some _ => true | None => false end.

Definition Session_findOne (where_ : Session.t -> bool) : M (option (instance Session.t)) :=
  fun w => (Ok (findOne where_ (Sessions w)), w).

Definition Session_save (sess : instance Session.t) : M (instance Session.t) :=
  fun w =>
    (Ok sess,
     mkWorld (Users w) (<[fst sess := snd sess]> (Sessions w)) (Profiles w) (entropy w)).

(** [session.setUser(user)] *)
Definition setUser (sess : instance Session.t) (user : instance User.t)
  : M (instance Session.t) :=
  let row := snd sess in
  Session_save
    (fst sess,
     Session.mk (Session.session row) (Session.ephemeral row) (Session.secret row)
       (Session.createdAt row) (Some (fst user))).

(** [sess.getUser()] *)
Definition getUser (sess : instance Session.t) : M (option (instance User.t)) :=
  User_findById (Session.UserId (snd sess)).

(** [sess.update({ ephemeral: ephemeral, secret: secret })] *)
Definition Session_update (sess : instance Session.t) (ephemeral secret : Buffer)
  : M (instance Session.t) :=
  let row := snd sess in
  Session_save
    (fst sess,
     Session.mk (Session.session row) (Some ephemeral) (Some secret)
       (Session.createdAt row) (Session.UserId row)).

(** *** date-utils: [this.getSecondsBetween(date)]

    The difference in milliseconds, divided by 1000 and cut to a 32-bit
    integer by [| 0]. *)
Definition ToInt32 (x : Z) : Z := (x + 2 ^ 31) mod 2 ^ 32 - 2 ^ 31.

Definition getSecondsBetween (this date : Z) : Z := ToInt32 (Z.quot (date - this) 1000).

(** *** The operations of DBConn *)

Section DBConn.
Context `{Env}.

(** [User.prototype.setPassword]: the instance with a new salt and the
    verifier of the password under that salt. *)
Definition setPassword (this : User.t) (password : jsstring) : M User.t :=
  let usernameBuffer := Buffer_from_ascii (toLowerCase (User.username this)) in
  let passwordBuffer := Buffer_from_ascii password in
  run salt <- randomBytes 4;
  let verifier := computeVerifier (params "2048") salt usernameBuffer passwordBuffer in
  resolve (User.mk (User.username this) (User.email this) verifier salt
             (User.access this) (User.active this)).

Definition addUser (username password email : jsstring) (access : option Access)
  : M (option (instance User.t)) :=
  let usernameBuffer := Buffer_from_ascii (toLowerCase username) in
  let passwordBuffer := Buffer_from_ascii password in
  run salt <- randomBytes 4;
  let verifier := computeVerifier (params "2048") salt usernameBuffer passwordBuffer in
  let access := default UNVERIFIED access in
  run created <-
    Promise_all
      (User_create
         (User.mk (toLowerCase username) email verifier salt access
            (if Access_eqb access UNVERIFIED then false else true)))
      (Profile_create (Profile.mk username None));
  run profile <- setProfile (fst created) (snd created);
  User_findById (Profile.UserId (snd profile)).

Definition findUser (username : jsstring) : M (instance User.t) :=
  run data <- User_findOne (fun u => jsstring_eqb (User.username u) (toLowerCase username));
  match data with
  | None => reject (UserNotFound "User not found" username)
  | Some data => resolve data
  end.

Definition newSession (username : jsstring) (now : Z) : M (instance Session.t) :=
  run found <-
    Promise_all
      (findUser username)
      (run sessionBuffer <- randomBytes 4;
       run sessionID <- of_result (readUInt32LE sessionBuffer 0);
       Session_create sessionID now);
  setUser (snd found) (fst found).

End DBConn.

Definition findSession (session timeout : Z) (now : Z) : M (instance Session.t) :=
  run sess <- Session_findOne (fun r => Session.session r =? session);
  match sess with
  | None => reject (SessionNotFound "Session not found" session)
  | Some sess =>
      (* A session that is expired is not a valid session. *)
      let diff := getSecondsBetween (Session.createdAt (snd sess)) now in
      if diff >? timeout then reject (Error "Session has expired")
      else
        (* Get data associated with session. *)
        run user <- getUser sess;
        match user with
        | None => reject (Error "Session is not attached to User")
        | Some user =>
            if Access_eqb (User.access (snd user)) UNVERIFIED
            then reject (Error "Session belongs to UNVERIFIED User")
            else resolve sess
        end
  end.

(** [session = ? AND ephemeral IS NULL AND secret IS NULL] *)
Definition unset_session (session : Z) (r : Session.t) : bool :=
  (Session.session r =? session)
  && negb (is_Some_b (Session.ephemeral r))
  && negb (is_Some_b (Session.secret r)).

Definition setEphemeral (session : Z) (ephemeral secret : Buffer) : M (instance Session.t) :=
  run sess <- Session_findOne (unset_session session);
  match sess with
  | None => reject (Error "Session not found")
  | Some sess => Session_update sess ephemeral secret
  end.

(** *** Histories

    What the callers in the repository do to the database: the calls of
    DBConn, and the three ways a loaded user is changed and saved (a new
    password through [setPassword], a new access level, a new e-mail
    address). *)

Inductive op : Type :=
  | AddUser (username password email : jsstring) (access : option Access)
  | SavePassword (id : nat) (password : jsstring)
  | SaveAccess (id : nat) (level : Access)
  | SaveEmail (id : nat) (email : jsstring)
  | NewSession (username : jsstring) (now : Z)
  | FindSession (session timeout now : Z)
  | SetEphemeral (session : Z) (ephemeral secret : Buffer).

Section Histories.
Context `{Env}.

(** [user.setPassword(password); user.save()] on the user with key [id]. *)
Definition savePassword (id : nat) (password : jsstring) : M (instance User.t) :=
  run user <- User_findById (Some id);
  match user with
  | None => reject (TypeError "Cannot read properties of null")
  | Some user =>
      run changed <- setPassword (snd user) password;
      User_save (fst user, changed)
  end.

(** [user.access = level; user.save()] *)
Definition saveAccess (id : nat) (level : Access) : M (instance User.t) :=
  run user <- User_findById (Some id);
  match user with
  | None => reject (TypeError "Cannot set properties of null")
  | Some (id, u) =>
      User_save (id, User.mk (User.username u) (User.email u) (User.verifier u)
                       (User.salt u) level (User.active u))
  end.

(** [user.email = email; user.save()] *)
Definition saveEmail (id : nat) (email : jsstring) : M (instance User.t) :=
  run user <- User_findById (Some id);
  match user with
  | None => reject (TypeError "Cannot set properties of null")
  | Some (id, u) =>
      User_save (id, User.mk (User.username u) email (User.verifier u)
                       (User.salt u) (User.access u) (User.active u))
  end.

(** The database after an operation, whatever its result. *)
Definition exec (o : op) (w : World) : World :=
  match o with
  | AddUser username password email access => snd (addUser username password email access w)
  | SavePassword id password => snd (savePassword id password w)
  | SaveAccess id level => snd (saveAccess id level w)
  | SaveEmail id email => snd (saveEmail id email w)
  | NewSession username now => snd (newSession username now w)
  | FindSession session timeout now => snd (findSession session timeout now w)
  | SetEphemeral session ephemeral secret => snd (setEphemeral session ephemeral secret w)
  end.

Inductive reachable : World -> Prop :=
  | reachable_empty entropy : reachable (empty_world entropy)
  | reachable_exec o w : reachable w -> reachable (exec o w).

(** A user row is consistent when its salt has four bytes and its
    verifier is the verifier of some password under that salt and the
    lowered username: the equation a login recomputes. *)
Definition consistent (u : User.t) : Prop :=
  length (User.salt u) = 4%nat /\
  exists password : jsstring,
    User.verifier u =
    computeVerifier (params "2048") (User.salt u)
      (Buffer_from_ascii (toLowerCase (User.username u)))
      (Buffer_from_ascii password).

End Histories.

(** A stand-in for the SRP module and for lowering of ASCII letters, to
    run the operations on examples. *)
Definition ascii_lower (c : Z) : Z := if (65 <=? c) && (c <=? 90) then c + 32 else c.

Definition example_env : Env.
Proof.
  refine (Build_Env unit (fun _ => tt) (fun _ salt I P => salt ++ I ++ P)
            (map ascii_lower) _).
  intros s. rewrite map_map. apply map_ext. intros c.
  unfold ascii_lower.
  destruct ((65 <=? c) && (c <=? 90)) eqn:E; [|rewrite E; reflexivity].
  destruct ((65 <=? c + 32) && (c + 32 <=? 90)) eqn:E'; [|reflexivity].
  apply andb_prop in E as [E1 E2], E' as [E3 E4]. lia.
Defined.

(** ** Inputs of the examples *)

Definition long_proof : authProof.t := authProof.mk 7 (replicate (Z.to_nat 32768) 0).

Definition wire_0x8000 : Buffer := [0x30; 0xCA; 0x03; 0xD0; 7; 0; 0; 0; 0x00; 0x80].

Definition alice_v1 : Buffer :=
  [0x01; 0xCA; 0x03; 0xD0; 1; 97; 108; 105; 99; 101; 0].

Definition w_empty : World := empty_world (fun _ => 7).

Definition w_alice : World :=
  @exec example_env
    (AddUser (js "Alice") (js "hunter2") (js "alice@example.org") (Some USER)) w_empty.

Definition w_one : World := @exec example_env (NewSession (js "alice") 1000) w_alice.

Definition w_two : World := @exec example_env (NewSession (js "alice") 2000) w_one.

Definition w_demoted : World := @exec example_env (SaveAccess 0 UNVERIFIED) w_one.

Definition alice_row : User.t :=
  User.mk (js "alice") (js "alice@example.org")
    ([7; 7; 7; 7] ++ js "alice" ++ js "hunter2") [7; 7; 7; 7] USER true.

Definition first_session : Session.t := Session.mk 117901063 None None 1000 (Some 0%nat).
Definition second_session : Session.t := Session.mk 117901063 None None 2000 (Some 0%nat).

(** ** More of source/proto.js *)

(** *** The three error packets, taken together *)

Inductive error_kind : Type := UserError | ClientSessionError | SessionError.

Inductive error_packet : Type :=
  | PUserError (p : userError.t)
  | PClientSessionError (p : clientSessionError.t)
  | PSessionError (p : sessionError.t).

Definition error_kind_of (p : error_packet) : error_kind :=
  match p with
  | PUserError _ => UserError
  | PClientSessionError _ => ClientSessionError
  | PSessionError _ => SessionError
  end.

Definition marshall_error (p : error_packet) : result Buffer :=
  match p with
  | PUserError p => userError.marshall p
  | PClientSessionError p => clientSessionError.marshall p
  | PSessionError p => sessionError.marshall p
  end.

Definition unmarshall_error (k : error_kind) (buf : Buffer) : result error_packet :=
  match k with
  | UserError => do p <- userError.unmarshall buf; Ok (PUserError p)
  | ClientSessionError =>
      do p <- clientSessionError.unmarshall buf; Ok (PClientSessionError p)
  | SessionError => do p <- sessionError.unmarshall buf; Ok (PSessionError p)
  end.

Definition error_well_formed (p : error_packet) : bool :=
  match p with
  | PUserError p => is_uint 8 (userError.error p) && is_username (userError.username p)
  | PClientSessionError p =>
      is_uint 8 (clientSessionError.error p)
      && is_uint 32 (clientSessionError.clientSession p)
  | PSessionError p =>
      is_uint 8 (sessionError.error p) && is_uint 32 (sessionError.session p)
  end.

(** *** What an encoder can write

    The numbers of a packet fit the fields they are written to; nothing
    is asked of a username. *)
Definition encodable (p : packet) : bool :=
  match p with
  | PServerNegotiate p =>
      is_uint 8 (serverNegotiate.version p) && is_uint 32 (serverNegotiate.clientSession p)
  | PAuthNegotiate p =>
      is_uint 32 (authNegotiate.clientSession p)
      && is_uint 32 (authNegotiate.session p)
      && (blength (authNegotiate.salt p) <? 256)
  | PServerEphemeral p =>
      is_uint 32 (serverEphemeral.session p)
      && (blength (serverEphemeral.ephemeral p) <? 65536)
  | PAuthEphemeral p =>
      is_uint 32 (authEphemeral.session p)
      && (blength (authEphemeral.ephemeral p) <? 65536)
  | PServerProof p =>
      is_uint 32 (serverProof.session p) && (blength (serverProof.proof p) <? 65536)
  | PAuthProof p =>
      is_uint 32 (authProof.session p) && (blength (authProof.proof p) <? 65536)
  end.

(** The size an encoder allocates. *)
Definition wire_size (p : packet) : Z :=
  match p with
  | PServerNegotiate p => 9 + blength (serverNegotiate.username p) + 1
  | PAuthNegotiate p =>
      14 + blength (authNegotiate.salt p) + blength (authNegotiate.username p) + 1
  | PServerEphemeral p => 10 + blength (serverEphemeral.ephemeral p)
  | PAuthEphemeral p => 10 + blength (authEphemeral.ephemeral p)
  | PServerProof p => 10 + blength (serverProof.proof p)
  | PAuthProof p => 10 + blength (authProof.proof p)
  end.

(** The code units of a string before the first one whose low byte is
    zero: what is left of it after a NUL-terminated write. *)
Fixpoint until_NUL (str : jsstring) : jsstring :=
  match str with
  | [] => []
  | c :: str => if Z.land c 255 =? 0 then [] else c :: until_NUL str
  end.

(** ** More of source/dbconn.js *)

(** *** Errors of the web side

    [LoginAuthFailed], [VerifyNotFound] and [ResetNotFound] are classes of
    the error module, beside the exceptions above. *)
Inductive web_exn : Type :=
  | Thrown (e : exn)
  | LoginAuthFailed (msg : string)
  | VerifyNotFound (msg : string)
  | ResetNotFound (msg : string).

(** [buf.toString('hex')]: two lower-case digits for every byte. *)
Definition hex_digit (n : Z) : Z := if n <? 10 then 48 + n else 87 + n.

Definition toString_hex (buf : Buffer) : jsstring :=
  flat_map (fun b => [hex_digit (b / 16); hex_digit (b mod 16)]) buf.

(** [buf.toString('base64')], with its padding. *)
Definition base64_char (n : Z) : Z :=
  if n <? 26 then 65 + n
  else if n <? 52 then 71 + n
  else if n <? 62 then n - 4
  else if n =? 62 then 43
  else 47.

Fixpoint toString_base64 (buf : Buffer) : jsstring :=
  match buf with
  | a :: b :: c :: rest =>
      base64_char (a / 4) :: base64_char (a mod 4 * 16 + b / 16)
      :: base64_char (b mod 16 * 4 + c / 64) :: base64_char (c mod 64)
      :: toString_base64 rest
  | [a; b] =>
      [base64_char (a / 4); base64_char (a mod 4 * 16 + b / 16);
       base64_char (b mod 16 * 4); 61]
  | [a] => [base64_char (a / 4); base64_char (a mod 4 * 16); 61; 61]
  | [] => []
  end.

Section DBConn_more.
Context `{Env}.

(** The row [addUser] hands to [User.create]. *)
Definition new_user (username password email : jsstring) (access : option Access)
    (w : World) : User.t :=
  User.mk (toLowerCase username) email
    (computeVerifier (params "2048") (draw 4 w)
       (Buffer_from_ascii (toLowerCase username)) (Buffer_from_ascii password))
    (draw 4 w) (default UNVERIFIED access)
    (if Access_eqb (default UNVERIFIED access) UNVERIFIED then false else true).

(** [Sequelize.or({ username: identity }, { email: identity })] *)
Definition by_identity (identity : jsstring) (u : User.t) : bool :=
  jsstring_eqb (User.username u) identity || jsstring_eqb (User.email u) identity.

(** Attempts to verify a user in when the password is delivered directly
    to the application (i.e. through a web login form). *)
Definition verifyUser (identity password : jsstring) (w : World)
  : instance User.t + web_exn :=
  let passwordBuffer := Buffer_from_ascii password in
  match findOne (by_identity (toLowerCase identity)) (Users w) with
  | None => inr (Thrown (UserNotFound "User not found" identity))
  | Some data =>
      let usernameBuffer := Buffer_from_ascii (toLowerCase (User.username (snd data))) in
      let verifier :=
        computeVerifier (params "2048") (User.salt (snd data)) usernameBuffer
          passwordBuffer in
      if negb (jsstring_eqb (toString_hex verifier) (toString_hex (User.verifier (snd data))))
      then inr (LoginAuthFailed "Login failed")
      else inl data
  end.

(** The [userpass] command of camanage: a new random password for a user,
    returned with the saved row. *)
Definition userpass (user : jsstring) : M (instance User.t * jsstring) :=
  run found <-
    User_findOne (fun u => jsstring_eqb (User.username u) (toLowerCase user));
  run random <- randomBytes 9;
  match found with
  | None => reject (TypeError "Cannot read property 'setPassword' of null")
  | Some found =>
      let password := toString_base64 random in
      run changed <- setPassword (snd found) password;
      run saved <- User_save (fst found, changed);
      resolve (saved, password)
  end.

End DBConn_more.

(** The state of a session row: an id of 32 bits, the ephemeral and the
    secret set together or not at all, and a user that exists. *)
Definition session_ok (w : World) (r : Session.t) : Prop :=
  0 <= Session.session r < 2 ^ 32 /\
  (Session.ephemeral r = None <-> Session.secret r = None) /\
  forall id : nat, Session.UserId r = Some id -> (id < length (Users w))%nat.

(** *** Verification and reset tokens

    The tables Verify and Reset have the same columns; [uuid] is what
    [uuidv4()] returns for the call. *)
Module Token.
Record t : Type := mk { token : option jsstring; UserId : option nat; updatedAt : Z }.
End Token.

Record Tokens : Type := mkTokens { Verifies : list Token.t; Resets : list Token.t }.

(** date-utils: [this.getDaysBetween(date)] *)
Definition getDaysBetween (this date : Z) : Z := ToInt32 (Z.quot (date - this) 86400000).

Definition has_user (id : nat) (r : Token.t) : bool :=
  match Token.UserId r with
  | Some i => Nat.eqb i id
  | None => false
  end.

Definition has_token (token : jsstring) (r : Token.t) : bool :=
  match Token.token r with
  | Some t => jsstring_eqb t token
  | None => false
  end.

(** [findOrCreate({ where: { UserId: id } })]: the row, whether it was
    created, and the table. *)
Definition findOrCreate (id : nat) (now : Z) (rows : list Token.t)
  : instance Token.t * bool * list Token.t :=
  match findOne (has_user id) rows with
  | Some found => (found, false, rows)
  | None =>
      let row := Token.mk None (Some id) now in
      ((length rows, row), true, rows ++ [row])
  end.

(** [row.update({ token: token })], at time [now].  The row is written,
    with its [updatedAt], when the token is a new one; when the row holds
    the token already no UPDATE is issued, and only the instance that is
    returned carries the new time. *)
Definition Token_update (row : instance Token.t) (token : jsstring) (now : Z)
    (rows : list Token.t) : instance Token.t * list Token.t :=
  let updated := Token.mk (Some token) (Token.UserId (snd row)) now in
  ((fst row, updated),
   if has_token token (snd row) then rows else <[fst row := updated]> rows).

(** Either create a new verify token or reuse an existing one. *)
Definition newVerify (user : instance User.t) (now : Z) (uuid : jsstring) (t : Tokens)
  : instance Token.t * Tokens :=
  let '(verify, created, rows) := findOrCreate (fst user) now (Verifies t) in
  let '(verify, rows) := Token_update verify uuid now rows in
  (verify, mkTokens rows (Resets t)).

(** Find a valid verify token. *)
Definition findVerify (token : jsstring) (now : Z) (t : Tokens)
  : instance Token.t + web_exn :=
  match findOne (has_token token) (Verifies t) with
  | None => inr (VerifyNotFound "Verify not found")
  | Some reset =>
      (* Reset tokens expire after 24 hours *)
      let diff := getDaysBetween (Token.updatedAt (snd reset)) now in
      if negb (diff =? 0) then inr (VerifyNotFound "Verify has expired")
      else inl reset
  end.

(** Either create a new reset token or reuse an existing one. *)
Definition newReset (user : instance User.t) (now : Z) (uuid : jsstring) (t : Tokens)
  : instance Token.t * Tokens :=
  let '(reset, created, rows) := findOrCreate (fst user) now (Resets t) in
  let '(reset, rows) := Token_update reset uuid now rows in
  (reset, mkTokens (Verifies t) rows).

(** Find a valid reset token. *)
Definition findReset (token : jsstring) (now : Z) (t : Tokens)
  : instance Token.t + web_exn :=
  match findOne (has_token token) (Resets t) with
  | None => inr (ResetNotFound "Reset not found")
  | Some reset =>
      (* Reset tokens expire after 24 hours *)
      let diff := getDaysBetween (Token.updatedAt (snd reset)) now in
      if negb (diff =? 0) then inr (ResetNotFound "Reset has expired")
      else inl reset
  end.

(** *** The names of the action types *)

(** The values of the [type] column of Action. *)
Inductive ActionType : Type := auth | login | logout | edit | create.

Definition ActionType_name (t : ActionType) : string :=
  match t with
  | auth => "auth"
  | login => "login"
  | logout => "logout"
  | edit => "edit"
  | create => "create"
  end.

(** Lookup table for action types *)
Definition prettyTypes : list (string * string) :=
  [("auth", "Authenticated on game server");
   ("login", "Logged into website");
   ("logout", "Logged out of website");
   ("editUser", "Edited user data");
   ("editProfile", "Edited user profile data");
   ("create", "User created")].

Fixpoint lookup_key (key : string) (table : list (string * string)) : option string :=
  match table with
  | [] => None
  | (k, v) :: table => if String.eqb k key then Some v else lookup_key key table
  end.

(** [Action.prototype.getPrettyType] *)
Definition getPrettyType (type : ActionType) : string :=
  match lookup_key (ActionType_name type) prettyTypes with
  | Some pretty => pretty
  | None => "Unknown action"
  end.

(** ** The rest of the version 1 codec

    The version 1 codec allocates with [new Buffer(size)], which does not
    initialise the buffer, and frames an ephemeral with a signed length of
    32 bits at offset 8. *)

(** [new Buffer(size)]: [size] bytes of whatever the memory holds;
    [memory] gives the byte found at each position. *)
Definition new_Buffer (memory : nat -> Z) (size : Z) : result Buffer :=
  if size <? 0 then Throw RangeError
  else Ok (map (fun i => memory i mod 256) (seq 0 (Z.to_nat size))).

(** [writeInt32LE] and [readInt32LE]: two's complement. *)
Definition writeInt32LE (buf : Buffer) (value offset : Z) : result Buffer :=
  if (value <? - 2 ^ 31) || (2 ^ 31 <=? value) then Throw RangeError
  else if (offset <? 0) || (blength buf <? offset + 4) then Throw RangeError
  else Ok (list_inserts (Z.to_nat offset) (le_bytes 4 value) buf).

Definition readInt32LE (buf : Buffer) (offset : Z) : result Z :=
  do val <- readUInt32LE buf offset;
  Ok (if Z.testbit val 31 then val - 2 ^ 32 else val).

Module V1_more.

(** Auth server negotiation: UInt32, UInt8, UInt32, UInt8, Buffer,
    String. *)
Module authNegotiate.
Record t : Type := mk { session : Z; salt : Buffer; username : jsstring }.

Definition marshall (memory : nat -> Z) (data : t) : result Buffer :=
  do buf <- new_Buffer memory
              (10 + blength (salt data) + byteLength_ascii (username data) + 1);
  do buf <- writeUInt32LE buf AUTH_NEGOTIATE 0;
  do buf <- writeUInt8 buf 1 4;
  do buf <- writeUInt32LE buf (session data) 5;
  do buf <- writeUInt8 buf (blength (salt data)) 9;
  do buf <- copy_all (salt data) buf 10;
  do buf <- writeString buf (username data) (10 + blength (salt data));
  Ok buf.

Definition unmarshall (memory : nat -> Z) (buf : Buffer) : result t :=
  do magic <- readUInt32LE buf 0;
  if negb (magic =? AUTH_NEGOTIATE)
  then Throw (TypeError "Buffer is not a AUTH_NEGOTIATE packet")
  else
    do version <- readUInt8 buf 4;
    if negb (version =? 1)
    then Throw (TypeError "Buffer is incorrect version of protocol")
    else
      (* Salt *)
      do salt_len <- readUInt8 buf 9;
      do salt <- new_Buffer memory salt_len;
      do salt <- copy buf salt 0 10 (10 + salt_len);
      do session <- readUInt32LE buf 5;
      do username <- readString buf (10 + salt_len);
      Ok (mk session salt username).
End authNegotiate.

(** Server ephemeral: UInt32, Int32, Buffer. *)
Module serverEphemeral.
Record t : Type := mk { session : Z; ephemeral : Buffer }.

Definition marshall (memory : nat -> Z) (data : t) : result Buffer :=
  do buf <- new_Buffer memory (12 + blength (ephemeral data));
  do buf <- writeUInt32LE buf SERVER_EPHEMERAL 0;
  do buf <- writeUInt32LE buf (session data) 4;
  do buf <- writeInt32LE buf (blength (ephemeral data)) 8;
  do buf <- copy_all (ephemeral data) buf 12;
  Ok buf.

Definition unmarshall (memory : nat -> Z) (buf : Buffer) : result t :=
  do magic <- readUInt32LE buf 0;
  if negb (magic =? SERVER_EPHEMERAL)
  then Throw (TypeError "Buffer is not a SERVER_EPHEMERAL packet")
  else
    do ephemeralLength <- readInt32LE buf 8;
    do ephemeral <- new_Buffer memory ephemeralLength;
    do ephemeral <- copy buf ephemeral 0 12 (12 + ephemeralLength);
    do session <- readUInt32LE buf 4;
    Ok (mk session ephemeral).
End serverEphemeral.

(** Auth server ephemeral: UInt32, Int32, Buffer. *)
Module authEphemeral.
Record t : Type := mk { session : Z; ephemeral : Buffer }.

Definition marshall (memory : nat -> Z) (data : t) : result Buffer :=
  do buf <- new_Buffer memory (12 + blength (ephemeral data));
  do buf <- writeUInt32LE buf AUTH_EPHEMERAL 0;
  do buf <- writeUInt32LE buf (session data) 4;
  do buf <- writeInt32LE buf (blength (ephemeral data)) 8;
  do buf <- copy_all (ephemeral data) buf 12;
  Ok buf.

Definition unmarshall (memory : nat -> Z) (buf : Buffer) : result t :=
  do magic <- readUInt32LE buf 0;
  if negb (magic =? AUTH_EPHEMERAL)
  then Throw (TypeError "Buffer is not an AUTH_EPHEMERAL packet")
  else
    do ephemeralLength <- readInt32LE buf 8;
    do ephemeral <- new_Buffer memory ephemeralLength;
    do ephemeral <- copy buf ephemeral 0 12 (12 + ephemeralLength);
    do session <- readUInt32LE buf 4;
    Ok (mk session ephemeral).
End authEphemeral.

End V1_more.

(** The three packets taken together. *)
Inductive V1_kind : Type := V1_AuthNegotiate | V1_ServerEphemeral | V1_AuthEphemeral.

Inductive V1_packet : Type :=
  | V1PAuthNegotiate (p : V1_more.authNegotiate.t)
  | V1PServerEphemeral (p : V1_more.serverEphemeral.t)
  | V1PAuthEphemeral (p : V1_more.authEphemeral.t).

Definition V1_kind_of (p : V1_packet) : V1_kind :=
  match p with
  | V1PAuthNegotiate _ => V1_AuthNegotiate
  | V1PServerEphemeral _ => V1_ServerEphemeral
  | V1PAuthEphemeral _ => V1_AuthEphemeral
  end.

Definition V1_marshall (memory : nat -> Z) (p : V1_packet) : result Buffer :=
  match p with
  | V1PAuthNegotiate p => V1_more.authNegotiate.marshall memory p
  | V1PServerEphemeral p => V1_more.serverEphemeral.marshall memory p
  | V1PAuthEphemeral p => V1_more.authEphemeral.marshall memory p
  end.

Definition V1_unmarshall (memory : nat -> Z) (k : V1_kind) (buf : Buffer)
  : result V1_packet :=
  match k with
  | V1_AuthNegotiate =>
      do p <- V1_more.authNegotiate.unmarshall memory buf; Ok (V1PAuthNegotiate p)
  | V1_ServerEphemeral =>
      do p <- V1_more.serverEphemeral.unmarshall memory buf; Ok (V1PServerEphemeral p)
  | V1_AuthEphemeral =>
      do p <- V1_more.authEphemeral.unmarshall memory buf; Ok (V1PAuthEphemeral p)
  end.

(** The packets the version 1 codec is meant for: ids of 32 bits, a salt
    shorter than 256 bytes, an ephemeral shorter than 2^31 bytes, an ASCII
    username without NUL. *)
Definition V1_well_formed (p : V1_packet) : bool :=
  match p with
  | V1PAuthNegotiate p =>
      is_uint 32 (V1_more.authNegotiate.session p)
      && (blength (V1_more.authNegotiate.salt p) <? 256)
      && is_username (V1_more.authNegotiate.username p)
  | V1PServerEphemeral p =>
      is_uint 32 (V1_more.serverEphemeral.session p)
      && (blength (V1_more.serverEphemeral.ephemeral p) <? 2 ^ 31)
  | V1PAuthEphemeral p =>
      is_uint 32 (V1_more.authEphemeral.session p)
      && (blength (V1_more.authEphemeral.ephemeral p) <? 2 ^ 31)
  end.

(** The ephemeral of a decoded packet, if it has one. *)
Definition V1_ephemeral (p : V1_packet) : option Buffer :=
  match p with
  | V1PAuthNegotiate _ => None
  | V1PServerEphemeral p => Some (V1_more.serverEphemeral.ephemeral p)
  | V1PAuthEphemeral p => Some (V1_more.authEphemeral.ephemeral p)
  end.

(** A version 1 SERVER_EPHEMERAL that announces three bytes and holds
    one. *)
Definition short_ephemeral_v1 : Buffer :=
  [0x02; 0xCA; 0x03; 0xD0; 7; 0; 0; 0; 3; 0; 0; 0; 9].


(** ** More example inputs *)

(** The database [w_one] with other random bytes to come. *)
Definition w_later : World :=
  mkWorld (Users w_one) (Sessions w_one) (Profiles w_one) (fun _ => 1).

Definition w_bob : World :=
  @exec example_env
    (AddUser (js "Bob") (js "swordfish") (js "bob@example.org") None) w_alice.

Definition bob_row : User.t :=
  User.mk (js "bob") (js "bob@example.org")
    ([7; 7; 7; 7] ++ js "bob" ++ js "swordfish") [7; 7; 7; 7] UNVERIFIED false.

Definition some_tokens : Tokens :=
  mkTokens [Token.mk (Some (js "v1")) (Some 3%nat) 0; Token.mk (Some (js "v2")) (Some 0%nat) 0]
    [Token.mk (Some (js "r1")) (Some 0%nat) 0].

(** Alice, who may log in, and Bob, who is UNVERIFIED, each with a session
    created at the same time; the two draws gave the same id. *)
Definition w_shared : World :=
  @exec example_env (NewSession (js "bob") 1000)
    (@exec example_env (NewSession (js "alice") 1000) w_bob).

Definition bob_session : Session.t := Session.mk 117901063 None None 1000 (Some 1%nat).


(** * Properties *)

(** ** Buffers as concatenations *)

(** Decide the comparisons that guard a buffer operation. *)
Ltac guards :=
  repeat match goal with
    | |- context [Z.ltb ?a ?b] => destruct (Z.ltb_spec a b); try lia
    | |- context [Z.leb ?a ?b] => destruct (Z.leb_spec a b); try lia
    end;
  cbn [orb andb negb].

Lemma blength_app (a b : list Z) : blength (a ++ b) = blength a + blength b.
Proof. unfold blength. rewrite length_app. lia. Qed.

Lemma blength_nonneg (a : list Z) : 0 <= blength a.
Proof. unfold blength. lia. Qed.

Lemma length_le_bytes n v : length (le_bytes n v) = n.
Proof. revert v. induction n as [|n IH]; intros v; simpl; [reflexivity|]. now rewrite IH. Qed.

Lemma le_value_le_bytes n v :
  0 <= v < 2 ^ (8 * Z.of_nat n) -> le_value (le_bytes n v) = v.
Proof.
  revert v. induction n as [|n IH]; intros v Hv.
  - simpl in *. lia.
  - cbn [le_bytes le_value]. rewrite IH.
    + pose proof (Z.div_mod v 256). lia.
    + replace (8 * Z.of_nat (S n)) with (8 + 8 * Z.of_nat n) in Hv by lia.
      rewrite Z.pow_add_r in Hv by lia. change (2 ^ 8) with 256 in Hv.
      split; [apply Z.div_pos; lia|].
      apply Z.div_lt_upper_bound; lia.
Qed.

Lemma alloc_of_nat (n : nat) : alloc (Z.of_nat n) = Ok (replicate n 0).
Proof.
  unfold alloc. destruct (Z.ltb_spec (Z.of_nat n) 0); [lia|].
  now rewrite Nat2Z.id.
Qed.

Lemma read_le_at n (pre bs post : list Z) off :
  off = blength pre -> length bs = n ->
  read_le n (pre ++ bs ++ post) off = Ok (le_value bs).
Proof.
  intros -> Hn. unfold read_le.
  rewrite !blength_app. unfold blength. rewrite Hn.
  guards. rewrite Nat2Z.id, drop_app_length, take_app_length' by congruence.
  reflexivity.
Qed.

Lemma read_le_head n (bs post : list Z) :
  length bs = n -> read_le n (bs ++ post) 0 = Ok (le_value bs).
Proof. intros Hn. now apply (read_le_at n [] bs post 0). Qed.

Lemma write_le_at n (pre old post : list Z) v off :
  off = blength pre -> length old = n -> 0 <= v < 2 ^ (8 * Z.of_nat n) ->
  write_le n (pre ++ old ++ post) v off = Ok (pre ++ le_bytes n v ++ post).
Proof.
  intros -> Hn Hv. unfold write_le.
  rewrite !blength_app. unfold blength. rewrite Hn.
  guards. rewrite Nat2Z.id.
  replace (length pre) with (length pre + 0)%nat at 1 by lia.
  rewrite list_inserts_app_r, list_inserts_0_r; [reflexivity|].
  rewrite length_le_bytes. congruence.
Qed.

Lemma copy_all_at (source pre old post : list Z) off :
  off = blength pre -> length old = length source ->
  copy_all source (pre ++ old ++ post) off = Ok (pre ++ source ++ post).
Proof.
  intros -> Hn. unfold copy_all, copy.
  pose proof (blength_nonneg pre). pose proof (blength_nonneg source).
  destruct (Z.ltb_spec (blength pre) 0); [lia|].
  destruct (Z.ltb_spec 0 0); [lia|].
  destruct (Z.ltb_spec (blength source) 0); [lia|]. cbn [orb].
  rewrite !blength_app.
  destruct (Z.leb_spec (blength source) 0) as [Hz|Hz].
  - assert (source = []) as -> by (destruct source; [reflexivity|unfold blength in Hz; simpl in Hz; lia]).
    destruct old; [|discriminate]. rewrite orb_true_r. reflexivity.
  - destruct (Z.leb_spec (blength pre + (blength old + blength post)) (blength pre)) as [Hl|Hl].
    { unfold blength in *. lia. }
    cbn [orb]. rewrite Z.sub_0_r. unfold blength. rewrite !Nat2Z.id.
    change (Z.to_nat 0) with 0%nat. rewrite drop_0, firstn_all.
    replace (length pre) with (length pre + 0)%nat at 1 by lia.
    rewrite list_inserts_app_r, list_inserts_0_r; [reflexivity|congruence].
Qed.

Lemma length_Buffer_from_ascii s : length (Buffer_from_ascii s) = length s.
Proof. unfold Buffer_from_ascii. apply length_map. Qed.

Lemma writeString_at (pre post : list Z) (str : jsstring) off :
  off = blength pre ->
  writeString (pre ++ replicate (length str + 1) 0 ++ post) str off
  = Ok (pre ++ Buffer_from_ascii str ++ 0 :: post).
Proof.
  intros ->. unfold writeString.
  rewrite replicate_add, <- (app_assoc (replicate (length str) 0)).
  rewrite copy_all_at by (rewrite ?length_replicate, ?length_Buffer_from_ascii; reflexivity).
  cbn [result_bind]. unfold writeUInt8.
  rewrite (app_assoc pre).
  rewrite (write_le_at 1 _ (replicate 1 0) post 0); [|rewrite blength_app; reflexivity|reflexivity|simpl; lia].
  rewrite <- app_assoc. reflexivity.
Qed.

Lemma copy_out (pre payload post : list Z) off n :
  off = blength pre -> n = blength payload ->
  copy (pre ++ payload ++ post) (replicate (Z.to_nat n) 0) 0 off (off + n) = Ok payload.
Proof.
  intros -> ->. unfold copy, blength.
  rewrite !length_app, length_replicate, !Nat2Z.id.
  destruct payload as [|b payload].
  - simpl length. guards; reflexivity.
  - simpl length. guards.
    replace (Z.to_nat (Z.of_nat (length pre) + Z.of_nat (S (length payload))
                       - Z.of_nat (length pre)))
      with (length (b :: payload)) by (simpl length; lia).
    rewrite drop_app_length, take_app_length.
    change (Z.to_nat 0) with 0%nat.
    rewrite <- (app_nil_r (replicate _ _)).
    rewrite list_inserts_0_r by (now rewrite length_replicate).
    now rewrite app_nil_r.
Qed.

Lemma low_byte_of_ascii c : 1 <= c <= 127 -> Z.land c 255 = c.
Proof.
  intros Hc. change 255 with (Z.ones 8). rewrite Z.land_ones by lia.
  apply Z.mod_small. change (2 ^ 8) with 256. lia.
Qed.

Lemma low_bits_of_ascii c : 1 <= c <= 127 -> Z.land c 127 = c.
Proof.
  intros Hc. change 127 with (Z.ones 7). rewrite Z.land_ones by lia.
  apply Z.mod_small. change (2 ^ 7) with 128. lia.
Qed.

Lemma is_username_cons c str :
  is_username (c :: str) = true -> 1 <= c <= 127 /\ is_username str = true.
Proof.
  unfold is_username. cbn [forallb]. intros H.
  apply andb_prop in H as [Hc Hs]. apply andb_prop in Hc as [H1 H2].
  apply Z.leb_le in H1, H2. auto.
Qed.

Lemma Buffer_from_ascii_username (str : jsstring) :
  is_username str = true -> Buffer_from_ascii str = str.
Proof.
  induction str as [|c str IH]; intros Hs; [reflexivity|].
  apply is_username_cons in Hs as [Hc Hs]. unfold Buffer_from_ascii in *.
  cbn [map]. now rewrite IH, low_byte_of_ascii.
Qed.

Lemma find_zero_username (str : jsstring) (post : list Z) :
  is_username str = true -> find_zero (str ++ 0 :: post) = Some (length str).
Proof.
  induction str as [|c str IH]; intros Hs; [reflexivity|].
  apply is_username_cons in Hs as [Hc Hs].
  cbn [app find_zero]. destruct (Z.eqb_spec c 0); [lia|].
  now rewrite IH.
Qed.

Lemma ascii_roundtrip (str : jsstring) :
  is_username str = true -> map (fun b => Z.land b 127) str = str.
Proof.
  induction str as [|c str IH]; intros Hs; [reflexivity|].
  apply is_username_cons in Hs as [Hc Hs].
  cbn [map]. now rewrite IH, low_bits_of_ascii.
Qed.

Lemma readString_at (pre post : list Z) (str : jsstring) off :
  off = blength pre -> is_username str = true ->
  readString (pre ++ Buffer_from_ascii str ++ 0 :: post) off = Ok str.
Proof.
  intros -> Hs. unfold readString, indexOf_NUL, toString_ascii.
  rewrite Buffer_from_ascii_username by assumption.
  unfold blength. rewrite Nat2Z.id, drop_app_length, find_zero_username by assumption.
  destruct (Z.eqb_spec (Z.of_nat (length pre) + Z.of_nat (length str)) (-1)); [lia|].
  replace (Z.to_nat (Z.of_nat (length pre) + Z.of_nat (length str) - Z.of_nat (length pre)))
    with (length str) by lia.
  rewrite take_app_length, ascii_roundtrip by assumption. reflexivity.
Qed.

(** ** Wire layout of the marshalled packets *)

Lemma alloc_header (h : nat) (n : Z) (payload : list Z) :
  n = Z.of_nat h + blength payload ->
  alloc n = Ok (replicate h 0 ++ replicate (length payload) 0).
Proof.
  intros ->. unfold blength. rewrite <- Nat2Z.inj_add, alloc_of_nat, replicate_add.
  reflexivity.
Qed.

Lemma uint_bounds bits v : is_uint bits v = true -> 0 <= v < 2 ^ bits.
Proof.
  unfold is_uint. intros H. apply andb_prop in H as [H1 H2].
  apply Z.leb_le in H1. apply Z.ltb_lt in H2. lia.
Qed.

(** The ephemeral and proof packets: magic, session, length, payload. *)
Lemma framed_layout (magic session : Z) (payload : Buffer) :
  0 <= magic < 2 ^ 32 -> 0 <= session < 2 ^ 32 -> blength payload < 65536 ->
  (do buf <- alloc (10 + blength payload);
   do buf <- writeUInt32LE buf magic 0;
   do buf <- writeUInt32LE buf session 4;
   do buf <- writeUInt16LE buf (blength payload) 8;
   do buf <- copy_all payload buf 10;
   Ok buf)
  = Ok (le_bytes 4 magic ++ le_bytes 4 session ++ le_bytes 2 (blength payload) ++ payload).
Proof.
  intros Hm Hs Hp. pose proof (blength_nonneg payload).
  rewrite (alloc_header 10 _ payload) by reflexivity. cbn [result_bind].
  change (replicate 10 0) with ([] ++ replicate 4 0 ++ replicate 4 0 ++ replicate 2 0).
  rewrite <- !app_assoc.
  unfold writeUInt32LE, writeUInt16LE.
  rewrite write_le_at; [|reflexivity|reflexivity|assumption].
  cbn [result_bind app].
  rewrite (write_le_at 4 (le_bytes 4 magic)); [|reflexivity|reflexivity|assumption].
  cbn [result_bind]. rewrite (app_assoc (le_bytes 4 magic)).
  rewrite (write_le_at 2); [|reflexivity|reflexivity|simpl; lia].
  cbn [result_bind]. rewrite (app_assoc _ (le_bytes 2 _)).
  rewrite <- (app_nil_r (replicate (length payload) 0)).
  rewrite copy_all_at; [|reflexivity|apply length_replicate].
  cbn [result_bind]. rewrite app_nil_r, <- !app_assoc. reflexivity.
Qed.

Lemma framed_fields (magic session : Z) (payload : Buffer) :
  0 <= magic < 2 ^ 32 -> 0 <= session < 2 ^ 32 -> blength payload < 65536 ->
  let buf := le_bytes 4 magic ++ le_bytes 4 session
             ++ le_bytes 2 (blength payload) ++ payload in
  readUInt32LE buf 0 = Ok magic /\
  readUInt32LE buf 4 = Ok session /\
  readUInt16LE buf 8 = Ok (blength payload) /\
  copy buf (replicate (length payload) 0) 0 10 (10 + blength payload) = Ok payload.
Proof.
  intros Hm Hs Hp buf. pose proof (blength_nonneg payload).
  unfold readUInt32LE, readUInt16LE. subst buf. repeat split.
  - rewrite read_le_head by reflexivity. now rewrite le_value_le_bytes.
  - rewrite (read_le_at 4 (le_bytes 4 magic)) by reflexivity. now rewrite le_value_le_bytes.
  - rewrite (app_assoc (le_bytes 4 magic)).
    rewrite (read_le_at 2) by reflexivity. rewrite le_value_le_bytes; [reflexivity|simpl; lia].
  - rewrite (app_assoc (le_bytes 4 magic)), (app_assoc _ (le_bytes 2 _)).
    replace (length payload) with (Z.to_nat (blength payload)) by (unfold blength; lia).
    pose proof (copy_out ((le_bytes 4 magic ++ le_bytes 4 session)
                            ++ le_bytes 2 (blength payload)) payload [] 10
                  (blength payload) eq_refl eq_refl) as E.
    now rewrite app_nil_r in E.
Qed.

Lemma readInt16LE_of_unsigned buf offset v :
  readUInt16LE buf offset = Ok v -> 0 <= v < 65536 ->
  readInt16LE buf offset = Ok (if v <? 32768 then v else v - 65536).
Proof.
  intros E Hv. unfold readInt16LE. rewrite E. cbn [result_bind]. f_equal.
  destruct (Z.ltb_spec v 32768).
  - rewrite Z.bits_above_log2; [reflexivity|lia|].
    destruct (Z.eq_dec v 0) as [->|]; [simpl; lia|].
    apply Z.log2_lt_pow2; lia.
  - assert (Z.testbit v 15 = true) as ->; [|reflexivity].
    apply Z.testbit_true; [lia|]. change (2 ^ 15) with 32768.
    assert (v / 32768 = 1) as ->
      by (symmetry; apply Z.div_unique with (r := v - 32768); lia).
    reflexivity.
Qed.

Lemma magic_bounds (k : kind) : 0 <= magic_of k < 2 ^ 32.
Proof. destruct k; cbv; split; congruence. Qed.

(** ** Round trips *)

Ltac framed_roundtrip k :=
  match goal with
  | Hs : is_uint 32 ?s = true, He : (blength ?e <? 65536) = true |- _ =>
      apply uint_bounds in Hs; apply Z.ltb_lt in He;
      let m := eval cbn in (magic_of k) in change m with (magic_of k);
      rewrite (framed_layout (magic_of k) s e (magic_bounds k) Hs He);
      destruct (framed_fields (magic_of k) s e (magic_bounds k) Hs He) as (E1 & E2 & E3 & E4);
      cbn [result_bind];
      rewrite E1; cbn [result_bind]; rewrite Z.eqb_refl; cbn [negb]
  end.

Lemma serverEphemeral_roundtrip (p : serverEphemeral.t) :
  well_formed (PServerEphemeral p) = true ->
  (do b <- serverEphemeral.marshall p; serverEphemeral.unmarshall b) = Ok p.
Proof.
  destruct p as [s e]. cbn [well_formed serverEphemeral.session serverEphemeral.ephemeral].
  intros Hwf. apply andb_prop in Hwf as [Hs He].
  unfold serverEphemeral.marshall, serverEphemeral.unmarshall.
  cbn [serverEphemeral.session serverEphemeral.ephemeral].
  framed_roundtrip ServerEphemeral.
  rewrite E3. cbn [result_bind]. unfold blength at 1. rewrite alloc_of_nat.
  cbn [result_bind]. rewrite E4. cbn [result_bind]. rewrite E2. reflexivity.
Qed.

Lemma authEphemeral_roundtrip (p : authEphemeral.t) :
  well_formed (PAuthEphemeral p) = true ->
  (do b <- authEphemeral.marshall p; authEphemeral.unmarshall b) = Ok p.
Proof.
  destruct p as [s e]. cbn [well_formed authEphemeral.session authEphemeral.ephemeral].
  intros Hwf. apply andb_prop in Hwf as [Hs He].
  unfold authEphemeral.marshall, authEphemeral.unmarshall.
  cbn [authEphemeral.session authEphemeral.ephemeral].
  framed_roundtrip AuthEphemeral.
  rewrite E3. cbn [result_bind]. unfold blength at 1. rewrite alloc_of_nat.
  cbn [result_bind]. rewrite E4. cbn [result_bind]. rewrite E2. reflexivity.
Qed.

Lemma serverProof_roundtrip (p : serverProof.t) :
  well_formed (PServerProof p) = true ->
  (do b <- serverProof.marshall p; serverProof.unmarshall b) = Ok p.
Proof.
  destruct p as [s e]. cbn [well_formed serverProof.session serverProof.proof].
  intros Hwf. apply andb_prop in Hwf as [Hs He].
  unfold serverProof.marshall, serverProof.unmarshall.
  cbn [serverProof.session serverProof.proof].
  framed_roundtrip ServerProof.
  rewrite E3. cbn [result_bind]. unfold blength at 1. rewrite alloc_of_nat.
  cbn [result_bind]. rewrite E4. cbn [result_bind]. rewrite E2. reflexivity.
Qed.

(** AUTH_PROOF comes back as long as the sign bit of its length is clear. *)
Lemma authProof_roundtrip_short (p : authProof.t) :
  well_formed (PAuthProof p) = true -> blength (authProof.proof p) < 32768 ->
  (do b <- authProof.marshall p; authProof.unmarshall b) = Ok p.
Proof.
  destruct p as [s e]. cbn [well_formed authProof.session authProof.proof].
  intros Hwf Hshort. apply andb_prop in Hwf as [Hs He].
  unfold authProof.marshall, authProof.unmarshall.
  cbn [authProof.session authProof.proof].
  framed_roundtrip AuthProof.
  pose proof (blength_nonneg e).
  rewrite (readInt16LE_of_unsigned _ _ _ E3) by lia.
  destruct (Z.ltb_spec (blength e) 32768); [|lia].
  cbn [result_bind]. unfold blength at 1. rewrite alloc_of_nat.
  cbn [result_bind]. rewrite E4. cbn [result_bind]. rewrite E2. reflexivity.
Qed.

Lemma authProof_roundtrip_long (p : authProof.t) :
  well_formed (PAuthProof p) = true -> 32768 <= blength (authProof.proof p) ->
  (do b <- authProof.marshall p; authProof.unmarshall b) = Throw RangeError.
Proof.
  destruct p as [s e]. cbn [well_formed authProof.session authProof.proof].
  intros Hwf Hlong. apply andb_prop in Hwf as [Hs He].
  unfold authProof.marshall, authProof.unmarshall.
  cbn [authProof.session authProof.proof].
  framed_roundtrip AuthProof.
  rewrite (readInt16LE_of_unsigned _ _ _ E3) by lia.
  destruct (Z.ltb_spec (blength e) 32768); [lia|].
  cbn [result_bind]. unfold alloc.
  destruct (Z.ltb_spec (blength e - 65536) 0); [reflexivity|lia].
Qed.

Lemma alloc_split (h m : nat) (n : Z) :
  n = Z.of_nat h + Z.of_nat m -> alloc n = Ok (replicate h 0 ++ replicate m 0).
Proof. intros ->. now rewrite <- Nat2Z.inj_add, alloc_of_nat, replicate_add. Qed.

Lemma writeString_end (pre : list Z) (str : jsstring) off :
  off = blength pre ->
  writeString (pre ++ replicate (length str + 1) 0) str off
  = Ok (pre ++ Buffer_from_ascii str ++ [0]).
Proof.
  intros Hoff. pose proof (writeString_at pre [] str off Hoff) as E.
  now rewrite app_nil_r in E.
Qed.

Lemma version_bounds v : (v =? 1) || (v =? 2) = true -> 0 <= v < 2 ^ 8.
Proof.
  intros H. apply orb_prop in H as [H|H]; apply Z.eqb_eq in H; subst; simpl; lia.
Qed.

Lemma serverNegotiate_layout (p : serverNegotiate.t) :
  well_formed (PServerNegotiate p) = true ->
  serverNegotiate.marshall p =
  Ok (le_bytes 4 SERVER_NEGOTIATE ++ le_bytes 1 (serverNegotiate.version p)
      ++ le_bytes 4 (serverNegotiate.clientSession p)
      ++ Buffer_from_ascii (serverNegotiate.username p) ++ [0]).
Proof.
  destruct p as [cs u v].
  cbn [well_formed serverNegotiate.version serverNegotiate.clientSession
         serverNegotiate.username].
  intros Hwf. apply andb_prop in Hwf as [Hwf Hu]. apply andb_prop in Hwf as [Hcs Hv].
  apply uint_bounds in Hcs. apply version_bounds in Hv.
  unfold serverNegotiate.marshall, byteLength_ascii.
  cbn [serverNegotiate.version serverNegotiate.clientSession serverNegotiate.username].
  rewrite (alloc_split 9 (length u + 1)) by (unfold blength; lia). cbn [result_bind].
  change (replicate 9 0) with ([] ++ replicate 4 0 ++ replicate 1 0 ++ replicate 4 0).
  rewrite <- !app_assoc. unfold writeUInt32LE, writeUInt8 at 1.
  rewrite write_le_at; [|reflexivity|reflexivity|apply (magic_bounds ServerNegotiate)].
  cbn [result_bind app].
  rewrite (write_le_at 1 (le_bytes 4 SERVER_NEGOTIATE)); [|reflexivity|reflexivity|assumption].
  cbn [result_bind]. rewrite (app_assoc (le_bytes 4 SERVER_NEGOTIATE)).
  rewrite (write_le_at 4); [|reflexivity|reflexivity|assumption].
  cbn [result_bind]. rewrite (app_assoc _ (le_bytes 4 _)).
  rewrite writeString_end by reflexivity.
  cbn [result_bind]. now rewrite <- !app_assoc.
Qed.

Lemma serverNegotiate_roundtrip (p : serverNegotiate.t) :
  well_formed (PServerNegotiate p) = true ->
  (do b <- serverNegotiate.marshall p; serverNegotiate.unmarshall b) = Ok p.
Proof.
  intros Hwf. rewrite serverNegotiate_layout by assumption.
  destruct p as [cs u v].
  cbn [well_formed serverNegotiate.version serverNegotiate.clientSession
         serverNegotiate.username] in *.
  apply andb_prop in Hwf as [Hwf Hu]. apply andb_prop in Hwf as [Hcs Hv].
  apply uint_bounds in Hcs. pose proof (version_bounds v Hv) as Hvb.
  cbn [result_bind]. unfold serverNegotiate.unmarshall, readUInt32LE, readUInt8.
  rewrite read_le_head by reflexivity.
  rewrite le_value_le_bytes by apply (magic_bounds ServerNegotiate).
  cbn [result_bind]. rewrite Z.eqb_refl. cbn [negb].
  rewrite (read_le_at 1 (le_bytes 4 SERVER_NEGOTIATE)) by reflexivity.
  rewrite le_value_le_bytes by assumption. cbn [result_bind].
  replace (negb (v =? 1) && negb (v =? 2)) with false
    by (destruct (v =? 1), (v =? 2); simpl in *; congruence).
  rewrite (app_assoc (le_bytes 4 SERVER_NEGOTIATE)).
  rewrite (read_le_at 4) by reflexivity.
  rewrite le_value_le_bytes by assumption. cbn [result_bind].
  rewrite (app_assoc _ (le_bytes 4 cs)).
  rewrite readString_at by (reflexivity || assumption).
  reflexivity.
Qed.

Lemma authNegotiate_layout (p : authNegotiate.t) :
  well_formed (PAuthNegotiate p) = true ->
  authNegotiate.marshall p =
  Ok (le_bytes 4 AUTH_NEGOTIATE ++ le_bytes 1 1
      ++ le_bytes 4 (authNegotiate.clientSession p)
      ++ le_bytes 4 (authNegotiate.session p)
      ++ le_bytes 1 (blength (authNegotiate.salt p))
      ++ authNegotiate.salt p
      ++ Buffer_from_ascii (authNegotiate.username p) ++ [0]).
Proof.
  destruct p as [cs s salt u].
  cbn [well_formed authNegotiate.session authNegotiate.clientSession
         authNegotiate.username authNegotiate.salt].
  intros Hwf. apply andb_prop in Hwf as [Hwf Hu]. apply andb_prop in Hwf as [Hwf Hsalt].
  apply andb_prop in Hwf as [Hcs Hs].
  apply uint_bounds in Hcs, Hs. apply Z.ltb_lt in Hsalt.
  pose proof (blength_nonneg salt).
  unfold authNegotiate.marshall, byteLength_ascii.
  cbn [authNegotiate.session authNegotiate.clientSession
         authNegotiate.username authNegotiate.salt].
  rewrite (alloc_split 14 (length salt + (length u + 1))) by (unfold blength; lia).
  cbn [result_bind]. rewrite (replicate_add (length salt)).
  change (replicate 14 0)
    with ([] ++ replicate 4 0 ++ replicate 1 0 ++ replicate 4 0 ++ replicate 4 0
             ++ replicate 1 0).
  rewrite <- !app_assoc. unfold writeUInt32LE, writeUInt8 at 1 2.
  rewrite write_le_at; [|reflexivity|reflexivity|apply (magic_bounds AuthNegotiate)].
  cbn [result_bind app].
  rewrite (write_le_at 1 (le_bytes 4 AUTH_NEGOTIATE)); [|reflexivity|reflexivity|simpl; lia].
  cbn [result_bind]. rewrite (app_assoc (le_bytes 4 AUTH_NEGOTIATE)).
  rewrite (write_le_at 4); [|reflexivity|reflexivity|assumption].
  cbn [result_bind]. rewrite (app_assoc _ (le_bytes 4 _)).
  rewrite (write_le_at 4); [|reflexivity|reflexivity|assumption].
  cbn [result_bind]. rewrite (app_assoc _ (le_bytes 4 _)).
  rewrite (write_le_at 1); [|reflexivity|reflexivity|simpl; lia].
  cbn [result_bind]. rewrite (app_assoc _ (le_bytes 1 _)).
  rewrite copy_all_at; [|reflexivity|apply length_replicate].
  cbn [result_bind]. rewrite (app_assoc _ salt).
  rewrite writeString_end by (rewrite blength_app; reflexivity).
  cbn [result_bind]. now rewrite <- !app_assoc.
Qed.

(** Reading a field out of a buffer given as a concatenation. *)
Ltac split_at := autorewrite with list; reflexivity.

Lemma read_le_split n (buf pre bs post : list Z) off v :
  buf = pre ++ bs ++ post -> off = blength pre -> bs = le_bytes n v ->
  0 <= v < 2 ^ (8 * Z.of_nat n) ->
  read_le n buf off = Ok v.
Proof.
  intros -> -> -> Hv. rewrite read_le_at by (reflexivity || apply length_le_bytes).
  now rewrite le_value_le_bytes.
Qed.

Lemma copy_out_split (buf pre payload post : list Z) off n :
  buf = pre ++ payload ++ post -> off = blength pre -> n = length payload ->
  copy buf (replicate n 0) 0 off (off + blength payload) = Ok payload.
Proof.
  intros -> -> ->.
  replace (length payload) with (Z.to_nat (blength payload)) by (unfold blength; lia).
  now apply copy_out.
Qed.

Lemma readString_split (buf pre post : list Z) (str : jsstring) off :
  buf = pre ++ Buffer_from_ascii str ++ 0 :: post -> off = blength pre ->
  is_username str = true -> readString buf off = Ok str.
Proof. intros -> -> Hs. now apply readString_at. Qed.

Lemma authNegotiate_fields (cs s : Z) (salt : Buffer) (u : jsstring) :
  0 <= cs < 2 ^ 32 -> 0 <= s < 2 ^ 32 -> blength salt < 256 -> is_username u = true ->
  let buf := le_bytes 4 AUTH_NEGOTIATE ++ le_bytes 1 1 ++ le_bytes 4 cs ++ le_bytes 4 s
             ++ le_bytes 1 (blength salt) ++ salt ++ Buffer_from_ascii u ++ [0] in
  readUInt32LE buf 0 = Ok AUTH_NEGOTIATE /\
  readUInt8 buf 4 = Ok 1 /\
  readUInt8 buf 13 = Ok (blength salt) /\
  copy buf (replicate (length salt) 0) 0 14 (14 + blength salt) = Ok salt /\
  readUInt32LE buf 5 = Ok cs /\
  readUInt32LE buf 9 = Ok s /\
  readString buf (14 + blength salt) = Ok u.
Proof.
  intros Hcs Hs Hsalt Hu buf. pose proof (blength_nonneg salt).
  set (m := le_bytes 4 AUTH_NEGOTIATE) in *. set (v := le_bytes 1 1) in *.
  set (c := le_bytes 4 cs) in *. set (i := le_bytes 4 s) in *.
  set (n := le_bytes 1 (blength salt)) in *. set (t := Buffer_from_ascii u ++ [0]) in *.
  unfold readUInt32LE, readUInt8. repeat split.
  - apply (read_le_split 4 buf [] m (v ++ c ++ i ++ n ++ salt ++ t));
      [reflexivity|reflexivity|reflexivity|apply (magic_bounds AuthNegotiate)].
  - apply (read_le_split 1 buf m v (c ++ i ++ n ++ salt ++ t));
      [reflexivity|reflexivity|reflexivity|simpl; lia].
  - apply (read_le_split 1 buf (m ++ v ++ c ++ i) n (salt ++ t));
      [subst buf; split_at|reflexivity|reflexivity|simpl; lia].
  - apply (copy_out_split buf (m ++ v ++ c ++ i ++ n) salt t);
      [subst buf; split_at|reflexivity|reflexivity].
  - apply (read_le_split 4 buf (m ++ v) c (i ++ n ++ salt ++ t));
      [subst buf; split_at|reflexivity|reflexivity|assumption].
  - apply (read_le_split 4 buf (m ++ v ++ c) i (n ++ salt ++ t));
      [subst buf; split_at|reflexivity|reflexivity|assumption].
  - apply (readString_split buf (m ++ v ++ c ++ i ++ n ++ salt) []);
      [subst buf t; split_at| |assumption].
    rewrite !app_assoc, blength_app. reflexivity.
Qed.

Lemma authNegotiate_roundtrip (p : authNegotiate.t) :
  well_formed (PAuthNegotiate p) = true ->
  (do b <- authNegotiate.marshall p; authNegotiate.unmarshall b) = Ok p.
Proof.
  intros Hwf. rewrite authNegotiate_layout by assumption.
  destruct p as [cs s salt u].
  cbn [well_formed authNegotiate.session authNegotiate.clientSession
         authNegotiate.username authNegotiate.salt] in *.
  apply andb_prop in Hwf as [Hwf Hu]. apply andb_prop in Hwf as [Hwf Hsalt].
  apply andb_prop in Hwf as [Hcs Hs].
  apply uint_bounds in Hcs, Hs. apply Z.ltb_lt in Hsalt.
  destruct (authNegotiate_fields cs s salt u Hcs Hs Hsalt Hu)
    as (E1 & E2 & E3 & E4 & E5 & E6 & E7).
  cbn [result_bind]. unfold authNegotiate.unmarshall.
  rewrite E1. cbn [result_bind]. rewrite Z.eqb_refl. cbn [negb].
  rewrite E2. cbn [result_bind Z.eqb Pos.eqb negb].
  rewrite E3. cbn [result_bind]. unfold blength at 1. rewrite alloc_of_nat.
  cbn [result_bind]. rewrite E4. cbn [result_bind].
  rewrite E5. cbn [result_bind]. rewrite E6. cbn [result_bind]. rewrite E7.
  reflexivity.
Qed.

Lemma is_buffer_drop buf n : is_buffer buf = true -> is_buffer (drop n buf) = true.
Proof.
  unfold is_buffer. revert n. induction buf as [|b buf IH]; intros [|n] Hb;
    [reflexivity|reflexivity|assumption|].
  cbn [drop]. apply IH. cbn [forallb] in Hb. now apply andb_prop in Hb as [_ ?].
Qed.

Lemma is_buffer_take buf n : is_buffer buf = true -> is_buffer (take n buf) = true.
Proof.
  unfold is_buffer. revert n. induction buf as [|b buf IH]; intros [|n] Hb; try reflexivity.
  cbn [take forallb] in *. apply andb_prop in Hb as [-> Hb]. now apply IH.
Qed.

Lemma le_value_nonneg bs : is_buffer bs = true -> 0 <= le_value bs.
Proof.
  unfold is_buffer. induction bs as [|b bs IH]; intros Hb; [reflexivity|].
  cbn [forallb le_value] in *. apply andb_prop in Hb as [Hb1 Hb].
  unfold is_byte in Hb1. apply andb_prop in Hb1 as [H0 _]. apply Z.leb_le in H0.
  specialize (IH Hb). lia.
Qed.

Lemma field_nonneg buf n m :
  is_buffer buf = true -> 0 <= le_value (take n (drop m buf)).
Proof. intros Hb. now apply le_value_nonneg, is_buffer_take, is_buffer_drop. Qed.

(** Run a decoder symbolically: decide each comparison it makes. *)
Ltac decode_cases :=
  repeat first
    [ progress cbn [result_bind throwsb orb andb negb]
    | match goal with
      | |- context [Z.ltb ?a ?b] => destruct (Z.ltb_spec a b); try lia
      | |- context [Z.leb ?a ?b] => destruct (Z.leb_spec a b); try lia
      | |- context [Z.eqb ?a ?b] => destruct (Z.eqb_spec a b); try lia
      end ].

Ltac unfold_decoders :=
  unfold malformed, truncated, wrong_magic, unknown_version, unterminated,
    string_offset, header_size, magic_of,
    serverNegotiate.unmarshall, authNegotiate.unmarshall,
    serverEphemeral.unmarshall, authEphemeral.unmarshall,
    serverProof.unmarshall, authProof.unmarshall,
    readString, readInt16LE, readUInt32LE, readUInt16LE, readUInt8, read_le, alloc, copy.

Lemma unmarshall_throws_iff_malformed (k : kind) (buf : Buffer) :
  is_buffer buf = true -> k <> AuthProof ->
  throwsb (unmarshall k buf) = malformed k buf.
Proof.
  intros Hb Hk.
  pose proof (field_nonneg buf 2 (Z.to_nat 8) Hb).
  pose proof (field_nonneg buf 1 (Z.to_nat 13) Hb).
  assert (0 <= blength buf) by (unfold blength; lia).
  destruct k; try congruence; cbn [unmarshall]; unfold_decoders;
    decode_cases; reflexivity.
Qed.

Lemma authProof_throws_if_malformed (buf : Buffer) :
  malformed AuthProof buf = true -> throwsb (unmarshall AuthProof buf) = true.
Proof.
  assert (0 <= blength buf) by (unfold blength; lia).
  cbn [unmarshall]; unfold_decoders. decode_cases; try reflexivity; try discriminate.
Qed.

Lemma throws_throwsb {A : Type} (m : result A) : throws m <-> throwsb m = true.
Proof.
  unfold throws. destruct m as [a|e]; cbn [throwsb]; split.
  - intros [e He]. discriminate.
  - discriminate.
  - reflexivity.
  - intros _. now exists e.
Qed.

(** C2, as amended.  For every byte buffer and each of the six packet
    kinds, [unmarshall] throws when the buffer is truncated before the end
    of the fixed-size fields, carries another magic, carries an unknown
    version, or has no NUL terminator for its string; and, AUTH_PROOF
    apart, it throws in no other case.  A length field that exceeds the
    bytes that remain is therefore no error: the decoder returns a packet
    (whose payload has the announced length and is zero where the buffer
    ends, [serverEphemeral_unmarshall_pads]). *)
Theorem unmarshall_throws_on_malformed (k : kind) (buf : Buffer) :
  is_buffer buf = true ->
  (malformed k buf = true -> throws (unmarshall k buf)) /\
  (k <> AuthProof -> throws (unmarshall k buf) -> malformed k buf = true).
Proof.
  intros Hb. rewrite throws_throwsb. split.
  - intros Hm.
    destruct k;
      try (rewrite unmarshall_throws_iff_malformed by (assumption || congruence);
           assumption).
    now apply authProof_throws_if_malformed.
  - intros Hk Ht. now rewrite <- unmarshall_throws_iff_malformed.
Qed.

(** ** The length of AUTH_PROOF *)

Lemma authProof_marshall_length (p : authProof.t) :
  well_formed (PAuthProof p) = true ->
  exists buf, authProof.marshall p = Ok buf /\
              length_field buf = Ok (blength (authProof.proof p)).
Proof.
  destruct p as [s e]. cbn [well_formed authProof.session authProof.proof].
  intros Hwf. apply andb_prop in Hwf as [Hs He].
  apply uint_bounds in Hs. apply Z.ltb_lt in He.
  unfold authProof.marshall. cbn [authProof.session authProof.proof].
  rewrite (framed_layout AUTH_PROOF s e (magic_bounds AuthProof) Hs He).
  eexists. split; [reflexivity|].
  apply (framed_fields AUTH_PROOF s e (magic_bounds AuthProof) Hs He).
Qed.

(** C3.  The length of AUTH_PROOF is not read unsigned: on every buffer
    with the AUTH_PROOF magic whose length field holds a value from 0x8000
    to 0xFFFF, [authProof.unmarshall] reads a negative length and throws a
    [RangeError]; it never produces a proof of 32768 to 65535 bytes.
    ([authProof.marshall] does write the length unsigned,
    [authProof_marshall_length].) *)
Theorem authProof_unmarshall_reads_signed_length (buf : Buffer) (n : Z) :
  readUInt32LE buf 0 = Ok AUTH_PROOF ->
  length_field buf = Ok n ->
  32768 <= n <= 65535 ->
  authProof.unmarshall buf = Throw RangeError.
Proof.
  intros Hmagic Hlen Hn. unfold authProof.unmarshall.
  rewrite Hmagic. cbn [result_bind]. rewrite Z.eqb_refl. cbn [negb].
  rewrite (readInt16LE_of_unsigned buf 8 n Hlen) by lia.
  destruct (Z.ltb_spec n 32768); [lia|].
  cbn [result_bind]. unfold alloc.
  destruct (Z.ltb_spec (n - 65536) 0); [reflexivity|lia].
Qed.

(** ** One layout for SERVER_NEGOTIATE *)

(** C4, as amended.  The SERVER_NEGOTIATE decoder checks that the version
    at offset 4 is 1 or 2, but has one layout for both: for every buffer
    it accepts, the client session id is read at offset 5 and the username
    at offset 9.  (Only the version 1 codec reads the username at offset 5,
    [V1_serverNegotiate_unmarshall_layout].) *)
Theorem serverNegotiate_unmarshall_layout (buf : Buffer) (p : serverNegotiate.t) :
  serverNegotiate.unmarshall buf = Ok p ->
  readUInt8 buf 4 = Ok (serverNegotiate.version p) /\
  (serverNegotiate.version p = 1 \/ serverNegotiate.version p = 2) /\
  readUInt32LE buf 5 = Ok (serverNegotiate.clientSession p) /\
  readString buf 9 = Ok (serverNegotiate.username p).
Proof.
  unfold serverNegotiate.unmarshall.
  destruct (readUInt32LE buf 0) as [magic|]; [|discriminate]. cbn [result_bind].
  destruct (negb (magic =? SERVER_NEGOTIATE)); [discriminate|].
  destruct (readUInt8 buf 4) as [version|]; [|discriminate]. cbn [result_bind].
  destruct (Z.eqb_spec version 1) as [->|]; cbn [negb andb];
    [|destruct (Z.eqb_spec version 2) as [->|]; cbn [negb]; [|discriminate]].
  all: destruct (readUInt32LE buf 5) as [cs|]; [|discriminate]; cbn [result_bind].
  all: destruct (readString buf 9) as [u|]; [|discriminate]; cbn [result_bind].
  all: intros [= <-]; cbn; auto.
Qed.

(** The version 1 codec reads the username right after the version. *)
Lemma V1_serverNegotiate_unmarshall_layout (buf : Buffer) (q : V1.serverNegotiate.t) :
  V1.serverNegotiate.unmarshall buf = Ok q ->
  readUInt8 buf 4 = Ok 1 /\
  readString buf 5 = Ok (V1.serverNegotiate.username q).
Proof.
  unfold V1.serverNegotiate.unmarshall.
  destruct (readUInt32LE buf 0) as [magic|]; [|discriminate]. cbn [result_bind].
  destruct (negb (magic =? SERVER_NEGOTIATE)); [discriminate|].
  destruct (readUInt8 buf 4) as [version|]; [|discriminate]. cbn [result_bind].
  destruct (Z.eqb_spec version 1) as [->|]; cbn [negb]; [|discriminate].
  destruct (readString buf 5) as [u|]; [|discriminate]; cbn [result_bind].
  intros [= <-]; cbn; auto.
Qed.

(** ** The shared magic of the two outbound errors *)

Lemma userError_layout (u : userError.t) :
  is_uint 8 (userError.error u) = true ->
  userError.marshall u =
  Ok (le_bytes 4 ERROR_USER ++ le_bytes 1 (userError.error u)
      ++ Buffer_from_ascii (userError.username u) ++ [0]).
Proof.
  destruct u as [e u]. cbn [userError.error userError.username]. intros He.
  apply uint_bounds in He.
  unfold userError.marshall, byteLength_ascii. cbn [userError.error userError.username].
  rewrite (alloc_split 5 (length u + 1)) by (unfold blength; lia). cbn [result_bind].
  change (replicate 5 0) with ([] ++ replicate 4 0 ++ replicate 1 0).
  rewrite <- !app_assoc. unfold writeUInt32LE, writeUInt8 at 1.
  rewrite write_le_at; [|reflexivity|reflexivity|cbv; split; congruence].
  cbn [result_bind app].
  rewrite (write_le_at 1 (le_bytes 4 ERROR_USER)); [|reflexivity|reflexivity|assumption].
  cbn [result_bind]. rewrite (app_assoc (le_bytes 4 ERROR_USER)).
  rewrite writeString_end by reflexivity.
  cbn [result_bind]. now rewrite <- !app_assoc.
Qed.

Lemma clientSessionError_layout (c : clientSessionError.t) :
  is_uint 8 (clientSessionError.error c) = true ->
  is_uint 32 (clientSessionError.clientSession c) = true ->
  clientSessionError.marshall c =
  Ok (le_bytes 4 ERROR_CLIENTSESSION ++ le_bytes 1 (clientSessionError.error c)
      ++ le_bytes 4 (clientSessionError.clientSession c)).
Proof.
  destruct c as [cs e]. cbn [clientSessionError.error clientSessionError.clientSession].
  intros He Hcs. apply uint_bounds in He, Hcs.
  unfold clientSessionError.marshall.
  cbn [clientSessionError.error clientSessionError.clientSession].
  rewrite (alloc_split 9 0) by reflexivity. cbn [result_bind].
  change (replicate 9 0 ++ replicate 0 0)
    with ([] ++ replicate 4 0 ++ replicate 1 0 ++ replicate 4 0 ++ []).
  unfold writeUInt32LE, writeUInt8.
  rewrite write_le_at; [|reflexivity|reflexivity|cbv; split; congruence].
  cbn [result_bind app].
  rewrite (write_le_at 1 (le_bytes 4 ERROR_CLIENTSESSION));
    [|reflexivity|reflexivity|assumption].
  cbn [result_bind]. rewrite (app_assoc (le_bytes 4 ERROR_CLIENTSESSION)).
  rewrite (write_le_at 4); [|reflexivity|reflexivity|assumption].
  cbn [result_bind]. now rewrite app_nil_r, <- !app_assoc.
Qed.

(** C10, as amended.  ERROR_USER and ERROR_CLIENTSESSION are the same
    magic, so neither decoder tells the other kind by it.  The bytes of a
    user-error packet are accepted by [clientSessionError.unmarshall]
    exactly when the username has at least 3 bytes (so that 9 bytes are
    there to read), and the 9 bytes of a client-session-error packet are
    accepted by [userError.unmarshall] exactly when one of the four bytes
    of the client session id is zero (and serves as the terminator). *)
Theorem error_kinds_share_magic (u : userError.t) (c : clientSessionError.t) :
  is_uint 8 (userError.error u) = true ->
  is_uint 8 (clientSessionError.error c) = true ->
  is_uint 32 (clientSessionError.clientSession c) = true ->
  ERROR_USER = ERROR_CLIENTSESSION /\
  (exists buf, userError.marshall u = Ok buf /\
     throwsb (clientSessionError.unmarshall buf)
     = (blength (userError.username u) <? 3)) /\
  (exists buf, clientSessionError.marshall c = Ok buf /\
     blength buf = 9 /\
     throwsb (userError.unmarshall buf)
     = negb (is_Some_b (find_zero (le_bytes 4 (clientSessionError.clientSession c))))).
Proof.
  intros Hue Hce Hcs. split; [reflexivity|]. split.
  - rewrite userError_layout by assumption. eexists. split; [reflexivity|].
    unfold clientSessionError.unmarshall, readUInt32LE, readUInt8.
    rewrite read_le_head by reflexivity.
    rewrite le_value_le_bytes by (cbv; split; congruence).
    cbn [result_bind]. change (negb (ERROR_USER =? ERROR_CLIENTSESSION)) with false.
    cbv iota. unfold read_le. rewrite !blength_app.
    replace (blength (Buffer_from_ascii (userError.username u)))
      with (blength (userError.username u))
      by (unfold blength; now rewrite length_Buffer_from_ascii).
    assert (0 <= blength (userError.username u)) by apply blength_nonneg.
    change (blength (le_bytes 4 ERROR_USER)) with 4.
    change (blength (le_bytes 1 (userError.error u))) with 1.
    change (blength [0]) with 1.
    decode_cases; reflexivity.
  - rewrite clientSessionError_layout by assumption. eexists.
    split; [reflexivity|]. split; [reflexivity|].
    unfold userError.unmarshall, readUInt32LE, readUInt8.
    rewrite read_le_head by reflexivity.
    rewrite le_value_le_bytes by (cbv; split; congruence).
    cbn [result_bind]. change (negb (ERROR_CLIENTSESSION =? ERROR_USER)) with false.
    cbv iota.
    rewrite (read_le_at 1 (le_bytes 4 ERROR_CLIENTSESSION)) by reflexivity.
    cbn [result_bind]. unfold readString, indexOf_NUL.
    change (drop (Z.to_nat 5) _) with (le_bytes 4 (clientSessionError.clientSession c)).
    destruct (find_zero _) as [i|]; cbn [is_Some_b negb].
    + destruct (Z.eqb_spec (5 + Z.of_nat i) (-1)); [lia|reflexivity].
    + reflexivity.
Qed.

(** ** Queries *)

Lemma findOne_from_Some {A : Type} (P : A -> bool) (rows : list A) (i j : nat) (r : A) :
  findOne_from P i rows = Some (j, r) ->
  (i <= j)%nat /\ rows !! (j - i)%nat = Some r /\ P r = true /\
  forall (k : nat) (r' : A), (k < j - i)%nat -> rows !! k = Some r' -> P r' = false.
Proof.
  revert i. induction rows as [|x rows IH]; intros i; cbn [findOne_from]; [discriminate|].
  destruct (P x) eqn:Px.
  - intros [= <- <-]. rewrite Nat.sub_diag. repeat split; [lia|assumption|].
    intros k r' Hk. lia.
  - intros Hf. apply IH in Hf as (Hij & Hr & HP & Hfirst).
    replace (j - i)%nat with (S (j - S i)) by lia.
    repeat split; [lia|exact Hr|exact HP|].
    intros [|k] r' Hk; cbn [lookup list_lookup].
    + intros [= <-]. exact Px.
    + apply Hfirst. lia.
Qed.

Lemma findOne_Some {A : Type} (P : A -> bool) (rows : list A) (j : nat) (r : A) :
  findOne P rows = Some (j, r) ->
  rows !! j = Some r /\ P r = true /\
  forall (k : nat) (r' : A), (k < j)%nat -> rows !! k = Some r' -> P r' = false.
Proof.
  intros Hf. apply findOne_from_Some in Hf as (_ & Hr & HP & Hfirst).
  rewrite Nat.sub_0_r in *. auto.
Qed.

Lemma findOne_from_None {A : Type} (P : A -> bool) (rows : list A) (i : nat) :
  (forall (k : nat) (r : A), rows !! k = Some r -> P r = false) ->
  findOne_from P i rows = None.
Proof.
  revert i. induction rows as [|x rows IH]; intros i Hall; [reflexivity|].
  cbn [findOne_from]. rewrite (Hall 0%nat x eq_refl).
  apply IH. intros k r Hr. apply (Hall (S k)). exact Hr.
Qed.

Lemma findOne_from_first {A : Type} (P : A -> bool) (rows : list A) (i j : nat) (r : A) :
  rows !! j = Some r -> P r = true ->
  (forall (k : nat) (r' : A), (k < j)%nat -> rows !! k = Some r' -> P r' = false) ->
  findOne_from P i rows = Some ((i + j)%nat, r).
Proof.
  revert i j. induction rows as [|x rows IH]; intros i j Hr HP Hfirst; [discriminate|].
  cbn [findOne_from]. destruct j as [|j].
  - injection Hr as ->. rewrite HP. now rewrite Nat.add_0_r.
  - rewrite (Hfirst 0%nat x) by (lia || reflexivity).
    rewrite (IH (S i) j); [f_equal; f_equal; lia|exact Hr|exact HP|].
    intros k r' Hk Hr'. apply (Hfirst (S k)); [lia|exact Hr'].
Qed.

Lemma findOne_first {A : Type} (P : A -> bool) (rows : list A) (j : nat) (r : A) :
  rows !! j = Some r -> P r = true ->
  (forall (k : nat) (r' : A), (k < j)%nat -> rows !! k = Some r' -> P r' = false) ->
  findOne P rows = Some (j, r).
Proof. intros. unfold findOne. now rewrite (findOne_from_first P rows 0 j r). Qed.

(** ** Session lookup *)

(** The oldest row stored under an id is the one [findOne] returns. *)
Lemma oldest_is_found (rows : list Session.t) (session : Z) (i : nat) (row : Session.t) :
  rows !! i = Some row ->
  Session.session row = session ->
  (forall (j : nat) (r : Session.t),
     (j < i)%nat -> rows !! j = Some r -> Session.session r <> session) ->
  findOne (fun r => Session.session r =? session) rows = Some (i, row).
Proof.
  intros Hrow Hsid Holdest. apply findOne_first; [exact Hrow|now apply Z.eqb_eq|].
  intros j r Hj Hr. apply Z.eqb_neq. now apply (Holdest j).
Qed.

(** What [findSession] returns is the row [findOne] gave it, not expired,
    with a user that is not UNVERIFIED. *)
Lemma findSession_Ok (w : World) (session timeout now : Z) (sess : instance Session.t) :
  fst (findSession session timeout now w) = Ok sess ->
  findOne (fun r => Session.session r =? session) (Sessions w) = Some sess /\
  getSecondsBetween (Session.createdAt (snd sess)) now <= timeout /\
  exists user : instance User.t,
    fst (getUser sess w) = Ok (Some user) /\ User.access (snd user) <> UNVERIFIED.
Proof.
  unfold findSession, then_, Session_findOne.
  destruct (findOne _ (Sessions w)) as [found|]; [|discriminate].
  destruct (Z.gtb_spec (getSecondsBetween (Session.createdAt (snd found)) now) timeout);
    [discriminate|].
  unfold getUser, User_findById.
  destruct (Session.UserId (snd found)) as [id|] eqn:Hid; [|discriminate].
  destruct (Users w !! id) as [user|] eqn:Hu; [|discriminate].
  destruct (Access_eqb (User.access (snd (id, user))) UNVERIFIED) eqn:Hacc; [discriminate|].
  cbn [resolve fst]. intros [= <-]. rewrite Hid, Hu.
  split; [reflexivity|]. split; [lia|]. exists (id, user). split; [reflexivity|].
  intros Heq. rewrite Heq in Hacc. discriminate.
Qed.

(** C9, as amended.  [findSession] never returns a stored session that
    has no user or whose user is UNVERIFIED.  When such a session is the
    oldest row stored under its id and is not expired, [findSession] on
    the id fails, with "Session is not attached to User" or with "Session
    belongs to UNVERIFIED User", and leaves the database as it was. *)
Theorem findSession_rejects_unverified
    (w : World) (session timeout now : Z) (i : nat) (row : Session.t) :
  Sessions w !! i = Some row ->
  Session.session row = session ->
  ((fst (getUser (i, row) w) = Ok None \/
    exists user : instance User.t,
      fst (getUser (i, row) w) = Ok (Some user) /\ User.access (snd user) = UNVERIFIED) ->
   fst (findSession session timeout now w) <> Ok (i, row)) /\
  ((forall (j : nat) (r : Session.t),
      (j < i)%nat -> Sessions w !! j = Some r -> Session.session r <> session) ->
   getSecondsBetween (Session.createdAt row) now <= timeout ->
   (fst (getUser (i, row) w) = Ok None ->
    findSession session timeout now w
    = (Throw (Error "Session is not attached to User"), w)) /\
   (forall user : instance User.t,
      fst (getUser (i, row) w) = Ok (Some user) ->
      User.access (snd user) = UNVERIFIED ->
      findSession session timeout now w
      = (Throw (Error "Session belongs to UNVERIFIED User"), w))).
Proof.
  intros Hrow Hsid. split.
  - intros Hbad Hret. apply findSession_Ok in Hret as (_ & _ & user & Huser & Hacc).
    destruct Hbad as [Hnone|(user' & Huser' & Hunv)]; [congruence|].
    rewrite Huser in Huser'. injection Huser' as <-. contradiction.
  - intros Holdest Hfresh.
    pose proof (oldest_is_found _ _ _ _ Hrow Hsid Holdest) as Hfound.
    unfold findSession, then_, Session_findOne. rewrite Hfound. cbn [snd].
    destruct (Z.gtb_spec (getSecondsBetween (Session.createdAt row) now) timeout); [lia|].
    unfold getUser, User_findById in *. cbn [fst snd] in *. split.
    + intros [= ->]. reflexivity.
    + intros user [= ->] ->. reflexivity.
Qed.

(** C7, as amended.  [findSession] never returns a stored session when
    the whole seconds between its creation and now exceed the timeout.
    For the oldest row stored under its id, [findSession] on the id fails
    with "Session has expired" when those seconds exceed the timeout,
    whoever its user is; and when its user is attached and not UNVERIFIED,
    [findSession] returns that session exactly when those seconds are at
    most the timeout, the boundary included. *)
Theorem findSession_within_ttl
    (w : World) (session timeout now : Z) (i : nat) (row : Session.t) :
  Sessions w !! i = Some row ->
  Session.session row = session ->
  let diff := getSecondsBetween (Session.createdAt row) now in
  (timeout < diff -> fst (findSession session timeout now w) <> Ok (i, row)) /\
  ((forall (j : nat) (r : Session.t),
      (j < i)%nat -> Sessions w !! j = Some r -> Session.session r <> session) ->
   (timeout < diff ->
    findSession session timeout now w = (Throw (Error "Session has expired"), w)) /\
   (forall user : instance User.t,
      fst (getUser (i, row) w) = Ok (Some user) ->
      User.access (snd user) <> UNVERIFIED ->
      (fst (findSession session timeout now w) = Ok (i, row) <-> diff <= timeout))).
Proof.
  intros Hrow Hsid diff. subst diff. split.
  - intros Hold Hret. apply findSession_Ok in Hret as (_ & Hfresh & _).
    cbn [snd] in Hfresh. lia.
  - intros Holdest.
    pose proof (oldest_is_found _ _ _ _ Hrow Hsid Holdest) as Hfound.
    unfold findSession, then_, Session_findOne. rewrite Hfound. cbn [snd].
    destruct (Z.gtb_spec (getSecondsBetween (Session.createdAt row) now) timeout).
    + split; [reflexivity|]. intros user _ _. cbn [fst reject]. split; [discriminate|lia].
    + split; [lia|]. intros user Huser Hacc.
      unfold getUser, User_findById in *. cbn [fst snd] in *. injection Huser as ->.
      destruct (User.access (snd user)); try congruence; cbn [Access_eqb resolve fst];
        split; (reflexivity || lia).
Qed.

(** ** The ephemeral is written once *)

Lemma setEphemeral_unfold (sid : Z) (e k : Buffer) (w : World) :
  setEphemeral sid e k w =
  match findOne (unset_session sid) (Sessions w) with
  | None => (Throw (Error "Session not found"), w)
  | Some sess => Session_update sess e k w
  end.
Proof.
  unfold setEphemeral, then_, Session_findOne, reject.
  now destruct (findOne _ _).
Qed.

(** A row that holds an ephemeral or a secret is never written again. *)
Lemma setEphemeral_keeps_written (w : World) (sid : Z) (e k : Buffer)
    (i : nat) (row : Session.t) :
  Sessions w !! i = Some row ->
  is_Some_b (Session.ephemeral row) || is_Some_b (Session.secret row) = true ->
  Sessions (snd (setEphemeral sid e k w)) !! i = Some row.
Proof.
  intros Hrow Hset. rewrite setEphemeral_unfold.
  destruct (findOne (unset_session sid) (Sessions w)) as [[j r]|] eqn:Hf; [|exact Hrow].
  apply findOne_Some in Hf as (Hj & HP & _).
  cbn [Session_update Session_save snd fst Sessions].
  destruct (decide (j = i)) as [->|Hne].
  - rewrite Hrow in Hj. injection Hj as ->. unfold unset_session in HP.
    destruct (Session.ephemeral r), (Session.secret r);
      cbn in Hset, HP; rewrite ?andb_false_r in HP; discriminate.
  - rewrite list_lookup_insert_ne by exact Hne. exact Hrow.
Qed.



(** ** Drawing a session id *)

Lemma draw_uint32 (w : World) : 0 <= le_value (draw 4 w) < 2 ^ 32.
Proof.
  unfold draw. cbn [seq map le_value].
  pose proof (Z.mod_pos_bound (entropy w 0%nat) 256).
  pose proof (Z.mod_pos_bound (entropy w 1%nat) 256).
  pose proof (Z.mod_pos_bound (entropy w 2%nat) 256).
  pose proof (Z.mod_pos_bound (entropy w 3%nat) 256).
  change (2 ^ 32) with 4294967296. lia.
Qed.

Lemma read_le_whole n (bs : list Z) : length bs = n -> read_le n bs 0 = Ok (le_value bs).
Proof.
  intros Hn. pose proof (read_le_head n bs [] Hn) as E. now rewrite app_nil_r in E.
Qed.

Section DBConn_facts.
Context `{Env}.

Lemma findUser_world (username : jsstring) (w : World) : snd (findUser username w) = w.
Proof.
  unfold findUser, then_, User_findOne.
  now destruct (findOne _ _).
Qed.

(** C5, as amended.  [newSession] draws four random bytes, reads them as
    an unsigned 32-bit little-endian number and stores a new row under
    that id whatever the sessions already stored: for every database and
    every known user, the id of the new row is the draw, it lies in
    [0, 2^32), and the row is appended, attached to the user, with no
    ephemeral and no secret.  Nothing is drawn again. *)
Theorem newSession_keeps_the_draw
    (w : World) (username : jsstring) (now : Z) (user : instance User.t) :
  fst (findUser username w) = Ok user ->
  let sessionID := le_value (draw 4 w) in
  let row := Session.mk sessionID None None now (Some (fst user)) in
  0 <= sessionID < 2 ^ 32 /\
  fst (newSession username now w) = Ok (length (Sessions w), row) /\
  Sessions (snd (newSession username now w)) = Sessions w ++ [row].
Proof.
  intros Huser sessionID row. split; [apply draw_uint32|].
  pose proof (findUser_world username w) as Hw.
  unfold newSession, then_, Promise_all.
  destruct (findUser username w) as [r w1]. cbn [fst snd] in *. subst r w1.
  unfold randomBytes, of_result, Session_create, readUInt32LE. cbn [Sessions].
  rewrite read_le_whole by reflexivity.
  cbn [setUser Session_save fst snd Sessions Session.session Session.ephemeral
         Session.secret Session.createdAt].
  split; [reflexivity|].
  now rewrite insert_app_r_alt, Nat.sub_diag by lia.
Qed.

(** ** Salt and verifier *)

Lemma addUser_Users (username password email : jsstring) (access : option Access)
    (w : World) :
  Users (snd (addUser username password email access w)) =
  Users w ++
  [User.mk (toLowerCase username) email
     (computeVerifier (params "2048") (draw 4 w)
        (Buffer_from_ascii (toLowerCase username)) (Buffer_from_ascii password))
     (draw 4 w) (default UNVERIFIED access)
     (if Access_eqb (default UNVERIFIED access) UNVERIFIED then false else true)].
Proof. reflexivity. Qed.

Lemma savePassword_Users (id : nat) (password : jsstring) (w : World) :
  Users (snd (savePassword id password w)) =
  match Users w !! id with
  | Some u =>
      <[id := User.mk (User.username u) (User.email u)
                (computeVerifier (params "2048") (draw 4 w)
                   (Buffer_from_ascii (toLowerCase (User.username u)))
                   (Buffer_from_ascii password))
                (draw 4 w) (User.access u) (User.active u)]> (Users w)
  | None => Users w
  end.
Proof.
  unfold savePassword, then_, User_findById. now destruct (Users w !! id).
Qed.

Lemma saveAccess_Users (id : nat) (level : Access) (w : World) :
  Users (snd (saveAccess id level w)) =
  match Users w !! id with
  | Some u =>
      <[id := User.mk (User.username u) (User.email u) (User.verifier u) (User.salt u)
                level (User.active u)]> (Users w)
  | None => Users w
  end.
Proof.
  unfold saveAccess, then_, User_findById. now destruct (Users w !! id).
Qed.

Lemma saveEmail_Users (id : nat) (email : jsstring) (w : World) :
  Users (snd (saveEmail id email w)) =
  match Users w !! id with
  | Some u =>
      <[id := User.mk (User.username u) email (User.verifier u) (User.salt u)
                (User.access u) (User.active u)]> (Users w)
  | None => Users w
  end.
Proof.
  unfold saveEmail, then_, User_findById. now destruct (Users w !! id).
Qed.

Lemma newSession_Users (username : jsstring) (now : Z) (w : World) :
  Users (snd (newSession username now w)) = Users w.
Proof.
  pose proof (findUser_world username w) as Hw.
  unfold newSession, then_, Promise_all.
  destruct (findUser username w) as [r w1]. cbn [snd] in Hw. subst w1.
  unfold randomBytes, of_result, Session_create, readUInt32LE.
  rewrite read_le_whole by reflexivity.
  now destruct r.
Qed.

Lemma findSession_world (session timeout now : Z) (w : World) :
  snd (findSession session timeout now w) = w.
Proof.
  unfold findSession, then_, Session_findOne, getUser, User_findById, reject, resolve.
  repeat (case_match; simplify_eq; cbn [snd]; try reflexivity).
Qed.

Lemma setEphemeral_Users (sid : Z) (e k : Buffer) (w : World) :
  Users (snd (setEphemeral sid e k w)) = Users w.
Proof. rewrite setEphemeral_unfold. now destruct (findOne _ _). Qed.

(** One step: a row keeps its salt and its verifier, or gets both anew. *)
Lemma exec_rewrites_jointly (o : op) (w : World) (i : nat) (u u' : User.t) :
  Users w !! i = Some u ->
  Users (exec o w) !! i = Some u' ->
  User.username u' = User.username u /\
  ((User.salt u' = User.salt u /\ User.verifier u' = User.verifier u) \/
   (User.salt u' = draw 4 w /\
    exists password : jsstring,
      User.verifier u' =
      computeVerifier (params "2048") (draw 4 w)
        (Buffer_from_ascii (toLowerCase (User.username u')))
        (Buffer_from_ascii password))).
Proof.
  intros Hu. assert (Hi : (i < length (Users w))%nat) by (eapply lookup_lt_Some; exact Hu).
  destruct o as [username password email access|id password|id level|id email
                |username now|session timeout now|session ephemeral secret];
    cbn [exec].
  - rewrite addUser_Users, lookup_app_l, Hu by exact Hi. intros [= <-]. auto.
  - rewrite savePassword_Users.
    destruct (Users w !! id) as [v|] eqn:Hv; [|rewrite Hu; intros [= <-]; auto].
    destruct (decide (id = i)) as [->|Hne].
    + rewrite list_lookup_insert_eq by exact Hi. intros [= <-]. cbn.
      rewrite Hu in Hv. injection Hv as <-. split; [reflexivity|]. right.
      split; [reflexivity|]. now exists password.
    + rewrite list_lookup_insert_ne, Hu by exact Hne. intros [= <-]. auto.
  - rewrite saveAccess_Users.
    destruct (Users w !! id) as [v|] eqn:Hv; [|rewrite Hu; intros [= <-]; auto].
    destruct (decide (id = i)) as [->|Hne].
    + rewrite list_lookup_insert_eq by exact Hi. intros [= <-]. cbn.
      rewrite Hu in Hv. injection Hv as <-. auto.
    + rewrite list_lookup_insert_ne, Hu by exact Hne. intros [= <-]. auto.
  - rewrite saveEmail_Users.
    destruct (Users w !! id) as [v|] eqn:Hv; [|rewrite Hu; intros [= <-]; auto].
    destruct (decide (id = i)) as [->|Hne].
    + rewrite list_lookup_insert_eq by exact Hi. intros [= <-]. cbn.
      rewrite Hu in Hv. injection Hv as <-. auto.
    + rewrite list_lookup_insert_ne, Hu by exact Hne. intros [= <-]. auto.
  - rewrite newSession_Users, Hu. intros [= <-]. auto.
  - rewrite findSession_world, Hu. intros [= <-]. auto.
  - rewrite setEphemeral_Users, Hu. intros [= <-]. auto.
Qed.

Lemma reachable_consistent (w : World) : reachable w -> Forall consistent (Users w).
Proof.
  induction 1 as [entropy|o w Hw IH]; [constructor|].
  apply Forall_lookup_2. intros i u' Hu'.
  destruct (Users w !! i) as [u|] eqn:Hu.
  - destruct (exec_rewrites_jointly o w i u u' Hu Hu') as (Hname & [[Hs Hv]|[Hs Hv]]).
    + pose proof (Forall_lookup_1 _ _ _ _ IH Hu) as [Hlen [pw Hpw]].
      split; [now rewrite Hs|]. exists pw. now rewrite Hs, Hv, Hname.
    + split; [now rewrite Hs|]. now rewrite Hs.
  - apply lookup_ge_None in Hu.
    destruct o as [username password email access|id password|id level|id email
                  |username now|session timeout now|session ephemeral secret];
      cbn [exec] in Hu'.
    + rewrite addUser_Users in Hu'.
      rewrite lookup_app_r in Hu' by exact Hu.
      destruct (i - length (Users w))%nat; [|discriminate].
      injection Hu' as <-. split; [reflexivity|].
      exists password. cbn. now rewrite toLowerCase_idem.
    + rewrite savePassword_Users in Hu'.
      destruct (Users w !! id); apply lookup_lt_Some in Hu';
        rewrite ?length_insert in Hu'; lia.
    + rewrite saveAccess_Users in Hu'.
      destruct (Users w !! id); apply lookup_lt_Some in Hu';
        rewrite ?length_insert in Hu'; lia.
    + rewrite saveEmail_Users in Hu'.
      destruct (Users w !! id); apply lookup_lt_Some in Hu';
        rewrite ?length_insert in Hu'; lia.
    + rewrite newSession_Users in Hu'. apply lookup_ge_None in Hu. congruence.
    + rewrite findSession_world in Hu'. apply lookup_ge_None in Hu. congruence.
    + rewrite setEphemeral_Users in Hu'. apply lookup_ge_None in Hu. congruence.
Qed.

(** The operations that do not write a password to row [i] leave its salt
    and its verifier as they were. *)
Lemma exec_keeps_salt (o : op) (w : World) (i : nat) (u u' : User.t) :
  (forall password : jsstring, o <> SavePassword i password) ->
  Users w !! i = Some u ->
  Users (exec o w) !! i = Some u' ->
  User.salt u' = User.salt u /\ User.verifier u' = User.verifier u.
Proof.
  intros Hother Hu Hu'.
  destruct (exec_rewrites_jointly o w i u u' Hu Hu') as (_ & [Hkeep|_]); [exact Hkeep|].
  assert (Hi : (i < length (Users w))%nat) by (eapply lookup_lt_Some; exact Hu).
  destruct o as [username password email access|id password|id level|id email
                |username now|session timeout now|session ephemeral secret];
    cbn [exec] in Hu'.
  - rewrite addUser_Users, lookup_app_l, Hu in Hu' by exact Hi. now injection Hu' as <-.
  - rewrite savePassword_Users in Hu'.
    destruct (Users w !! id) as [v|] eqn:Hv;
      [|rewrite Hu in Hu'; now injection Hu' as <-].
    destruct (decide (id = i)) as [->|Hne]; [now destruct (Hother password)|].
    rewrite list_lookup_insert_ne, Hu in Hu' by exact Hne. now injection Hu' as <-.
  - rewrite saveAccess_Users in Hu'.
    destruct (Users w !! id) as [v|] eqn:Hv;
      [|rewrite Hu in Hu'; now injection Hu' as <-].
    destruct (decide (id = i)) as [->|Hne].
    + rewrite list_lookup_insert_eq in Hu' by exact Hi. injection Hu' as <-.
      rewrite Hu in Hv. now injection Hv as <-.
    + rewrite list_lookup_insert_ne, Hu in Hu' by exact Hne. now injection Hu' as <-.
  - rewrite saveEmail_Users in Hu'.
    destruct (Users w !! id) as [v|] eqn:Hv;
      [|rewrite Hu in Hu'; now injection Hu' as <-].
    destruct (decide (id = i)) as [->|Hne].
    + rewrite list_lookup_insert_eq in Hu' by exact Hi. injection Hu' as <-.
      rewrite Hu in Hv. now injection Hv as <-.
    + rewrite list_lookup_insert_ne, Hu in Hu' by exact Hne. now injection Hu' as <-.
  - rewrite newSession_Users, Hu in Hu'. now injection Hu' as <-.
  - rewrite findSession_world, Hu in Hu'. now injection Hu' as <-.
  - rewrite setEphemeral_Users, Hu in Hu'. now injection Hu' as <-.
Qed.

(** C8.  In every database that the operations produce, each user row is
    consistent: its salt has exactly four bytes and its verifier is
    derived from that salt and the lowered username.  [setPassword] gives
    the instance four fresh random bytes as its salt and the verifier of
    the password under them; saving a password to a stored user writes
    exactly that salt and that verifier to its row, and [addUser] stores
    the new row with both.  Every other operation leaves the salt and the
    verifier of a row as they were, so that over any operation a row keeps
    both or gets both anew. *)
Theorem salt_and_verifier_set_jointly (w : World) (o : op) :
  reachable w ->
  Forall consistent (Users w) /\
  (forall (i : nat) (u u' : User.t),
     Users w !! i = Some u ->
     Users (exec o w) !! i = Some u' ->
     (User.salt u' = User.salt u /\ User.verifier u' = User.verifier u) \/
     (User.salt u' = draw 4 w /\ length (User.salt u') = 4%nat /\
      exists password : jsstring,
        User.verifier u' =
        computeVerifier (params "2048") (User.salt u')
          (Buffer_from_ascii (toLowerCase (User.username u')))
          (Buffer_from_ascii password))) /\
  (forall (this : User.t) (password : jsstring),
     fst (setPassword this password w)
     = Ok (User.mk (User.username this) (User.email this)
             (computeVerifier (params "2048") (draw 4 w)
                (Buffer_from_ascii (toLowerCase (User.username this)))
                (Buffer_from_ascii password))
             (draw 4 w) (User.access this) (User.active this)) /\
     length (draw 4 w) = 4%nat) /\
  (forall (id : nat) (password : jsstring) (u : User.t),
     o = SavePassword id password ->
     Users w !! id = Some u ->
     Users (exec o w) !! id
     = Some (User.mk (User.username u) (User.email u)
               (computeVerifier (params "2048") (draw 4 w)
                  (Buffer_from_ascii (toLowerCase (User.username u)))
                  (Buffer_from_ascii password))
               (draw 4 w) (User.access u) (User.active u))) /\
  (forall (username password email : jsstring) (access : option Access),
     o = AddUser username password email access ->
     exists u' : User.t,
       Users (exec o w) !! length (Users w) = Some u' /\
       User.salt u' = draw 4 w /\
       User.verifier u' =
       computeVerifier (params "2048") (draw 4 w)
         (Buffer_from_ascii (toLowerCase (User.username u')))
         (Buffer_from_ascii password)) /\
  (forall (i : nat) (u u' : User.t),
     (forall password : jsstring, o <> SavePassword i password) ->
     Users w !! i = Some u ->
     Users (exec o w) !! i = Some u' ->
     User.salt u' = User.salt u /\ User.verifier u' = User.verifier u).
Proof.
  intros Hw. split; [now apply reachable_consistent|]. split; [|split; [|split; [|split]]].
  - intros i u u' Hu Hu'.
    destruct (exec_rewrites_jointly o w i u u' Hu Hu') as (_ & [Hkeep|[Hs Hv]]);
      [now left|right].
    rewrite Hs. auto.
  - intros this password. split; reflexivity.
  - intros id password u -> Hu. cbn [exec]. rewrite savePassword_Users, Hu.
    apply list_lookup_insert_eq. eapply lookup_lt_Some. exact Hu.
  - intros username password email access ->. cbn [exec]. rewrite addUser_Users.
    eexists. split; [now rewrite lookup_app_r, Nat.sub_diag by lia|].
    cbn [User.salt User.verifier User.username]. split; [reflexivity|].
    now rewrite toLowerCase_idem.
  - intros i u u'. apply exec_keeps_salt.
Qed.

End DBConn_facts.

(** ** The codec on all six kinds *)

(** Codec round trip: a well-formed packet of any of the six kinds is
    returned by [unmarshall] from the bytes [marshall] produced, provided
    that an AUTH_PROOF proof is shorter than 0x8000 bytes. *)
Theorem marshall_unmarshall_roundtrip (p : packet) :
  well_formed p = true ->
  (forall q : authProof.t, p = PAuthProof q -> blength (authProof.proof q) < 32768) ->
  (do b <- marshall p; unmarshall (kind_of p) b) = Ok p.
Proof.
  intros Hwf Hshort.
  destruct p as [p|p|p|p|p|p]; cbn [marshall kind_of unmarshall].
  - pose proof (serverNegotiate_roundtrip p Hwf) as R.
    destruct (serverNegotiate.marshall p); cbn [result_bind] in *; [|discriminate].
    now rewrite R.
  - pose proof (authNegotiate_roundtrip p Hwf) as R.
    destruct (authNegotiate.marshall p); cbn [result_bind] in *; [|discriminate].
    now rewrite R.
  - pose proof (serverEphemeral_roundtrip p Hwf) as R.
    destruct (serverEphemeral.marshall p); cbn [result_bind] in *; [|discriminate].
    now rewrite R.
  - pose proof (authEphemeral_roundtrip p Hwf) as R.
    destruct (authEphemeral.marshall p); cbn [result_bind] in *; [|discriminate].
    now rewrite R.
  - pose proof (serverProof_roundtrip p Hwf) as R.
    destruct (serverProof.marshall p); cbn [result_bind] in *; [|discriminate].
    now rewrite R.
  - pose proof (authProof_roundtrip_short p Hwf (Hshort p eq_refl)) as R.
    destruct (authProof.marshall p); cbn [result_bind] in *; [|discriminate].
    now rewrite R.
Qed.

(** C1. The round trip does not hold for every AUTH_PROOF value: when the
    proof of a well-formed AUTH_PROOF packet has 0x8000 bytes or more,
    [marshall] writes its length as an unsigned 16-bit number, and
    [unmarshall], which reads it back with [readInt16LE], gets a negative
    length and throws a [RangeError] from [Buffer.alloc] instead of
    returning the packet.  Every other well-formed packet comes back
    ([marshall_unmarshall_roundtrip]). *)
Theorem authProof_roundtrip_breaks (p : authProof.t) :
  well_formed (PAuthProof p) = true ->
  32768 <= blength (authProof.proof p) ->
  (do b <- marshall (PAuthProof p); unmarshall AuthProof b) = Throw RangeError.
Proof.
  intros Hwf Hlong. cbn [marshall unmarshall].
  pose proof (authProof_roundtrip_long p Hwf Hlong) as R.
  destruct (authProof.marshall p); cbn [result_bind] in *; [now rewrite R|].
  now injection R as ->.
Qed.

Lemma authProof_roundtrip_breaks_witness :
  well_formed (PAuthProof long_proof) = true /\
  (do b <- marshall (PAuthProof long_proof); unmarshall AuthProof b) = Throw RangeError.
Proof.
  assert (Hwf : well_formed (PAuthProof long_proof) = true).
  { unfold well_formed, long_proof, blength. cbn [authProof.session authProof.proof].
    rewrite length_replicate, Z2Nat.id by lia. reflexivity. }
  split; [exact Hwf|].
  apply (authProof_roundtrip_breaks long_proof Hwf).
  unfold long_proof, blength. cbn [authProof.proof]. rewrite length_replicate. lia.
Defined.

Lemma list_inserts_replicate (k : list Z) (n : nat) :
  (length k <= n)%nat ->
  list_inserts 0 k (replicate n 0) = k ++ replicate (n - length k) 0.
Proof.
  intros Hk. replace n with (length k + (n - length k))%nat at 1 by lia.
  rewrite replicate_add. apply list_inserts_0_r. now rewrite length_replicate.
Qed.

(** What SERVER_EPHEMERAL decodes to: the announced number of bytes, taken
    from offset 10 as far as the buffer goes, and zero after that. *)
Lemma serverEphemeral_unmarshall_pads (buf : Buffer) (p : serverEphemeral.t) :
  serverEphemeral.unmarshall buf = Ok p ->
  exists n : Z,
    length_field buf = Ok n /\
    blength (serverEphemeral.ephemeral p) = n /\
    serverEphemeral.ephemeral p
    = take (Z.to_nat n) (drop 10 buf)
      ++ replicate (Z.to_nat n - length (drop 10 buf)) 0.
Proof.
  unfold serverEphemeral.unmarshall, length_field.
  destruct (readUInt32LE buf 0) as [magic|]; [|discriminate]. cbn [result_bind].
  destruct (negb (magic =? SERVER_EPHEMERAL)); [discriminate|].
  destruct (readUInt16LE buf 8) as [n|]; [|discriminate]. cbn [result_bind].
  unfold alloc. destruct (Z.ltb_spec n 0); [discriminate|]. cbn [result_bind].
  destruct (copy buf (replicate (Z.to_nat n) 0) 0 10 (10 + n)) as [e|] eqn:Hcopy;
    [|discriminate].
  cbn [result_bind].
  destruct (readUInt32LE buf 4) as [s|]; [|discriminate]. cbn [result_bind].
  intros [= <-]. cbn [serverEphemeral.ephemeral]. exists n. split; [reflexivity|].
  assert (He : e = take (Z.to_nat n) (drop 10 buf)
                   ++ replicate (Z.to_nat n - length (drop 10 buf)) 0).
  { unfold copy in Hcopy.
    destruct (0 <? 0); [discriminate|].
    destruct ((10 <? 0) || (blength buf <? 10)); [discriminate|].
    destruct (10 + n <? 0); [discriminate|].
    unfold blength in Hcopy. rewrite length_replicate in Hcopy.
    destruct (Z.leb_spec (Z.of_nat (Z.to_nat n)) 0) as [Hz|Hz]; cbn [orb] in Hcopy.
    - injection Hcopy as <-. now replace (Z.to_nat n) with 0%nat by lia.
    - destruct (Z.leb_spec (10 + n) 10); [lia|]. injection Hcopy as <-.
      replace (Z.to_nat (10 + n - 10)) with (Z.to_nat n) by lia.
      change (Z.to_nat 10) with 10%nat. change (Z.to_nat 0) with 0%nat.
      rewrite list_inserts_replicate by (rewrite length_take; lia).
      rewrite length_take. f_equal. f_equal. lia. }
  split; [|exact He].
  rewrite He. unfold blength. rewrite length_app, length_take, length_replicate. lia.
Qed.

Lemma unmarshall_throws_on_malformed_witness :
  is_buffer [1; 2; 3] = true /\
  malformed ServerEphemeral [1; 2; 3] = true /\
  throws (unmarshall ServerEphemeral [1; 2; 3]).
Proof.
  split; [reflexivity|]. split; [reflexivity|].
  apply (unmarshall_throws_on_malformed ServerEphemeral [1; 2; 3]); reflexivity.
Defined.

(** Five bytes announced, one present. *)
Lemma serverEphemeral_length_beyond_buffer :
  let buf := [0x02; 0xCA; 0x03; 0xD0; 7; 0; 0; 0; 5; 0; 9] in
  is_buffer buf = true /\
  length_field buf = Ok 5 /\
  blength buf - 10 = 1 /\
  serverEphemeral.unmarshall buf = Ok (serverEphemeral.mk 7 [9; 0; 0; 0; 0]).
Proof. repeat split. Qed.

Lemma authProof_unmarshall_reads_signed_length_witness :
  readUInt32LE wire_0x8000 0 = Ok AUTH_PROOF /\
  length_field wire_0x8000 = Ok 32768 /\
  authProof.unmarshall wire_0x8000 = Throw RangeError.
Proof.
  split; [reflexivity|]. split; [reflexivity|].
  apply (authProof_unmarshall_reads_signed_length wire_0x8000 32768);
    [reflexivity|reflexivity|lia].
Defined.

Lemma serverNegotiate_unmarshall_layout_witness :
  serverNegotiate.unmarshall (alice_v1 ++ [0])
  = Ok (serverNegotiate.mk 0x63696c61 (js "e") 1) /\
  readUInt32LE (alice_v1 ++ [0]) 5 = Ok 0x63696c61 /\
  readString (alice_v1 ++ [0]) 9 = Ok (js "e").
Proof.
  assert (E : serverNegotiate.unmarshall (alice_v1 ++ [0])
              = Ok (serverNegotiate.mk 0x63696c61 (js "e") 1)) by reflexivity.
  split; [exact E|].
  destruct (serverNegotiate_unmarshall_layout _ _ E) as (_ & _ & Hcs & Hname).
  split; [exact Hcs|exact Hname].
Defined.

(** A version 1 packet for "alice", as the version 1 codec writes it. *)
Lemma serverNegotiate_v1_buffer_misread :
  V1.serverNegotiate.marshall (V1.serverNegotiate.mk (js "alice")) = Ok alice_v1 /\
  readUInt8 alice_v1 4 = Ok 1 /\
  readString alice_v1 5 = Ok (js "alice") /\
  V1.serverNegotiate.unmarshall alice_v1 = Ok (V1.serverNegotiate.mk (js "alice")) /\
  serverNegotiate.unmarshall alice_v1 = Ok (serverNegotiate.mk 0x63696c61 (js "e") 1).
Proof. repeat split. Qed.

Lemma error_kinds_share_magic_witness :
  ERROR_USER = ERROR_CLIENTSESSION /\
  (exists buf, userError.marshall (userError.mk 1 (js "mallory")) = Ok buf /\
     throwsb (clientSessionError.unmarshall buf) = false) /\
  (exists buf, clientSessionError.marshall (clientSessionError.mk 0x11003344 1) = Ok buf /\
     blength buf = 9 /\ throwsb (userError.unmarshall buf) = false).
Proof.
  exact (error_kinds_share_magic (userError.mk 1 (js "mallory"))
           (clientSessionError.mk 0x11003344 1) eq_refl eq_refl eq_refl).
Defined.

Lemma userError_not_always_accepted :
  (do buf <- userError.marshall (userError.mk 1 (js "ab"));
   clientSessionError.unmarshall buf) = Throw RangeError /\
  (do buf <- clientSessionError.marshall (clientSessionError.mk 0x11223344 1);
   userError.unmarshall buf)
  = Throw (TypeError "Null-terminator not found in buffer").
Proof. split; reflexivity. Qed.

Lemma newSession_keeps_the_draw_witness :
  fst (@findUser example_env (js "alice") w_alice) = Ok (0%nat, alice_row) /\
  fst (@newSession example_env (js "alice") 1000 w_alice) = Ok (0%nat, first_session) /\
  Sessions (snd (@newSession example_env (js "alice") 1000 w_alice)) = [first_session].
Proof.
  split; [reflexivity|].
  exact (proj2 (@newSession_keeps_the_draw example_env w_alice (js "alice") 1000
                  (0%nat, alice_row) eq_refl)).
Defined.

(** Two draws of the same four bytes: two live sessions with one id. *)
Lemma newSession_collision :
  @reachable example_env w_two /\
  Sessions w_two = [first_session; second_session] /\
  Session.session first_session = Session.session second_session /\
  getSecondsBetween (Session.createdAt first_session) 2000 <= 30 /\
  getSecondsBetween (Session.createdAt second_session) 2000 <= 30.
Proof.
  split; [repeat apply (@reachable_exec example_env); apply (@reachable_empty example_env)|].
  repeat split; vm_compute; discriminate.
Qed.


(** A session of age zero whose user has been set to UNVERIFIED. *)
Lemma findSession_fresh_but_rejected :
  @reachable example_env w_demoted /\
  Sessions w_demoted = [first_session] /\
  getSecondsBetween (Session.createdAt first_session) 1000 = 0 /\
  findSession 117901063 30 1000 w_demoted
  = (Throw (Error "Session belongs to UNVERIFIED User"), w_demoted).
Proof.
  split; [repeat apply (@reachable_exec example_env); apply (@reachable_empty example_env)|].
  repeat split.
Qed.

(** ** What the buffer operations keep *)

Lemma blength_replicate (n : nat) (x : Z) : blength (replicate n x) = Z.of_nat n.
Proof. unfold blength. now rewrite length_replicate. Qed.

Lemma blength_inserts (i : nat) (k l : list Z) : blength (list_inserts i k l) = blength l.
Proof. unfold blength. now rewrite length_inserts. Qed.

Lemma alloc_Ok (n : Z) :
  0 <= n -> exists buf, alloc n = Ok buf /\ blength buf = n.
Proof.
  intros Hn. unfold alloc. destruct (Z.ltb_spec n 0); [lia|].
  eexists. split; [reflexivity|]. rewrite blength_replicate. lia.
Qed.

Lemma alloc_negative (n : Z) : n < 0 -> alloc n = Throw RangeError.
Proof. intros Hn. unfold alloc. now destruct (Z.ltb_spec n 0); [|lia]. Qed.

Lemma write_le_Ok (n : nat) (buf : Buffer) (v off : Z) :
  0 <= v < 2 ^ (8 * Z.of_nat n) -> 0 <= off -> off + Z.of_nat n <= blength buf ->
  exists buf', write_le n buf v off = Ok buf' /\ blength buf' = blength buf.
Proof.
  intros Hv Hoff Hlen. unfold write_le. guards.
  eexists. split; [reflexivity|apply blength_inserts].
Qed.

Lemma write_le_range (n : nat) (buf : Buffer) (v off : Z) :
  ~ 0 <= v < 2 ^ (8 * Z.of_nat n) -> write_le n buf v off = Throw RangeError.
Proof. intros Hv. unfold write_le. guards; reflexivity. Qed.

Lemma write_le_length (n : nat) (buf buf' : Buffer) (v off : Z) :
  write_le n buf v off = Ok buf' -> blength buf' = blength buf.
Proof.
  unfold write_le.
  destruct ((v <? 0) || (2 ^ (8 * Z.of_nat n) <=? v)); [discriminate|].
  destruct ((off <? 0) || (blength buf <? off + Z.of_nat n)); [discriminate|].
  intros [= <-]. apply blength_inserts.
Qed.

Lemma copy_length (source target target' : Buffer) (ts ss se : Z) :
  copy source target ts ss se = Ok target' -> blength target' = blength target.
Proof.
  unfold copy.
  repeat match goal with
         | |- (if ?c then _ else _) = _ -> _ => destruct c; [try discriminate|]
         end;
    intros [= <-]; [reflexivity|apply blength_inserts].
Qed.

Lemma copy_all_Ok (source target : Buffer) (off : Z) :
  0 <= off -> exists target', copy_all source target off = Ok target' /\
                              blength target' = blength target.
Proof.
  intros Hoff. unfold copy_all, copy.
  pose proof (blength_nonneg source).
  destruct (Z.ltb_spec off 0); [lia|].
  destruct (Z.ltb_spec 0 0); [lia|].
  destruct (Z.ltb_spec (blength source) 0); [lia|]. cbn [orb].
  destruct ((blength target <=? off) || (blength source <=? 0));
    eexists; (split; [reflexivity|]); [reflexivity|apply blength_inserts].
Qed.

Lemma writeString_length (buf buf' : Buffer) (str : jsstring) (off : Z) :
  writeString buf str off = Ok buf' -> blength buf' = blength buf.
Proof.
  unfold writeString, copy_all, writeUInt8.
  destruct (copy _ buf off 0 _) as [b|] eqn:Hc; [|discriminate]. cbn [result_bind].
  intros Hw. apply write_le_length in Hw. apply copy_length in Hc. congruence.
Qed.

Lemma writeString_Ok (buf : Buffer) (str : jsstring) (off : Z) :
  0 <= off -> off + blength str + 1 <= blength buf ->
  exists buf', writeString buf str off = Ok buf' /\ blength buf' = blength buf.
Proof.
  intros Hoff Hlen. unfold writeString.
  destruct (copy_all_Ok (Buffer_from_ascii str) buf off Hoff) as (b & -> & Hb).
  cbn [result_bind]. unfold writeUInt8.
  assert (Hs : blength (Buffer_from_ascii str) = blength str)
    by (unfold blength; now rewrite length_Buffer_from_ascii).
  pose proof (blength_nonneg str).
  destruct (write_le_Ok 1 b 0 (off + blength (Buffer_from_ascii str)))
    as (b' & -> & Hb'); [simpl; lia|lia|simpl; lia|].
  exists b'. split; [reflexivity|congruence].
Qed.

(** ** The size of an encoded packet *)

Ltac sized_step :=
  match goal with
  | |- result_bind (alloc ?n) _ = Ok _ -> _ =>
      let E := fresh "E" in
      destruct (alloc n) as [?|] eqn:E; [|discriminate];
      cbn [result_bind];
      unfold alloc in E;
      destruct (Z.ltb_spec n 0); [discriminate|];
      injection E as <-
  | |- result_bind (write_le ?n ?b ?v ?o) _ = Ok _ -> _ =>
      let E := fresh "E" in
      destruct (write_le n b v o) as [?|] eqn:E; [|discriminate];
      cbn [result_bind]; apply write_le_length in E
  | |- result_bind (copy_all ?s ?b ?o) _ = Ok _ -> _ =>
      let E := fresh "E" in
      destruct (copy_all s b o) as [?|] eqn:E; [|discriminate];
      cbn [result_bind]; apply copy_length in E
  | |- result_bind (writeString ?b ?s ?o) _ = Ok _ -> _ =>
      let E := fresh "E" in
      destruct (writeString b s o) as [?|] eqn:E; [|discriminate];
      cbn [result_bind]; apply writeString_length in E
  end.

(** X1.  The buffer an encoder returns has exactly the size it was
    allocated with, which the packet alone determines: the fixed-size
    fields, the bytes of the salt, ephemeral or proof, and the username
    with its NUL.  No write extends the buffer. *)
Theorem marshall_wire_size (p : packet) (buf : Buffer) :
  marshall p = Ok buf -> blength buf = wire_size p.
Proof.
  destruct p as [p|p|p|p|p|p]; cbn [marshall wire_size];
    unfold serverNegotiate.marshall, authNegotiate.marshall, serverEphemeral.marshall,
      authEphemeral.marshall, serverProof.marshall, authProof.marshall,
      writeUInt32LE, writeUInt16LE, writeUInt8, byteLength_ascii;
    repeat sized_step; intros [= <-];
    repeat match goal with
           | H : blength _ = blength _ |- _ => rewrite H; clear H
           end;
    rewrite blength_replicate; apply Z2Nat.id; assumption.
Qed.

(** ** When an encoder fails *)

Lemma is_uint_true bits v : is_uint bits v = true -> 0 <= v < 2 ^ bits.
Proof. apply uint_bounds. Qed.

Lemma is_uint_false bits v : is_uint bits v = false -> ~ 0 <= v < 2 ^ bits.
Proof.
  unfold is_uint. intros H Hv.
  destruct (Z.leb_spec 0 v); [|lia]. destruct (Z.ltb_spec v (2 ^ bits)); [discriminate|lia].
Qed.

Ltac pow_norm :=
  change (2 ^ (8 * Z.of_nat 1)) with 256 in *;
  change (2 ^ (8 * Z.of_nat 2)) with 65536 in *;
  change (2 ^ (8 * Z.of_nat 4)) with 4294967296 in *;
  change (2 ^ 8) with 256 in *;
  change (2 ^ 32) with 4294967296 in *.

Ltac enc_step :=
  match goal with
  | |- context [alloc ?n] =>
      let b := fresh "b" in let Hb := fresh "Hb" in
      destruct (alloc_Ok n) as (b & -> & Hb); [lia|]; cbn [result_bind]
  | |- context [write_le ?n ?b ?v ?o] =>
      first
        [ let b' := fresh "b" in let Hb := fresh "Hb" in
          destruct (write_le_Ok n b v o) as (b' & -> & Hb);
          [pow_norm; lia|lia|lia|]; cbn [result_bind]
        | rewrite (write_le_range n b v o) by (pow_norm; lia); cbn [result_bind] ]
  | |- context [copy_all ?s ?b ?o] =>
      let b' := fresh "b" in let Hb := fresh "Hb" in
      destruct (copy_all_Ok s b o) as (b' & -> & Hb); [lia|]; cbn [result_bind]
  | |- context [writeString ?b ?s ?o] =>
      let b' := fresh "b" in let Hb := fresh "Hb" in
      destruct (writeString_Ok b s o) as (b' & -> & Hb); [lia|lia|]; cbn [result_bind]
  end.

Ltac enc_cases :=
  repeat match goal with
    | H : _ && _ = true |- _ => apply andb_prop in H as [? ?]
    | H : _ && _ = false |- _ => apply andb_false_iff in H as [?|?]
    | H : is_uint _ _ = true |- _ => apply is_uint_true in H
    | H : is_uint _ _ = false |- _ => apply is_uint_false in H
    | H : (_ <? _) = true |- _ => apply Z.ltb_lt in H
    | H : (_ <? _) = false |- _ => apply Z.ltb_ge in H
    end.

Ltac unfold_magics :=
  unfold SERVER_NEGOTIATE, AUTH_NEGOTIATE, SERVER_EPHEMERAL, AUTH_EPHEMERAL,
    SERVER_PROOF, AUTH_PROOF, ERROR_USER, ERROR_CLIENTSESSION, ERROR_SESSION in *.

Ltac nonneg_lengths :=
  repeat match goal with
    | |- context [blength ?x] =>
        lazymatch goal with
        | H : 0 <= blength x |- _ => fail
        | _ => pose proof (blength_nonneg x)
        end
    end.

Lemma marshall_encodable (p : packet) :
  encodable p = true -> exists buf, marshall p = Ok buf.
Proof.
  destruct p as [[cs u v]|[cs s salt u]|[s e]|[s e]|[s e]|[s e]];
    cbn [marshall encodable]; intros Henc;
    unfold serverNegotiate.marshall, authNegotiate.marshall, serverEphemeral.marshall,
      authEphemeral.marshall, serverProof.marshall, authProof.marshall,
      writeUInt32LE, writeUInt16LE, writeUInt8, byteLength_ascii;
    cbn [serverNegotiate.clientSession serverNegotiate.username serverNegotiate.version
         authNegotiate.clientSession authNegotiate.session authNegotiate.salt
         authNegotiate.username serverEphemeral.session serverEphemeral.ephemeral
         authEphemeral.session authEphemeral.ephemeral serverProof.session
         serverProof.proof authProof.session authProof.proof] in *;
    enc_cases;
    nonneg_lengths; pow_norm; unfold_magics; repeat enc_step; eauto.
Qed.

Ltac enc_split H :=
  repeat match type of H with
    | context [is_uint ?b ?x] => let E := fresh "E" in destruct (is_uint b x) eqn:E
    | context [Z.ltb ?a ?b] => let E := fresh "E" in destruct (Z.ltb a b) eqn:E
    end.

Lemma marshall_not_encodable (p : packet) :
  encodable p = false -> marshall p = Throw RangeError.
Proof.
  destruct p as [[cs u v]|[cs s salt u]|[s e]|[s e]|[s e]|[s e]];
    cbn [marshall encodable]; intros Henc;
    unfold serverNegotiate.marshall, authNegotiate.marshall, serverEphemeral.marshall,
      authEphemeral.marshall, serverProof.marshall, authProof.marshall,
      writeUInt32LE, writeUInt16LE, writeUInt8, byteLength_ascii;
    cbn [serverNegotiate.clientSession serverNegotiate.username serverNegotiate.version
         authNegotiate.clientSession authNegotiate.session authNegotiate.salt
         authNegotiate.username serverEphemeral.session serverEphemeral.ephemeral
         authEphemeral.session authEphemeral.ephemeral serverProof.session
         serverProof.proof authProof.session authProof.proof] in *;
    enc_split Henc; try discriminate Henc; clear Henc;
    enc_cases; nonneg_lengths; pow_norm; unfold_magics;
    repeat enc_step; reflexivity.
Qed.

(** X2.  An encoder fails exactly when a number of the packet does not fit
    its field (a session id or client session id beyond 32 bits, a version
    beyond 8 bits, a salt of 256 bytes or more, an ephemeral or proof of
    65536 bytes or more), and then with a [RangeError]; no username makes
    it fail. *)
Theorem marshall_fails_out_of_range (p : packet) :
  match marshall p with
  | Ok _ => encodable p = true
  | Throw e => e = RangeError /\ encodable p = false
  end.
Proof.
  destruct (encodable p) eqn:Henc.
  - destruct (marshall_encodable p Henc) as [buf ->]. reflexivity.
  - rewrite (marshall_not_encodable p Henc). auto.
Qed.

(** ** The magic tells the six kinds apart *)

Lemma marshall_head (p : packet) :
  well_formed p = true ->
  exists rest, marshall p = Ok (le_bytes 4 (magic_of (kind_of p)) ++ rest).
Proof.
  intros Hwf. destruct p as [p|p|p|p|p|p]; cbn [marshall kind_of magic_of].
  - rewrite serverNegotiate_layout by assumption. eauto.
  - rewrite authNegotiate_layout by assumption. eauto.
  - destruct p as [s e]. cbn [well_formed serverEphemeral.session
      serverEphemeral.ephemeral] in Hwf. enc_cases.
    unfold serverEphemeral.marshall. cbn [serverEphemeral.session serverEphemeral.ephemeral].
    rewrite (framed_layout SERVER_EPHEMERAL s e (magic_bounds ServerEphemeral)) by assumption.
    eauto.
  - destruct p as [s e]. cbn [well_formed authEphemeral.session
      authEphemeral.ephemeral] in Hwf. enc_cases.
    unfold authEphemeral.marshall. cbn [authEphemeral.session authEphemeral.ephemeral].
    rewrite (framed_layout AUTH_EPHEMERAL s e (magic_bounds AuthEphemeral)) by assumption.
    eauto.
  - destruct p as [s e]. cbn [well_formed serverProof.session serverProof.proof] in Hwf.
    enc_cases.
    unfold serverProof.marshall. cbn [serverProof.session serverProof.proof].
    rewrite (framed_layout SERVER_PROOF s e (magic_bounds ServerProof)) by assumption.
    eauto.
  - destruct p as [s e]. cbn [well_formed authProof.session authProof.proof] in Hwf.
    enc_cases.
    unfold authProof.marshall. cbn [authProof.session authProof.proof].
    rewrite (framed_layout AUTH_PROOF s e (magic_bounds AuthProof)) by assumption.
    eauto.
Qed.

Lemma unmarshall_other_magic (k : kind) (m : Z) (rest : list Z) :
  0 <= m < 2 ^ 32 -> m <> magic_of k ->
  exists msg, unmarshall k (le_bytes 4 m ++ rest) = Throw (TypeError msg).
Proof.
  intros Hm Hne.
  destruct k; cbn [unmarshall magic_of] in *;
    unfold serverNegotiate.unmarshall, authNegotiate.unmarshall,
      serverEphemeral.unmarshall, authEphemeral.unmarshall,
      serverProof.unmarshall, authProof.unmarshall, readUInt32LE;
    rewrite read_le_head by reflexivity; rewrite le_value_le_bytes by assumption;
    cbn [result_bind];
    match goal with
    | |- context [Z.eqb m ?c] => destruct (Z.eqb_spec m c); [contradiction|]
    end;
    cbn [negb result_bind]; eauto.
Qed.

(** X3.  No decoder takes the packet of another kind: the bytes of a
    well-formed packet, given to the decoder of any of the five other
    kinds, are refused with a [TypeError]. *)
Theorem unmarshall_rejects_other_kinds (p : packet) (k : kind) :
  well_formed p = true -> k <> kind_of p ->
  exists msg, (do buf <- marshall p; unmarshall k buf) = Throw (TypeError msg).
Proof.
  intros Hwf Hk. destruct (marshall_head p Hwf) as [rest ->]. cbn [result_bind].
  apply unmarshall_other_magic; [apply magic_bounds|].
  intros Heq. apply Hk. destruct k, (kind_of p); try reflexivity; discriminate Heq.
Qed.

(** ** Bytes after the packet *)

Ltac reassoc := rewrite <- ?app_assoc; reflexivity.

Lemma framed_fields_before (magic session : Z) (payload extra : Buffer) :
  0 <= magic < 2 ^ 32 -> 0 <= session < 2 ^ 32 -> blength payload < 65536 ->
  let buf := (le_bytes 4 magic ++ le_bytes 4 session
              ++ le_bytes 2 (blength payload) ++ payload) ++ extra in
  readUInt32LE buf 0 = Ok magic /\
  readUInt32LE buf 4 = Ok session /\
  readUInt16LE buf 8 = Ok (blength payload) /\
  copy buf (replicate (length payload) 0) 0 10 (10 + blength payload) = Ok payload.
Proof.
  intros Hm Hs Hp buf. pose proof (blength_nonneg payload).
  set (m := le_bytes 4 magic) in *. set (i := le_bytes 4 session) in *.
  set (n := le_bytes 2 (blength payload)) in *.
  unfold readUInt32LE, readUInt16LE. repeat split.
  - apply (read_le_split 4 buf [] m (i ++ n ++ payload ++ extra));
      [subst buf; split_at|reflexivity|reflexivity|assumption].
  - apply (read_le_split 4 buf m i (n ++ payload ++ extra));
      [subst buf; split_at|reflexivity|reflexivity|assumption].
  - apply (read_le_split 2 buf (m ++ i) n (payload ++ extra));
      [subst buf; split_at|reflexivity|reflexivity|pow_norm; lia].
  - apply (copy_out_split buf (m ++ i ++ n) payload extra);
      [subst buf; split_at|reflexivity|reflexivity].
Qed.

Ltac framed_decode k :=
  match goal with
  | Hs : 0 <= ?s < 2 ^ 32, He : blength ?e < 65536 |- _ =>
      let m := eval cbn in (magic_of k) in change m with (magic_of k);
      rewrite (framed_layout (magic_of k) s e (magic_bounds k) Hs He);
      cbn [result_bind];
      let E1 := fresh "E" in let E2 := fresh "E" in
      let E3 := fresh "E" in let E4 := fresh "E" in
      intros extra;
      destruct (framed_fields_before (magic_of k) s e extra (magic_bounds k) Hs He)
        as (E1 & E2 & E3 & E4);
      rewrite E1; cbn [result_bind]; rewrite Z.eqb_refl; cbn [negb];
      try (rewrite (readInt16LE_of_unsigned _ _ _ E3) by (pose proof (blength_nonneg e); lia);
           destruct (Z.ltb_spec (blength e) 32768); [|lia]);
      try rewrite E3; cbn [result_bind];
      unfold blength at 1; rewrite alloc_of_nat; cbn [result_bind];
      rewrite E4; cbn [result_bind]; rewrite E2; reflexivity
  end.

Lemma serverEphemeral_before (p : serverEphemeral.t) :
  well_formed (PServerEphemeral p) = true ->
  forall extra,
    (do b <- serverEphemeral.marshall p; serverEphemeral.unmarshall (b ++ extra)) = Ok p.
Proof.
  destruct p as [s e]. cbn [well_formed serverEphemeral.session serverEphemeral.ephemeral].
  intros Hwf. enc_cases.
  unfold serverEphemeral.marshall, serverEphemeral.unmarshall.
  cbn [serverEphemeral.session serverEphemeral.ephemeral].
  framed_decode ServerEphemeral.
Qed.

Lemma authEphemeral_before (p : authEphemeral.t) :
  well_formed (PAuthEphemeral p) = true ->
  forall extra,
    (do b <- authEphemeral.marshall p; authEphemeral.unmarshall (b ++ extra)) = Ok p.
Proof.
  destruct p as [s e]. cbn [well_formed authEphemeral.session authEphemeral.ephemeral].
  intros Hwf. enc_cases.
  unfold authEphemeral.marshall, authEphemeral.unmarshall.
  cbn [authEphemeral.session authEphemeral.ephemeral].
  framed_decode AuthEphemeral.
Qed.

Lemma serverProof_before (p : serverProof.t) :
  well_formed (PServerProof p) = true ->
  forall extra,
    (do b <- serverProof.marshall p; serverProof.unmarshall (b ++ extra)) = Ok p.
Proof.
  destruct p as [s e]. cbn [well_formed serverProof.session serverProof.proof].
  intros Hwf. enc_cases.
  unfold serverProof.marshall, serverProof.unmarshall.
  cbn [serverProof.session serverProof.proof].
  framed_decode ServerProof.
Qed.

Lemma authProof_before (p : authProof.t) :
  well_formed (PAuthProof p) = true -> blength (authProof.proof p) < 32768 ->
  forall extra,
    (do b <- authProof.marshall p; authProof.unmarshall (b ++ extra)) = Ok p.
Proof.
  destruct p as [s e]. cbn [well_formed authProof.session authProof.proof].
  intros Hwf Hshort. enc_cases.
  unfold authProof.marshall, authProof.unmarshall.
  cbn [authProof.session authProof.proof].
  framed_decode AuthProof.
Qed.

Lemma serverNegotiate_before (p : serverNegotiate.t) :
  well_formed (PServerNegotiate p) = true ->
  forall extra,
    (do b <- serverNegotiate.marshall p; serverNegotiate.unmarshall (b ++ extra)) = Ok p.
Proof.
  intros Hwf extra. rewrite serverNegotiate_layout by assumption.
  destruct p as [cs u v].
  cbn [well_formed serverNegotiate.version serverNegotiate.clientSession
         serverNegotiate.username] in *.
  apply andb_prop in Hwf as [Hwf Hu]. apply andb_prop in Hwf as [Hcs Hv].
  apply uint_bounds in Hcs. pose proof (version_bounds v Hv) as Hvb.
  cbn [result_bind].
  set (m := le_bytes 4 SERVER_NEGOTIATE). set (b := le_bytes 1 v).
  set (c := le_bytes 4 cs). set (t := Buffer_from_ascii u).
  set (buf := (m ++ b ++ c ++ t ++ [0]) ++ extra).
  assert (E1 : readUInt32LE buf 0 = Ok SERVER_NEGOTIATE).
  { apply (read_le_split 4 buf [] m (b ++ c ++ t ++ [0] ++ extra));
      [subst buf; reassoc|reflexivity|reflexivity|apply (magic_bounds ServerNegotiate)]. }
  assert (E2 : readUInt8 buf 4 = Ok v).
  { apply (read_le_split 1 buf m b (c ++ t ++ [0] ++ extra));
      [subst buf; reassoc|reflexivity|reflexivity|assumption]. }
  assert (E3 : readUInt32LE buf 5 = Ok cs).
  { apply (read_le_split 4 buf (m ++ b) c (t ++ [0] ++ extra));
      [subst buf; reassoc|reflexivity|reflexivity|assumption]. }
  assert (E4 : readString buf 9 = Ok u).
  { apply (readString_split buf (m ++ b ++ c) extra);
      [subst buf t; reassoc|reflexivity|assumption]. }
  unfold serverNegotiate.unmarshall.
  rewrite E1. cbn [result_bind]. rewrite Z.eqb_refl. cbn [negb].
  rewrite E2. cbn [result_bind].
  replace (negb (v =? 1) && negb (v =? 2)) with false
    by (destruct (v =? 1), (v =? 2); simpl in *; congruence).
  rewrite E3. cbn [result_bind]. rewrite E4. reflexivity.
Qed.

Lemma authNegotiate_before (p : authNegotiate.t) :
  well_formed (PAuthNegotiate p) = true ->
  forall extra,
    (do b <- authNegotiate.marshall p; authNegotiate.unmarshall (b ++ extra)) = Ok p.
Proof.
  intros Hwf extra. rewrite authNegotiate_layout by assumption.
  destruct p as [cs s salt u].
  cbn [well_formed authNegotiate.session authNegotiate.clientSession
         authNegotiate.username authNegotiate.salt] in *.
  apply andb_prop in Hwf as [Hwf Hu]. apply andb_prop in Hwf as [Hwf Hsalt].
  apply andb_prop in Hwf as [Hcs Hs].
  apply uint_bounds in Hcs, Hs. apply Z.ltb_lt in Hsalt.
  pose proof (blength_nonneg salt).
  cbn [result_bind].
  set (m := le_bytes 4 AUTH_NEGOTIATE). set (v := le_bytes 1 1).
  set (c := le_bytes 4 cs). set (i := le_bytes 4 s).
  set (n := le_bytes 1 (blength salt)). set (t := Buffer_from_ascii u).
  set (buf := (m ++ v ++ c ++ i ++ n ++ salt ++ t ++ [0]) ++ extra).
  assert (E1 : readUInt32LE buf 0 = Ok AUTH_NEGOTIATE).
  { apply (read_le_split 4 buf [] m (v ++ c ++ i ++ n ++ salt ++ t ++ [0] ++ extra));
      [subst buf; reassoc|reflexivity|reflexivity|apply (magic_bounds AuthNegotiate)]. }
  assert (E2 : readUInt8 buf 4 = Ok 1).
  { apply (read_le_split 1 buf m v (c ++ i ++ n ++ salt ++ t ++ [0] ++ extra));
      [subst buf; reassoc|reflexivity|reflexivity|pow_norm; lia]. }
  assert (E3 : readUInt8 buf 13 = Ok (blength salt)).
  { apply (read_le_split 1 buf (m ++ v ++ c ++ i) n (salt ++ t ++ [0] ++ extra));
      [subst buf; reassoc|reflexivity|reflexivity|pow_norm; lia]. }
  assert (E4 : copy buf (replicate (length salt) 0) 0 14 (14 + blength salt) = Ok salt).
  { apply (copy_out_split buf (m ++ v ++ c ++ i ++ n) salt (t ++ [0] ++ extra));
      [subst buf; reassoc|reflexivity|reflexivity]. }
  assert (E5 : readUInt32LE buf 5 = Ok cs).
  { apply (read_le_split 4 buf (m ++ v) c (i ++ n ++ salt ++ t ++ [0] ++ extra));
      [subst buf; reassoc|reflexivity|reflexivity|assumption]. }
  assert (E6 : readUInt32LE buf 9 = Ok s).
  { apply (read_le_split 4 buf (m ++ v ++ c) i (n ++ salt ++ t ++ [0] ++ extra));
      [subst buf; reassoc|reflexivity|reflexivity|assumption]. }
  assert (E7 : readString buf (14 + blength salt) = Ok u).
  { apply (readString_split buf (m ++ v ++ c ++ i ++ n ++ salt) extra);
      [subst buf t; reassoc| |assumption].
    rewrite !app_assoc, blength_app. reflexivity. }
  unfold authNegotiate.unmarshall.
  rewrite E1. cbn [result_bind]. rewrite Z.eqb_refl. cbn [negb].
  rewrite E2. cbn [result_bind Z.eqb Pos.eqb negb].
  rewrite E3. cbn [result_bind]. unfold blength at 1. rewrite alloc_of_nat.
  cbn [result_bind]. rewrite E4. cbn [result_bind].
  rewrite E5. cbn [result_bind]. rewrite E6. cbn [result_bind]. rewrite E7.
  reflexivity.
Qed.

(** X4.  A decoder does not look past the packet: whatever bytes follow
    the encoding of a well-formed packet in the buffer, its decoder returns
    the packet (for AUTH_PROOF, with a proof shorter than 0x8000 bytes). *)
Theorem unmarshall_ignores_trailing_bytes (p : packet) (extra : Buffer) :
  well_formed p = true ->
  (forall q : authProof.t, p = PAuthProof q -> blength (authProof.proof q) < 32768) ->
  (do buf <- marshall p; unmarshall (kind_of p) (buf ++ extra)) = Ok p.
Proof.
  intros Hwf Hshort.
  destruct p as [p|p|p|p|p|p]; cbn [marshall kind_of unmarshall].
  - pose proof (serverNegotiate_before p Hwf extra) as R.
    destruct (serverNegotiate.marshall p); cbn [result_bind] in *; [|discriminate].
    now rewrite R.
  - pose proof (authNegotiate_before p Hwf extra) as R.
    destruct (authNegotiate.marshall p); cbn [result_bind] in *; [|discriminate].
    now rewrite R.
  - pose proof (serverEphemeral_before p Hwf extra) as R.
    destruct (serverEphemeral.marshall p); cbn [result_bind] in *; [|discriminate].
    now rewrite R.
  - pose proof (authEphemeral_before p Hwf extra) as R.
    destruct (authEphemeral.marshall p); cbn [result_bind] in *; [|discriminate].
    now rewrite R.
  - pose proof (serverProof_before p Hwf extra) as R.
    destruct (serverProof.marshall p); cbn [result_bind] in *; [|discriminate].
    now rewrite R.
  - pose proof (authProof_before p Hwf (Hshort p eq_refl) extra) as R.
    destruct (authProof.marshall p); cbn [result_bind] in *; [|discriminate].
    now rewrite R.
Qed.

(** ** The error packets *)

Lemma sessionError_layout (p : sessionError.t) :
  is_uint 8 (sessionError.error p) = true ->
  is_uint 32 (sessionError.session p) = true ->
  sessionError.marshall p =
  Ok (le_bytes 4 ERROR_SESSION ++ le_bytes 1 (sessionError.error p)
      ++ le_bytes 4 (sessionError.session p)).
Proof.
  destruct p as [e s]. cbn [sessionError.error sessionError.session].
  intros He Hs. apply uint_bounds in He, Hs.
  unfold sessionError.marshall. cbn [sessionError.error sessionError.session].
  rewrite (alloc_split 9 0) by reflexivity. cbn [result_bind].
  change (replicate 9 0 ++ replicate 0 0)
    with ([] ++ replicate 4 0 ++ replicate 1 0 ++ replicate 4 0 ++ []).
  unfold writeUInt32LE, writeUInt8.
  rewrite write_le_at; [|reflexivity|reflexivity|cbv; split; congruence].
  cbn [result_bind app].
  rewrite (write_le_at 1 (le_bytes 4 ERROR_SESSION)); [|reflexivity|reflexivity|assumption].
  cbn [result_bind]. rewrite (app_assoc (le_bytes 4 ERROR_SESSION)).
  rewrite (write_le_at 4); [|reflexivity|reflexivity|assumption].
  cbn [result_bind]. now rewrite app_nil_r, <- !app_assoc.
Qed.

Lemma sessionError_roundtrip (p : sessionError.t) :
  error_well_formed (PSessionError p) = true ->
  (do b <- sessionError.marshall p; sessionError.unmarshall b) = Ok p.
Proof.
  cbn [error_well_formed]. intros Hwf. apply andb_prop in Hwf as [He Hs].
  rewrite sessionError_layout by assumption. destruct p as [e s].
  cbn [sessionError.error sessionError.session] in *.
  apply uint_bounds in He, Hs. cbn [result_bind].
  set (m := le_bytes 4 ERROR_SESSION). set (b := le_bytes 1 e). set (c := le_bytes 4 s).
  unfold sessionError.unmarshall, readUInt32LE, readUInt8.
  rewrite (read_le_split 4 (m ++ b ++ c) [] m (b ++ c) 0 ERROR_SESSION);
    [|reflexivity|reflexivity|reflexivity|cbv; split; congruence].
  cbn [result_bind]. rewrite Z.eqb_refl. cbn [negb].
  rewrite (read_le_split 1 (m ++ b ++ c) m b c 4 e);
    [|reflexivity|reflexivity|reflexivity|assumption].
  cbn [result_bind].
  rewrite (read_le_split 4 (m ++ b ++ c) (m ++ b) c [] 5 s);
    [|reassoc|reflexivity|reflexivity|assumption].
  reflexivity.
Qed.

Lemma clientSessionError_roundtrip (p : clientSessionError.t) :
  error_well_formed (PClientSessionError p) = true ->
  (do b <- clientSessionError.marshall p; clientSessionError.unmarshall b) = Ok p.
Proof.
  cbn [error_well_formed]. intros Hwf. apply andb_prop in Hwf as [He Hs].
  rewrite clientSessionError_layout by assumption. destruct p as [s e].
  cbn [clientSessionError.error clientSessionError.clientSession] in *.
  apply uint_bounds in He, Hs. cbn [result_bind].
  set (m := le_bytes 4 ERROR_CLIENTSESSION). set (b := le_bytes 1 e).
  set (c := le_bytes 4 s).
  unfold clientSessionError.unmarshall, readUInt32LE, readUInt8.
  rewrite (read_le_split 4 (m ++ b ++ c) [] m (b ++ c) 0 ERROR_CLIENTSESSION);
    [|reflexivity|reflexivity|reflexivity|cbv; split; congruence].
  cbn [result_bind]. rewrite Z.eqb_refl. cbn [negb].
  rewrite (read_le_split 4 (m ++ b ++ c) (m ++ b) c [] 5 s);
    [|reassoc|reflexivity|reflexivity|assumption].
  cbn [result_bind].
  rewrite (read_le_split 1 (m ++ b ++ c) m b c 4 e);
    [|reflexivity|reflexivity|reflexivity|assumption].
  reflexivity.
Qed.

Lemma userError_roundtrip (p : userError.t) :
  error_well_formed (PUserError p) = true ->
  (do b <- userError.marshall p; userError.unmarshall b) = Ok p.
Proof.
  cbn [error_well_formed]. intros Hwf. apply andb_prop in Hwf as [He Hu].
  rewrite userError_layout by assumption. destruct p as [e u].
  cbn [userError.error userError.username] in *.
  apply uint_bounds in He. cbn [result_bind].
  set (m := le_bytes 4 ERROR_USER). set (b := le_bytes 1 e).
  set (buf := m ++ b ++ Buffer_from_ascii u ++ [0]).
  unfold userError.unmarshall, readUInt32LE, readUInt8.
  rewrite (read_le_split 4 buf [] m (b ++ Buffer_from_ascii u ++ [0]) 0 ERROR_USER);
    [|reflexivity|reflexivity|reflexivity|cbv; split; congruence].
  cbn [result_bind]. rewrite Z.eqb_refl. cbn [negb].
  rewrite (read_le_split 1 buf m b (Buffer_from_ascii u ++ [0]) 4 e);
    [|reflexivity|reflexivity|reflexivity|assumption].
  cbn [result_bind].
  rewrite (readString_split buf (m ++ b) [] u 5); [reflexivity|reassoc|reflexivity|assumption].
Qed.

(** X5.  Round trip of the three error packets: a user error with an
    ASCII username without NUL, a client session error and a session error
    whose code fits 8 bits and whose id fits 32 bits are returned by their
    decoder from the bytes their encoder produced. *)
Theorem error_roundtrip (p : error_packet) :
  error_well_formed p = true ->
  (do buf <- marshall_error p; unmarshall_error (error_kind_of p) buf) = Ok p.
Proof.
  intros Hwf.
  destruct p as [p|p|p]; cbn [marshall_error error_kind_of unmarshall_error].
  - pose proof (userError_roundtrip p Hwf) as R.
    destruct (userError.marshall p); cbn [result_bind] in *; [|discriminate].
    now rewrite R.
  - pose proof (clientSessionError_roundtrip p Hwf) as R.
    destruct (clientSessionError.marshall p); cbn [result_bind] in *; [|discriminate].
    now rewrite R.
  - pose proof (sessionError_roundtrip p Hwf) as R.
    destruct (sessionError.marshall p); cbn [result_bind] in *; [|discriminate].
    now rewrite R.
Qed.

(** X6.  A session error is never taken for one of the two other errors,
    nor one of them for a session error: the magics differ. *)
Theorem sessionError_magic_apart (p : error_packet) (k : error_kind) :
  error_well_formed p = true ->
  (error_kind_of p = SessionError /\ k <> SessionError) \/
  (error_kind_of p <> SessionError /\ k = SessionError) ->
  exists msg,
    (do buf <- marshall_error p; unmarshall_error k buf) = Throw (TypeError msg).
Proof.
  intros Hwf Hone.
  assert (Hk : error_kind_of p = SessionError <-> k <> SessionError).
  { destruct Hone as [[Hp Hk]|[Hp ->]]; [tauto|]. split; [contradiction|congruence]. }
  clear Hone.
  assert (Hhead : exists m rest,
             marshall_error p = Ok (le_bytes 4 m ++ rest) /\
             (m = ERROR_SESSION <-> error_kind_of p = SessionError) /\
             0 <= m < 2 ^ 32).
  { destruct p as [p|p|p]; cbn [marshall_error error_kind_of error_well_formed] in *;
      apply andb_prop in Hwf as [H1 H2].
    - rewrite userError_layout by assumption. eexists _, _.
      split; [reflexivity|]. split; [split; discriminate|cbv; split; congruence].
    - rewrite clientSessionError_layout by assumption. eexists _, _.
      split; [reflexivity|]. split; [split; discriminate|cbv; split; congruence].
    - rewrite sessionError_layout by assumption. eexists _, _.
      split; [reflexivity|]. split; [split; reflexivity|cbv; split; congruence]. }
  destruct Hhead as (m & rest & -> & Hm & Hrange). cbn [result_bind].
  destruct k; cbn [unmarshall_error];
    unfold userError.unmarshall, clientSessionError.unmarshall, sessionError.unmarshall,
      readUInt32LE;
    rewrite read_le_head by reflexivity; rewrite le_value_le_bytes by assumption;
    cbn [result_bind];
    match goal with
    | |- context [Z.eqb m ?c] => destruct (Z.eqb_spec m c) as [Heq|Hne]
    end; cbn [negb result_bind]; eauto.
  - exfalso. assert (m <> ERROR_SESSION) by (rewrite Heq; discriminate).
    assert (UserError <> SessionError) by discriminate. tauto.
  - exfalso. assert (m <> ERROR_SESSION) by (rewrite Heq; discriminate).
    assert (ClientSessionError <> SessionError) by discriminate. tauto.
  - exfalso. apply Hm in Heq. apply Hk in Heq. now apply Heq.
Qed.

(** ** Strings on the wire *)

Lemma find_zero_until_NUL (str : jsstring) (post : list Z) :
  find_zero (Buffer_from_ascii str ++ 0 :: post) = Some (length (until_NUL str)).
Proof.
  induction str as [|c str IH]; [reflexivity|].
  cbn [Buffer_from_ascii map app find_zero until_NUL].
  destruct (Z.eqb_spec (Z.land c 255) 0); [reflexivity|].
  fold (Buffer_from_ascii str). rewrite IH. reflexivity.
Qed.

Lemma take_until_NUL (str : jsstring) (post : list Z) :
  take (length (until_NUL str)) (Buffer_from_ascii str ++ post)
  = Buffer_from_ascii (until_NUL str).
Proof.
  induction str as [|c str IH]; [reflexivity|].
  cbn [Buffer_from_ascii map app until_NUL].
  destruct (Z.eqb_spec (Z.land c 255) 0); [reflexivity|].
  cbn [length take map]. f_equal. exact IH.
Qed.

Lemma readString_after_write (pre post : list Z) (str : jsstring) :
  readString (pre ++ Buffer_from_ascii str ++ 0 :: post) (blength pre)
  = Ok (map (fun c => Z.land (Z.land c 255) 127) (until_NUL str)).
Proof.
  unfold readString, indexOf_NUL, toString_ascii, blength.
  rewrite Nat2Z.id, drop_app_length, find_zero_until_NUL.
  destruct (Z.eqb_spec (Z.of_nat (length pre) + Z.of_nat (length (until_NUL str))) (-1));
    [lia|].
  replace (Z.to_nat (Z.of_nat (length pre) + Z.of_nat (length (until_NUL str))
                     - Z.of_nat (length pre)))
    with (length (until_NUL str)) by lia.
  rewrite take_until_NUL. unfold Buffer_from_ascii. now rewrite map_map.
Qed.

(** X7.  What a string written with [writeString] reads back as: wherever
    there is room for it in the buffer, [readString] returns the code
    units before the first one whose low byte is zero, each cut to its low
    7 bits.  A string comes back as it was only if it is ASCII without
    NUL. *)
Theorem readString_writeString (buf : Buffer) (str : jsstring) (offset : Z) :
  0 <= offset -> offset + blength str + 1 <= blength buf ->
  (do written <- writeString buf str offset; readString written offset)
  = Ok (map (fun c => Z.land (Z.land c 255) 127) (until_NUL str)).
Proof.
  intros Hoff Hroom.
  set (n := Z.to_nat offset).
  assert (Hsplit : buf = take n buf ++ replicate 0 0
                         ++ take (length str + 1) (drop n buf)
                         ++ drop (length str + 1) (drop n buf)).
  { cbn [replicate app]. now rewrite !take_drop. }
  assert (Hpre : offset = blength (take n buf)).
  { unfold blength in *. rewrite length_take. lia. }
  assert (Hmid : length (take (length str + 1) (drop n buf)) = (length str + 1)%nat).
  { rewrite length_take, length_drop. unfold blength in *. lia. }
  cbn [replicate app] in Hsplit.
  set (pre := take n buf) in *. set (post := drop (length str + 1) (drop n buf)) in *.
  set (mid := take (length str + 1) (drop n buf)) in *.
  unfold writeString.
  assert (Hmid' : mid = take (length str) mid ++ drop (length str) mid)
    by now rewrite take_drop.
  assert (Hone : exists z, drop (length str) mid = [z]).
  { assert (Hl : length (drop (length str) mid) = 1%nat) by (rewrite length_drop; lia).
    destruct (drop (length str) mid) as [|z [|]]; try discriminate. eauto. }
  destruct Hone as [z Hz]. rewrite Hz in Hmid'.
  assert (Hhead : length (take (length str) mid) = length (Buffer_from_ascii str)).
  { rewrite length_take, length_Buffer_from_ascii. lia. }
  rewrite Hsplit, Hmid' at 1. rewrite <- (app_assoc (take (length str) mid)).
  rewrite (copy_all_at (Buffer_from_ascii str) pre (take (length str) mid) ([z] ++ post)
             offset Hpre Hhead).
  cbn [result_bind]. unfold writeUInt8.
  rewrite (app_assoc pre).
  rewrite (write_le_at 1 (pre ++ Buffer_from_ascii str) [z] post 0);
    [|rewrite blength_app; lia|reflexivity|pow_norm; lia].
  cbn [result_bind le_bytes]. rewrite <- app_assoc. cbn [app].
  change (0 mod 256) with 0. rewrite Hpre. apply readString_after_write.
Qed.

(** ** The version 1 codec *)

Lemma V1_serverNegotiate_layout (u : jsstring) :
  V1.serverNegotiate.marshall (V1.serverNegotiate.mk u) =
  Ok (le_bytes 4 SERVER_NEGOTIATE ++ le_bytes 1 1 ++ Buffer_from_ascii u ++ [0]).
Proof.
  unfold V1.serverNegotiate.marshall, byteLength_ascii. cbn [V1.serverNegotiate.username].
  rewrite (alloc_split 5 (length u + 1)) by (unfold blength; lia). cbn [result_bind].
  change (replicate 5 0) with ([] ++ replicate 4 0 ++ replicate 1 0).
  rewrite <- !app_assoc. unfold writeUInt32LE, writeUInt8 at 1.
  rewrite write_le_at; [|reflexivity|reflexivity|cbv; split; congruence].
  cbn [result_bind app].
  rewrite (write_le_at 1 (le_bytes 4 SERVER_NEGOTIATE));
    [|reflexivity|reflexivity|pow_norm; lia].
  cbn [result_bind]. rewrite (app_assoc (le_bytes 4 SERVER_NEGOTIATE)).
  rewrite writeString_end by reflexivity.
  cbn [result_bind]. now rewrite <- !app_assoc.
Qed.

(** X8.  Round trip of the version 1 SERVER_NEGOTIATE: every ASCII
    username without NUL is returned by the version 1 decoder from the
    bytes of the version 1 encoder. *)
Theorem V1_serverNegotiate_roundtrip (p : V1.serverNegotiate.t) :
  is_username (V1.serverNegotiate.username p) = true ->
  (do buf <- V1.serverNegotiate.marshall p; V1.serverNegotiate.unmarshall buf) = Ok p.
Proof.
  destruct p as [u]. cbn [V1.serverNegotiate.username]. intros Hu.
  rewrite V1_serverNegotiate_layout. cbn [result_bind].
  set (m := le_bytes 4 SERVER_NEGOTIATE). set (b := le_bytes 1 1).
  set (buf := m ++ b ++ Buffer_from_ascii u ++ [0]).
  unfold V1.serverNegotiate.unmarshall, readUInt32LE, readUInt8.
  rewrite (read_le_split 4 buf [] m (b ++ Buffer_from_ascii u ++ [0]) 0 SERVER_NEGOTIATE);
    [|reflexivity|reflexivity|reflexivity|cbv; split; congruence].
  cbn [result_bind]. rewrite Z.eqb_refl. cbn [negb].
  rewrite (read_le_split 1 buf m b (Buffer_from_ascii u ++ [0]) 4 1);
    [|reflexivity|reflexivity|reflexivity|pow_norm; lia].
  cbn [result_bind Z.eqb Pos.eqb negb].
  rewrite (readString_split buf (m ++ b) [] u 5); [reflexivity|reassoc|reflexivity|assumption].
Qed.

(** X9.  The two revisions do not read each other's version 2: a
    well-formed SERVER_NEGOTIATE of version 2 from the current encoder is
    refused by the version 1 decoder with "Buffer is incorrect version of
    protocol". *)
Theorem V1_refuses_version_2 (p : serverNegotiate.t) :
  well_formed (PServerNegotiate p) = true ->
  serverNegotiate.version p = 2 ->
  (do buf <- serverNegotiate.marshall p; V1.serverNegotiate.unmarshall buf)
  = Throw (TypeError "Buffer is incorrect version of protocol").
Proof.
  intros Hwf Hv. rewrite serverNegotiate_layout by assumption. rewrite Hv.
  cbn [result_bind].
  set (m := le_bytes 4 SERVER_NEGOTIATE). set (b := le_bytes 1 2).
  set (rest := le_bytes 4 (serverNegotiate.clientSession p)
               ++ Buffer_from_ascii (serverNegotiate.username p) ++ [0]).
  unfold V1.serverNegotiate.unmarshall, readUInt32LE, readUInt8.
  rewrite (read_le_split 4 (m ++ b ++ rest) [] m (b ++ rest) 0 SERVER_NEGOTIATE);
    [|reflexivity|reflexivity|reflexivity|cbv; split; congruence].
  cbn [result_bind]. rewrite Z.eqb_refl. cbn [negb].
  rewrite (read_le_split 1 (m ++ b ++ rest) m b rest 4 2);
    [|reflexivity|reflexivity|reflexivity|pow_norm; lia].
  reflexivity.
Qed.

(** ** Looking a user up *)

Lemma jsstring_eqb_eq (a b : jsstring) : jsstring_eqb a b = true <-> a = b.
Proof. unfold jsstring_eqb. apply bool_decide_eq_true. Qed.

Lemma jsstring_eqb_neq (a b : jsstring) : jsstring_eqb a b = false <-> a <> b.
Proof. unfold jsstring_eqb. apply bool_decide_eq_false. Qed.

Lemma findOne_ext {A : Type} (P Q : A -> bool) (rows : list A) :
  (forall r, P r = Q r) -> findOne P rows = findOne Q rows.
Proof.
  intros HPQ. unfold findOne. generalize 0%nat.
  induction rows as [|r rows IH]; intros i; [reflexivity|].
  cbn [findOne_from]. rewrite HPQ, IH. reflexivity.
Qed.

Lemma findOne_app_new {A : Type} (P : A -> bool) (rows : list A) (r : A) :
  (forall (j : nat) (x : A), rows !! j = Some x -> P x = false) -> P r = true ->
  findOne P (rows ++ [r]) = Some (length rows, r).
Proof.
  intros Hold Hr. apply findOne_first; [|exact Hr|].
  - now rewrite lookup_app_r, Nat.sub_diag by lia.
  - intros k x Hk Hx. rewrite lookup_app_l in Hx by exact Hk. now apply (Hold k).
Qed.

Lemma findOne_app_old {A : Type} (P : A -> bool) (rows more : list A) (d : instance A) :
  findOne P rows = Some d -> findOne P (rows ++ more) = Some d.
Proof.
  destruct d as [j r]. intros Hf. apply findOne_Some in Hf as (Hj & HP & Hfirst).
  apply findOne_first; [now apply lookup_app_l_Some|exact HP|].
  intros k x Hk Hx. apply (Hfirst k x Hk).
  rewrite lookup_app_l in Hx; [exact Hx|]. apply lookup_lt_Some in Hj. lia.
Qed.

Lemma findOne_none {A : Type} (P : A -> bool) (rows : list A) :
  (forall (k : nat) (r : A), rows !! k = Some r -> P r = false) -> findOne P rows = None.
Proof. intros Hall. unfold findOne. now apply findOne_from_None. Qed.

Section Users_facts.
Context `{Env}.

Lemma findUser_unfold (username : jsstring) (w : World) :
  findUser username w =
  match findOne (fun u => jsstring_eqb (User.username u) (toLowerCase username)) (Users w) with
  | Some data => (Ok data, w)
  | None => (Throw (UserNotFound "User not found" username), w)
  end.
Proof. unfold findUser, then_, User_findOne. now destruct (findOne _ _). Qed.

(** X10.  [findUser] does not tell cases apart: two names that lower to
    the same string find the same row, the first whose stored username is
    that lowered string, or are both unknown; the database is not
    changed. *)
Theorem findUser_ignores_case (u1 u2 : jsstring) (w : World) :
  toLowerCase u1 = toLowerCase u2 ->
  snd (findUser u1 w) = w /\
  (forall data : instance User.t,
     fst (findUser u1 w) = Ok data <-> fst (findUser u2 w) = Ok data) /\
  (forall data : instance User.t,
     fst (findUser u1 w) = Ok data ->
     Users w !! fst data = Some (snd data) /\
     User.username (snd data) = toLowerCase u1).
Proof.
  intros Hlow. rewrite !findUser_unfold, Hlow.
  destruct (findOne _ (Users w)) as [[i r]|] eqn:Hf; cbn [fst snd].
  - split; [reflexivity|]. split; [tauto|].
    intros data [= <-]. apply findOne_Some in Hf as (Hi & HP & _).
    apply jsstring_eqb_eq in HP. cbn [fst snd]. split; congruence.
  - split; [reflexivity|]. split; [split; discriminate|discriminate].
Qed.

Lemma addUser_run (username password email : jsstring) (access : option Access)
    (w : World) :
  addUser username password email access w =
  (Ok (Some (length (Users w), new_user username password email access w)),
   mkWorld (Users w ++ [new_user username password email access w]) (Sessions w)
     (<[length (Profiles w) := Profile.mk username (Some (length (Users w)))]>
        (Profiles w ++ [Profile.mk username None]))
     (fun i => entropy w (4 + i)%nat)).
Proof.
  unfold addUser, then_, randomBytes, Promise_all, User_create, Profile_create,
    setProfile, User_findById, new_user.
  cbn [fst snd Users Sessions Profiles entropy Profile.username Profile.UserId].
  now rewrite lookup_app_r, Nat.sub_diag by lia.
Qed.

Lemma no_such_name (username : jsstring) (rows : list User.t) :
  (forall (j : nat) (r : User.t), rows !! j = Some r -> User.username r <> username) ->
  forall (j : nat) (r : User.t),
    rows !! j = Some r -> jsstring_eqb (User.username r) username = false.
Proof. intros Hno j r Hr. apply jsstring_eqb_neq. now apply (Hno j). Qed.

(** X11.  A user that has been added is there: [addUser] returns the row
    it stored, under the lowered username, with the given e-mail, access
    UNVERIFIED unless one is given and active as soon as it is not
    UNVERIFIED; when the lowered name was not taken, [findUser] on the
    name as typed returns that row from then on. *)
Theorem addUser_then_findUser
    (username password email : jsstring) (access : option Access) (w : World) :
  (forall (j : nat) (r : User.t),
     Users w !! j = Some r -> User.username r <> toLowerCase username) ->
  let row := new_user username password email access w in
  let w' := snd (addUser username password email access w) in
  fst (addUser username password email access w) = Ok (Some (length (Users w), row)) /\
  Users w' = Users w ++ [row] /\
  fst (findUser username w') = Ok (length (Users w), row).
Proof.
  intros Hfree row w'. subst row w'. rewrite addUser_run. cbn [fst snd Users].
  repeat split. rewrite findUser_unfold. cbn [Users].
  rewrite findOne_app_new; [reflexivity| |].
  - now apply no_such_name.
  - apply jsstring_eqb_eq. reflexivity.
Qed.

(** ** Sessions of unknown and of known users *)

Lemma newSession_run (username : jsstring) (now : Z) (w : World) :
  newSession username now w =
  let row := Session.mk (le_value (draw 4 w)) None None now None in
  let entropy' := fun i => entropy w (4 + i)%nat in
  match findOne (fun u => jsstring_eqb (User.username u) (toLowerCase username)) (Users w) with
  | Some user =>
      (Ok (length (Sessions w),
           Session.mk (le_value (draw 4 w)) None None now (Some (fst user))),
       mkWorld (Users w)
         (Sessions w ++ [Session.mk (le_value (draw 4 w)) None None now (Some (fst user))])
         (Profiles w) entropy')
  | None =>
      (Throw (UserNotFound "User not found" username),
       mkWorld (Users w) (Sessions w ++ [row]) (Profiles w) entropy')
  end.
Proof.
  assert (Hread : readUInt32LE (draw 4 w) 0 = Ok (le_value (draw 4 w)))
    by (unfold readUInt32LE; now rewrite read_le_whole).
  unfold newSession, then_, Promise_all. rewrite findUser_unfold.
  destruct (findOne _ (Users w)) as [user|];
    unfold randomBytes, of_result, Session_create;
    cbn [fst snd Sessions Users Profiles entropy]; rewrite Hread;
    cbn [fst snd Sessions Users Profiles entropy].
  - unfold setUser, Session_save.
    cbn [fst snd Sessions Users Profiles entropy Session.session Session.ephemeral
           Session.secret Session.createdAt].
    now rewrite insert_app_r_alt, Nat.sub_diag by lia.
  - reflexivity.
Qed.

Lemma findSession_unfold (session timeout now : Z) (w : World) :
  findSession session timeout now w =
  match findOne (fun r => Session.session r =? session) (Sessions w) with
  | None => (Throw (SessionNotFound "Session not found" session), w)
  | Some sess =>
      if getSecondsBetween (Session.createdAt (snd sess)) now >? timeout
      then (Throw (Error "Session has expired"), w)
      else
        match Session.UserId (snd sess) with
        | None => (Throw (Error "Session is not attached to User"), w)
        | Some id =>
            match Users w !! id with
            | None => (Throw (Error "Session is not attached to User"), w)
            | Some user =>
                if Access_eqb (User.access user) UNVERIFIED
                then (Throw (Error "Session belongs to UNVERIFIED User"), w)
                else (Ok sess, w)
            end
        end
  end.
Proof.
  unfold findSession, then_, Session_findOne, getUser, User_findById, reject, resolve.
  repeat (case_match; simplify_eq; cbn [snd fst] in *; try reflexivity).
Qed.

Lemma no_such_session (sid : Z) (rows : list Session.t) :
  (forall (j : nat) (r : Session.t), rows !! j = Some r -> Session.session r <> sid) ->
  forall (j : nat) (r : Session.t),
    rows !! j = Some r -> (Session.session r =? sid) = false.
Proof. intros Hno j r Hr. apply Z.eqb_neq. now apply (Hno j). Qed.

(** X12.  [newSession] for a name no user has fails with [UserNotFound],
    and stores a session all the same: the row is created beside the
    lookup, not after it.  The row has no user, so that [findSession] on
    its id (when no older session has it) fails with "Session is not
    attached to User" as long as the session is not expired. *)
Theorem newSession_unknown_user
    (username : jsstring) (now timeout later : Z) (w : World) :
  (forall (j : nat) (r : User.t),
     Users w !! j = Some r -> User.username r <> toLowerCase username) ->
  (forall (j : nat) (r : Session.t),
     Sessions w !! j = Some r -> Session.session r <> le_value (draw 4 w)) ->
  getSecondsBetween now later <= timeout ->
  let orphan := Session.mk (le_value (draw 4 w)) None None now None in
  let w' := snd (newSession username now w) in
  fst (newSession username now w) = Throw (UserNotFound "User not found" username) /\
  Sessions w' = Sessions w ++ [orphan] /\
  findSession (le_value (draw 4 w)) timeout later w'
  = (Throw (Error "Session is not attached to User"), w').
Proof.
  intros Huser Hsess Hfresh orphan w'. subst orphan w'.
  rewrite newSession_run.
  rewrite findOne_none by (now apply no_such_name).
  cbn [fst snd Sessions]. repeat split.
  rewrite findSession_unfold. cbn [Sessions Users].
  rewrite findOne_app_new;
    [|now apply no_such_session|apply Z.eqb_refl].
  cbn [snd Session.createdAt Session.UserId].
  destruct (Z.gtb_spec (getSecondsBetween now later) timeout); [lia|reflexivity].
Qed.

(** X13.  From registration to lookup.  After [addUser] of a name that
    was free, [newSession] for that name stores a session attached to the
    new user; and while the session is not expired, [findSession] on its
    id (when no older session has it) returns it if the user was given an
    access level other than UNVERIFIED, and fails with "Session belongs to
    UNVERIFIED User" if not. *)
Theorem session_of_new_user
    (username password email : jsstring) (access : option Access)
    (created now timeout : Z) (w : World) :
  let w1 := snd (addUser username password email access w) in
  let w2 := snd (newSession username created w1) in
  let sid := le_value (draw 4 w1) in
  let sess := (length (Sessions w),
               Session.mk sid None None created (Some (length (Users w)))) in
  (forall (j : nat) (r : User.t),
     Users w !! j = Some r -> User.username r <> toLowerCase username) ->
  (forall (j : nat) (r : Session.t),
     Sessions w !! j = Some r -> Session.session r <> sid) ->
  getSecondsBetween created now <= timeout ->
  fst (newSession username created w1) = Ok sess /\
  fst (findSession sid timeout now w2)
  = if Access_eqb (default UNVERIFIED access) UNVERIFIED
    then Throw (Error "Session belongs to UNVERIFIED User")
    else Ok sess.
Proof.
  intros w1 w2 sid sess Huser Hsess Hfresh. subst w2 sess sid.
  assert (Hw1 : w1 = mkWorld (Users w ++ [new_user username password email access w])
                       (Sessions w) (Profiles w1) (entropy w1)).
  { subst w1. now rewrite addUser_run. }
  rewrite newSession_run.
  assert (Hfind : findOne (fun u => jsstring_eqb (User.username u) (toLowerCase username))
                    (Users w1)
                  = Some (length (Users w), new_user username password email access w)).
  { rewrite Hw1. cbn [Users]. apply findOne_app_new; [now apply no_such_name|].
    apply jsstring_eqb_eq. reflexivity. }
  rewrite Hfind. cbn [fst snd].
  assert (Hs1 : Sessions w1 = Sessions w) by (rewrite Hw1; reflexivity).
  rewrite Hs1. split; [reflexivity|].
  rewrite findSession_unfold. cbn [Sessions Users].
  rewrite findOne_app_new; [|now apply no_such_session|apply Z.eqb_refl].
  cbn [snd Session.createdAt Session.UserId].
  destruct (Z.gtb_spec (getSecondsBetween created now) timeout); [lia|].
  rewrite Hw1 at 1. cbn [Users].
  rewrite lookup_app_r, Nat.sub_diag by lia. cbn [lookup list_lookup new_user User.access].
  now destruct (Access_eqb (default UNVERIFIED access) UNVERIFIED).
Qed.

End Users_facts.

(** X14.  What [setEphemeral] stores is what the next lookup returns: when
    one row carries the session id and [findSession] accepts it, then
    after [setEphemeral] on that id [findSession] accepts it as before and
    returns the row with the ephemeral and the secret that were given. *)
Theorem setEphemeral_then_findSession
    (w : World) (sid timeout now : Z) (i : nat) (row : Session.t) (e k : Buffer) :
  Sessions w !! i = Some row ->
  Session.session row = sid ->
  Session.ephemeral row = None ->
  Session.secret row = None ->
  (forall (j : nat) (r : Session.t),
     Sessions w !! j = Some r -> Session.session r = sid -> j = i) ->
  fst (findSession sid timeout now w) = Ok (i, row) ->
  fst (findSession sid timeout now (snd (setEphemeral sid e k w)))
  = Ok (i, Session.mk sid (Some e) (Some k) (Session.createdAt row) (Session.UserId row)).
Proof.
  intros Hrow Hsid He Hk Huniq Hfound.
  set (written := Session.mk sid (Some e) (Some k) (Session.createdAt row)
                    (Session.UserId row)).
  assert (Hrun : setEphemeral sid e k w
                 = (Ok (i, written),
                    mkWorld (Users w) (<[i := written]> (Sessions w)) (Profiles w)
                      (entropy w))).
  { rewrite setEphemeral_unfold.
    rewrite (findOne_first (unset_session sid) (Sessions w) i row); [| exact Hrow | |].
    - unfold Session_update, Session_save. cbn [fst snd]. subst written. now rewrite Hsid.
    - unfold unset_session. rewrite Hsid, He, Hk, Z.eqb_refl. reflexivity.
    - intros j r Hj Hr. unfold unset_session.
      destruct (Z.eqb_spec (Session.session r) sid) as [Heq|]; [|reflexivity].
      apply (Huniq j r Hr) in Heq. lia. }
  rewrite Hrun. cbn [snd]. rewrite findSession_unfold in *. cbn [Sessions Users].
  assert (Hi : (i < length (Sessions w))%nat) by (eapply lookup_lt_Some; exact Hrow).
  assert (Hbefore : findOne (fun r => Session.session r =? sid) (Sessions w) = Some (i, row)).
  { apply findOne_first; [exact Hrow|now apply Z.eqb_eq|].
    intros j r Hj Hr. apply Z.eqb_neq. intros Heq. apply (Huniq j r Hr) in Heq. lia. }
  assert (Hafter : findOne (fun r => Session.session r =? sid) (<[i := written]> (Sessions w))
                   = Some (i, written)).
  { apply findOne_first; [now apply list_lookup_insert_eq|apply Z.eqb_refl|].
    intros j r Hj Hr. rewrite list_lookup_insert_ne in Hr by lia.
    apply Z.eqb_neq. intros Heq. apply (Huniq j r Hr) in Heq. lia. }
  rewrite Hbefore in Hfound. rewrite Hafter.
  cbn [snd written Session.createdAt Session.UserId] in *.
  destruct (getSecondsBetween (Session.createdAt row) now >? timeout); [discriminate|].
  destruct (Session.UserId row) as [id|]; [|discriminate].
  destruct (Users w !! id) as [user|]; [|discriminate].
  destruct (Access_eqb (User.access user) UNVERIFIED); [discriminate|]. reflexivity.
Qed.

(** ** What every history keeps *)

Lemma setEphemeral_Sessions (sid : Z) (e k : Buffer) (w : World) :
  Sessions (snd (setEphemeral sid e k w)) =
  match findOne (unset_session sid) (Sessions w) with
  | Some (j, r) =>
      <[j := Session.mk (Session.session r) (Some e) (Some k) (Session.createdAt r)
               (Session.UserId r)]> (Sessions w)
  | None => Sessions w
  end.
Proof.
  rewrite setEphemeral_unfold. now destruct (findOne _ _) as [[j r]|].
Qed.

Section History_facts.
Context `{Env}.

Lemma savePassword_Sessions (id : nat) (password : jsstring) (w : World) :
  Sessions (snd (savePassword id password w)) = Sessions w.
Proof. unfold savePassword, then_, User_findById. now destruct (Users w !! id). Qed.

Lemma saveAccess_Sessions (id : nat) (level : Access) (w : World) :
  Sessions (snd (saveAccess id level w)) = Sessions w.
Proof. unfold saveAccess, then_, User_findById. now destruct (Users w !! id). Qed.

Lemma saveEmail_Sessions (id : nat) (email : jsstring) (w : World) :
  Sessions (snd (saveEmail id email w)) = Sessions w.
Proof. unfold saveEmail, then_, User_findById. now destruct (Users w !! id). Qed.

Lemma newSession_Sessions (username : jsstring) (now : Z) (w : World) :
  exists user : option nat,
    Sessions (snd (newSession username now w)) =
    Sessions w ++ [Session.mk (le_value (draw 4 w)) None None now user] /\
    forall id, user = Some id -> (id < length (Users w))%nat.
Proof.
  rewrite newSession_run.
  destruct (findOne _ (Users w)) as [[i u]|] eqn:Hf; cbn [fst snd Sessions].
  - exists (Some i). split; [reflexivity|]. intros id [= <-].
    apply findOne_Some in Hf as (Hi & _). now apply lookup_lt_Some in Hi.
  - exists None. split; [reflexivity|]. discriminate.
Qed.

Lemma exec_Users_length (o : op) (w : World) :
  (length (Users w) <= length (Users (exec o w)))%nat.
Proof.
  destruct o; cbn [exec].
  - rewrite addUser_Users, length_app. lia.
  - rewrite savePassword_Users. destruct (Users w !! id); rewrite ?length_insert; lia.
  - rewrite saveAccess_Users. destruct (Users w !! id); rewrite ?length_insert; lia.
  - rewrite saveEmail_Users. destruct (Users w !! id); rewrite ?length_insert; lia.
  - rewrite newSession_Users. lia.
  - rewrite findSession_world. lia.
  - rewrite setEphemeral_Users. lia.
Qed.

(** The cases of a session row over one operation. *)
Lemma exec_Sessions (o : op) (w : World) :
  Sessions (exec o w) = Sessions w \/
  (exists (now : Z) (user : option nat),
     Sessions (exec o w) = Sessions w ++ [Session.mk (le_value (draw 4 w)) None None now user] /\
     forall id, user = Some id -> (id < length (Users w))%nat) \/
  (exists (j : nat) (r : Session.t) (e k : Buffer),
     Sessions w !! j = Some r /\ Session.ephemeral r = None /\ Session.secret r = None /\
     Sessions (exec o w) =
     <[j := Session.mk (Session.session r) (Some e) (Some k) (Session.createdAt r)
              (Session.UserId r)]> (Sessions w)).
Proof.
  destruct o; cbn [exec].
  - left. now rewrite addUser_run.
  - left. apply savePassword_Sessions.
  - left. apply saveAccess_Sessions.
  - left. apply saveEmail_Sessions.
  - right. left. destruct (newSession_Sessions username now w) as (user & Hs & Hu). eauto.
  - left. now rewrite findSession_world.
  - rewrite setEphemeral_Sessions.
    destruct (findOne _ (Sessions w)) as [[j r]|] eqn:Hf; [|now left].
    right. right. apply findOne_Some in Hf as (Hj & HP & _).
    unfold unset_session in HP.
    exists j, r, ephemeral, secret. split; [exact Hj|].
    destruct (Session.ephemeral r), (Session.secret r);
      cbn in HP; rewrite ?andb_false_r in HP; try discriminate. auto.
Qed.

(** X15.  In every database that the operations produce, each session row
    has an id of 32 bits, has its ephemeral and its secret both set or
    both unset, and, if a user is attached to it, that user exists. *)
Theorem reachable_sessions_sound (w : World) :
  reachable w -> Forall (session_ok w) (Sessions w).
Proof.
  induction 1 as [entropy|o w Hw IH]; [constructor|].
  pose proof (exec_Users_length o w) as Hlen.
  assert (Hmono : forall r, session_ok w r -> session_ok (exec o w) r).
  { intros r (H1 & H2 & H3). repeat split; try tauto.
    intros id Hid. specialize (H3 id Hid). lia. }
  destruct (exec_Sessions o w)
    as [->|[(now & user & -> & Huser)|(j & r & e & k & Hj & He & Hk & ->)]].
  - eapply Forall_impl; [exact IH|exact Hmono].
  - apply Forall_app. split; [eapply Forall_impl; [exact IH|exact Hmono]|].
    constructor; [|constructor]. repeat split; cbn; try tauto.
    + apply draw_uint32.
    + apply draw_uint32.
    + intros id Hid. specialize (Huser id Hid). lia.
  - apply Forall_insert; [eapply Forall_impl; [exact IH|exact Hmono]|].
    pose proof (Forall_lookup_1 _ _ _ _ IH Hj) as (H1 & H2 & H3).
    repeat split; cbn; try tauto; try discriminate.
    intros id Hid. specialize (H3 id Hid). lia.
Qed.







Lemma exec_keeps_usernames (o : op) (w : World) (i : nat) (u : User.t) :
  Users w !! i = Some u ->
  exists u' : User.t,
    Users (exec o w) !! i = Some u' /\ User.username u' = User.username u.
Proof.
  intros Hu. assert (Hi : (i < length (Users w))%nat) by (eapply lookup_lt_Some; exact Hu).
  assert (Hupd : forall (id : nat) (v : User.t),
             (forall x, Users w !! id = Some x -> User.username v = User.username x) ->
             exists u', <[id := v]> (Users w) !! i = Some u' /\
                        User.username u' = User.username u).
  { intros id v Hv. destruct (decide (id = i)) as [->|Hne].
    - exists v. split; [now apply list_lookup_insert_eq|]. now apply Hv.
    - exists u. now rewrite list_lookup_insert_ne. }
  destruct o; cbn [exec].
  - exists u. rewrite addUser_Users. split; [now apply lookup_app_l_Some|reflexivity].
  - rewrite savePassword_Users. destruct (Users w !! id) as [x|] eqn:Hx; [|eauto].
    apply Hupd. intros x0 Hx0. rewrite Hx in Hx0. now injection Hx0 as <-.
  - rewrite saveAccess_Users. destruct (Users w !! id) as [x|] eqn:Hx; [|eauto].
    apply Hupd. intros x0 Hx0. rewrite Hx in Hx0. now injection Hx0 as <-.
  - rewrite saveEmail_Users. destruct (Users w !! id) as [x|] eqn:Hx; [|eauto].
    apply Hupd. intros x0 Hx0. rewrite Hx in Hx0. now injection Hx0 as <-.
  - rewrite newSession_Users. eauto.
  - rewrite findSession_world. eauto.
  - rewrite setEphemeral_Users. eauto.
Qed.

Lemma reachable_lowered (w : World) :
  reachable w ->
  Forall (fun u => toLowerCase (User.username u) = User.username u) (Users w).
Proof.
  induction 1 as [entropy|o w Hw IH]; [constructor|].
  apply Forall_lookup_2. intros i u' Hu'.
  destruct (Users w !! i) as [u|] eqn:Hu.
  - destruct (exec_keeps_usernames o w i u Hu) as (u'' & Hu'' & Hname).
    rewrite Hu' in Hu''. injection Hu'' as <-.
    rewrite Hname. exact (Forall_lookup_1 _ _ _ _ IH Hu).
  - apply lookup_ge_None in Hu.
    destruct o; cbn [exec] in Hu'.
    + rewrite addUser_Users, lookup_app_r in Hu' by exact Hu.
      destruct (i - length (Users w))%nat; [|discriminate].
      injection Hu' as <-. cbn. apply toLowerCase_idem.
    + rewrite savePassword_Users in Hu'.
      destruct (Users w !! id); apply lookup_lt_Some in Hu';
        rewrite ?length_insert in Hu'; lia.
    + rewrite saveAccess_Users in Hu'.
      destruct (Users w !! id); apply lookup_lt_Some in Hu';
        rewrite ?length_insert in Hu'; lia.
    + rewrite saveEmail_Users in Hu'.
      destruct (Users w !! id); apply lookup_lt_Some in Hu';
        rewrite ?length_insert in Hu'; lia.
    + rewrite newSession_Users in Hu'. apply lookup_lt_Some in Hu'. lia.
    + rewrite findSession_world in Hu'. apply lookup_lt_Some in Hu'. lia.
    + rewrite setEphemeral_Users in Hu'. apply lookup_lt_Some in Hu'. lia.
Qed.

(** X17.  Usernames are stored lowered and stay: in every database that
    the operations produce each stored username is its own lowering, and
    no operation deletes a user row or changes its username. *)
Theorem usernames_lowered_and_kept (o : op) (w : World) :
  reachable w ->
  Forall (fun u => toLowerCase (User.username u) = User.username u) (Users w) /\
  forall (i : nat) (u : User.t),
    Users w !! i = Some u ->
    exists u' : User.t,
      Users (exec o w) !! i = Some u' /\ User.username u' = User.username u.
Proof.
  intros Hw. split; [now apply reachable_lowered|apply exec_keeps_usernames].
Qed.

End History_facts.

(** ** Time *)

Lemma ToInt32_small (x : Z) : - 2 ^ 31 <= x < 2 ^ 31 -> ToInt32 x = x.
Proof.
  intros Hx. unfold ToInt32. rewrite Z.mod_small; [lia|].
  change (2 ^ 32) with (2 ^ 31 + 2 ^ 31). lia.
Qed.

Lemma between_small (unit this date : Z) :
  0 < unit -> - (2 ^ 31 * unit) < date - this < 2 ^ 31 * unit ->
  ToInt32 (Z.quot (date - this) unit) = Z.quot (date - this) unit /\
  (0 <= date - this -> Z.quot (date - this) unit = (date - this) / unit) /\
  (date - this <= 0 -> Z.quot (date - this) unit <= 0).
Proof.
  intros Hunit Hd. set (d := date - this) in *.
  assert (Hq : - 2 ^ 31 <= Z.quot d unit < 2 ^ 31).
  { destruct (Z.le_gt_cases 0 d) as [Hpos|Hneg].
    - rewrite Z.quot_div_nonneg by lia. split.
      + pose proof (Z.div_pos d unit Hpos Hunit). lia.
      + apply Z.div_lt_upper_bound; lia.
    - rewrite <- (Z.opp_involutive d), Z.quot_opp_l by lia.
      rewrite Z.quot_div_nonneg by lia.
      assert (0 <= - d / unit < 2 ^ 31); [|lia].
      split; [apply Z.div_pos; lia|apply Z.div_lt_upper_bound; lia]. }
  split; [now apply ToInt32_small|]. split.
  - intros Hpos. now apply Z.quot_div_nonneg.
  - intros Hneg. rewrite <- (Z.opp_involutive d), Z.quot_opp_l by lia.
    rewrite Z.quot_div_nonneg by lia.
    assert (0 <= - d / unit) by (apply Z.div_pos; lia). lia.
Qed.

(** X18.  The timeout in milliseconds.  For the oldest row stored under a
    session id, created less than 2^31 seconds before or after now, and a
    timeout that is not negative, [findSession] on the id fails with
    "Session has expired" exactly when at least timeout + 1 whole seconds
    have passed since the creation: the session lives up to one second
    longer than the timeout, and one created in the future of the clock
    is never expired. *)
Theorem findSession_expires_after
    (w : World) (session timeout now : Z) (i : nat) (row : Session.t) :
  Sessions w !! i = Some row ->
  Session.session row = session ->
  (forall (j : nat) (r : Session.t),
     (j < i)%nat -> Sessions w !! j = Some r -> Session.session r <> session) ->
  0 <= timeout ->
  - (2 ^ 31 * 1000) < now - Session.createdAt row < 2 ^ 31 * 1000 ->
  (findSession session timeout now w = (Throw (Error "Session has expired"), w)
   <-> 1000 * (timeout + 1) <= now - Session.createdAt row).
Proof.
  intros Hrow Hsid Holdest Htimeout Hrange.
  pose proof (oldest_is_found _ _ _ _ Hrow Hsid Holdest) as Hfound.
  rewrite findSession_unfold, Hfound. cbn [snd].
  destruct (between_small 1000 (Session.createdAt row) now) as (Hint & Hpos & Hneg);
    [lia|exact Hrange|].
  unfold getSecondsBetween. rewrite Hint.
  set (d := now - Session.createdAt row) in *.
  destruct (Z.gtb_spec (Z.quot d 1000) timeout) as [Hgt|Hle].
  - split; [intros _|reflexivity].
    destruct (Z.le_gt_cases 0 d) as [Hd|Hd]; [|specialize (Hneg ltac:(lia)); lia].
    rewrite Hpos in Hgt by exact Hd.
    pose proof (Z.div_mod d 1000 ltac:(lia)). pose proof (Z.mod_pos_bound d 1000 ltac:(lia)).
    lia.
  - split.
    + intros Heq. exfalso.
      destruct (Session.UserId row) as [id|]; [|discriminate].
      destruct (Users w !! id) as [user|]; [|discriminate].
      destruct (Access_eqb (User.access user) UNVERIFIED); discriminate.
    + intros Hd. exfalso.
      rewrite Hpos in Hle by lia.
      pose proof (Z.div_mod d 1000 ltac:(lia)).
      pose proof (Z.mod_pos_bound d 1000 ltac:(lia)). lia.
Qed.

(** ** Logging in *)

Lemma hex_digit_inj (a b : Z) :
  0 <= a < 16 -> 0 <= b < 16 -> hex_digit a = hex_digit b -> a = b.
Proof.
  unfold hex_digit. intros Ha Hb.
  destruct (Z.ltb_spec a 10), (Z.ltb_spec b 10); lia.
Qed.

Lemma is_buffer_cons (b : Z) (buf : Buffer) :
  is_buffer (b :: buf) = true -> 0 <= b < 256 /\ is_buffer buf = true.
Proof.
  unfold is_buffer, is_byte. cbn [forallb]. intros Hb.
  apply andb_prop in Hb as [Hb Hbuf]. apply andb_prop in Hb as [H0 H1].
  apply Z.leb_le in H0. apply Z.ltb_lt in H1. auto.
Qed.

Lemma toString_hex_inj (a b : Buffer) :
  is_buffer a = true -> is_buffer b = true -> toString_hex a = toString_hex b -> a = b.
Proof.
  revert b. induction a as [|x a IH]; intros [|y b] Ha Hb Heq; try discriminate;
    [reflexivity|].
  apply is_buffer_cons in Ha as [Hx Ha]. apply is_buffer_cons in Hb as [Hy Hb].
  unfold toString_hex in Heq. cbn [flat_map app] in Heq.
  injection Heq as Hhi Hlo Hrest.
  apply hex_digit_inj in Hhi;
    [|split; [apply Z.div_pos; lia|apply Z.div_lt_upper_bound; lia]
     |split; [apply Z.div_pos; lia|apply Z.div_lt_upper_bound; lia]].
  apply hex_digit_inj in Hlo; [|apply Z.mod_pos_bound; lia|apply Z.mod_pos_bound; lia].
  f_equal; [|now apply IH].
  rewrite (Z.div_mod x 16), (Z.div_mod y 16) by lia. congruence.
Qed.

Section Login_facts.
Context `{Env}.

(** X19.  [verifyUser] accepts a password exactly by its verifier.  When
    the first row whose username or e-mail is the lowered identity holds a
    verifier, and the verifier of the password under the salt and the
    lowered username of that row is computed, both buffers of bytes, the
    row is returned if the two are equal and the result is
    [LoginAuthFailed] if they differ; when no row has that username or
    e-mail the result is [UserNotFound] with the identity as typed. *)
Theorem verifyUser_compares_verifiers (identity password : jsstring) (w : World) :
  match findOne (by_identity (toLowerCase identity)) (Users w) with
  | None =>
      verifyUser identity password w = inr (Thrown (UserNotFound "User not found" identity))
  | Some data =>
      let computed :=
        computeVerifier (params "2048") (User.salt (snd data))
          (Buffer_from_ascii (toLowerCase (User.username (snd data))))
          (Buffer_from_ascii password) in
      is_buffer computed = true -> is_buffer (User.verifier (snd data)) = true ->
      verifyUser identity password w =
      if bool_decide (computed = User.verifier (snd data)) then inl data
      else inr (LoginAuthFailed "Login failed")
  end.
Proof.
  unfold verifyUser.
  destruct (findOne _ (Users w)) as [data|]; [|reflexivity].
  cbv zeta. intros Hc Hv.
  case_bool_decide as Heq.
  - rewrite Heq. unfold jsstring_eqb. now rewrite bool_decide_eq_true_2.
  - unfold jsstring_eqb. rewrite bool_decide_eq_false_2; [reflexivity|].
    intros Hhex. apply Heq. now apply toString_hex_inj.
Qed.

Lemma no_such_identity (identity : jsstring) (rows : list User.t) :
  (forall (j : nat) (r : User.t),
     rows !! j = Some r -> User.username r <> identity /\ User.email r <> identity) ->
  forall (j : nat) (r : User.t), rows !! j = Some r -> by_identity identity r = false.
Proof.
  intros Hno j r Hr. destruct (Hno j r Hr) as [Hu He]. unfold by_identity.
  apply jsstring_eqb_neq in Hu, He. now rewrite Hu, He.
Qed.

(** X20.  The password a user was added with logs the user in: after
    [addUser], when no older row has the lowered name as its username or
    as its e-mail, [verifyUser] with the name as typed and that password
    returns the new row. *)
Theorem addUser_then_verifyUser
    (username password email : jsstring) (access : option Access) (w : World) :
  (forall (j : nat) (r : User.t),
     Users w !! j = Some r ->
     User.username r <> toLowerCase username /\ User.email r <> toLowerCase username) ->
  verifyUser username password (snd (addUser username password email access w))
  = inl (length (Users w), new_user username password email access w).
Proof.
  intros Hfree. rewrite addUser_run. unfold verifyUser. cbn [snd Users].
  rewrite findOne_app_new; [|now apply no_such_identity|].
  - cbn [snd new_user User.username User.salt User.verifier].
    rewrite toLowerCase_idem. unfold jsstring_eqb.
    now rewrite bool_decide_eq_true_2.
  - unfold by_identity. cbn [new_user User.username].
    unfold jsstring_eqb. now rewrite bool_decide_eq_true_2.
Qed.

End Login_facts.

Lemma findOne_insert {A : Type} (P Q : A -> bool) (rows : list A) (i : nat) (r r' : A) :
  findOne P rows = Some (i, r) ->
  (forall (k : nat) (x : A), (k < i)%nat -> rows !! k = Some x -> P x = false -> Q x = false) ->
  Q r' = true ->
  findOne Q (<[i := r']> rows) = Some (i, r').
Proof.
  intros Hf Hbefore Hr'. apply findOne_Some in Hf as (Hi & _ & Hfirst).
  apply findOne_first; [|exact Hr'|].
  - apply list_lookup_insert_eq. now apply lookup_lt_Some in Hi.
  - intros k x Hk Hx. rewrite list_lookup_insert_ne in Hx by lia.
    apply (Hbefore k x Hk Hx). now apply (Hfirst k).
Qed.

(** *** The camanage command userpass *)

Lemma base64_char_ascii (n : Z) : 0 <= n < 64 -> 1 <= base64_char n <= 127.
Proof.
  intros Hn. unfold base64_char.
  destruct (Z.ltb_spec n 26); [lia|]. destruct (Z.ltb_spec n 52); [lia|].
  destruct (Z.ltb_spec n 62); [lia|]. destruct (Z.eqb_spec n 62); lia.
Qed.

Lemma base64_group (a b c : Z) (rest : jsstring) :
  0 <= a < 256 -> 0 <= b < 256 -> 0 <= c < 256 ->
  is_username
    (base64_char (a / 4) :: base64_char (a mod 4 * 16 + b / 16)
     :: base64_char (b mod 16 * 4 + c / 64) :: base64_char (c mod 64) :: rest)
  = is_username rest.
Proof.
  intros Ha Hb Hc. unfold is_username. cbn [forallb].
  assert (Hok : forall n, 0 <= n < 64 ->
            (1 <=? base64_char n) && (base64_char n <=? 127) = true).
  { intros n Hn. apply base64_char_ascii in Hn.
    apply andb_true_intro. split; [apply Z.leb_le|apply Z.leb_le]; lia. }
  rewrite !Hok; [reflexivity| | | |]; Z.div_mod_to_equations; lia.
Qed.

Lemma draw_bytes (n : nat) (w : World) : Forall (fun b => 0 <= b < 256) (draw n w).
Proof.
  unfold draw. apply Forall_map, Forall_forall. intros i _. cbn.
  apply Z.mod_pos_bound. lia.
Qed.

Lemma base64_of_9 (w : World) :
  length (toString_base64 (draw 9 w)) = 12%nat /\
  is_username (toString_base64 (draw 9 w)) = true.
Proof.
  split; [reflexivity|].
  pose proof (draw_bytes 9 w) as Hb. unfold draw in *. cbn [seq map] in *.
  repeat match goal with
         | Hb : Forall _ (_ :: _) |- _ => apply Forall_cons in Hb as [? Hb]
         end.
  cbn [toString_base64]. now rewrite !base64_group by assumption.
Qed.

Section Userpass_facts.
Context `{Env}.

(** X21.  The password that the camanage command userpass prints is the
    one that logs the user in.  When a row is stored under the lowered
    name, [userpass] succeeds with that row, its salt and verifier
    replaced and nothing else, and the base64 form of nine random bytes:
    twelve characters, all of them ASCII and none NUL.  When no row before
    that one has the lowered name as its e-mail, [verifyUser] with the
    name as typed and the password printed then returns the saved row. *)
Theorem userpass_then_verifyUser (user : jsstring) (w : World) (found : instance User.t) :
  findOne (fun u => jsstring_eqb (User.username u) (toLowerCase user)) (Users w)
  = Some found ->
  (forall (j : nat) (r : User.t),
     (j < fst found)%nat -> Users w !! j = Some r -> User.email r <> toLowerCase user) ->
  let password := toString_base64 (draw 9 w) in
  let w' := snd (userpass user w) in
  exists saved : User.t,
    fst (userpass user w) = Ok ((fst found, saved), password) /\
    length password = 12%nat /\ is_username password = true /\
    User.username saved = User.username (snd found) /\
    User.email saved = User.email (snd found) /\
    User.access saved = User.access (snd found) /\
    User.active saved = User.active (snd found) /\
    Users w' = <[fst found := saved]> (Users w) /\
    Sessions w' = Sessions w /\
    verifyUser user password w' = inl (fst found, saved).
Proof.
  intros Hf Hmail password w'. destruct found as [i u]. cbn [fst snd] in *.
  subst w'. unfold userpass, then_, User_findOne, randomBytes, setPassword, then_,
    randomBytes, resolve, User_save.
  rewrite Hf. cbn [fst snd Users Sessions Profiles entropy User.username User.email
    User.access User.active].
  eexists. split; [reflexivity|].
  destruct (base64_of_9 w) as [Hlen Hascii].
  do 7 (split; [first [exact Hlen|exact Hascii|reflexivity]|]).
  unfold verifyUser. cbn [Users].
  pose proof (findOne_Some _ _ _ _ Hf) as (_ & Hname & _).
  apply jsstring_eqb_eq in Hname.
  erewrite (findOne_insert _ (by_identity (toLowerCase user))); [|exact Hf| |].
  - cbn [snd User.username User.salt User.verifier]. unfold jsstring_eqb.
    now rewrite bool_decide_eq_true_2.
  - intros k x Hk Hx Hx'. unfold by_identity. rewrite Hx'. cbn [orb].
    apply jsstring_eqb_neq. now apply (Hmail k).
  - unfold by_identity. cbn [User.username]. apply orb_true_intro. left.
    now apply jsstring_eqb_eq.
Qed.

End Userpass_facts.

(** ** Verification and reset tokens *)

Lemma has_user_true (id : nat) (r : Token.t) :
  has_user id r = true <-> Token.UserId r = Some id.
Proof.
  unfold has_user. destruct (Token.UserId r) as [i|]; [|now split].
  rewrite Nat.eqb_eq. split; congruence.
Qed.

Lemma has_token_true (token : jsstring) (r : Token.t) :
  has_token token r = true <-> Token.token r = Some token.
Proof.
  unfold has_token. destruct (Token.token r) as [s|]; [|now split].
  rewrite jsstring_eqb_eq. split; congruence.
Qed.

Lemma has_token_false (token : jsstring) (r : Token.t) :
  has_token token r = false <-> Token.token r <> Some token.
Proof.
  rewrite <- has_token_true. destruct (has_token token r); split; congruence.
Qed.

Lemma fresh_found (id : nat) (uuid : jsstring) (rows : list Token.t) :
  (forall (k : nat) (r : Token.t), rows !! k = Some r -> Token.token r <> Some uuid) ->
  forall d : instance Token.t,
    findOne (has_user id) rows = Some d -> Token.token (snd d) <> Some uuid.
Proof.
  intros Hfresh [j r] Hd. apply findOne_Some in Hd as (Hd & _). now apply (Hfresh j).
Qed.

(** What [findOrCreate] followed by [update] leaves in a table, when the
    token is not the one the user's row holds. *)
Lemma issue_token (id : nat) (now : Z) (uuid : jsstring) (rows : list Token.t) :
  (forall d : instance Token.t,
     findOne (has_user id) rows = Some d -> Token.token (snd d) <> Some uuid) ->
  exists (i : nat) (rows' : list Token.t),
    let row := Token.mk (Some uuid) (Some id) now in
    (let '(found, _, rows1) := findOrCreate id now rows in
     Token_update found uuid now rows1) = ((i, row), rows') /\
    rows' !! i = Some row /\
    (forall k : nat, k <> i -> rows' !! k = rows !! k) /\
    findOne (has_user id) rows' = Some (i, row) /\
    (forall d : instance Token.t,
       findOne (has_user id) rows = Some d -> i = fst d /\ length rows' = length rows).
Proof.
  intros Hnew. unfold findOrCreate, Token_update.
  destruct (findOne (has_user id) rows) as [[i r]|] eqn:Hf;
    cbn [fst snd has_token Token.token].
  - pose proof (findOne_Some _ _ _ _ Hf) as (Hi & Hid & Hfirst).
    apply has_user_true in Hid. rewrite Hid.
    replace (has_token uuid r) with false
      by (symmetry; apply has_token_false; exact (Hnew (i, r) eq_refl)).
    exists i, (<[i := Token.mk (Some uuid) (Some id) now]> rows).
    assert (Hlt : (i < length rows)%nat) by now apply lookup_lt_Some in Hi.
    repeat split.
    + now apply list_lookup_insert_eq.
    + intros k Hk. now apply list_lookup_insert_ne.
    + apply (findOne_insert _ _ _ _ _ _ Hf); [auto|now apply has_user_true].
    + match goal with E : Some _ = Some _ |- _ => now injection E as <- end.
    + apply length_insert.
  - exists (length rows),
      (<[length rows := Token.mk (Some uuid) (Some id) now]>
         (rows ++ [Token.mk None (Some id) now])).
    assert (Hnone : forall (k : nat) (x : Token.t),
              rows !! k = Some x -> has_user id x = false).
    { intros k x Hx. destruct (has_user id x) eqn:Hu; [|reflexivity].
      exfalso. revert Hf. unfold findOne.
      assert (Hex : exists j y, rows !! j = Some y /\ has_user id y = true) by eauto.
      clear -Hex. generalize 0%nat.
      induction rows as [|a rows IH]; intros n.
      - destruct Hex as (j & y & Hy & _). now rewrite lookup_nil in Hy.
      - cbn [findOne_from]. destruct (has_user id a) eqn:Ha; [discriminate|].
        apply IH. destruct Hex as ([|j] & y & Hy & Hu).
        + injection Hy as ->. congruence.
        + eauto. }
    repeat split.
    + rewrite insert_app_r_alt, Nat.sub_diag by lia.
      rewrite lookup_app_r by lia. now rewrite Nat.sub_diag.
    + intros k Hk. rewrite list_lookup_insert_ne by lia.
      destruct (Nat.lt_ge_cases k (length rows)) as [Hlt|Hge].
      * now rewrite lookup_app_l.
      * rewrite (lookup_ge_None_2 rows) by lia.
        apply lookup_ge_None_2. rewrite length_app. cbn. lia.
    + rewrite insert_app_r_alt, Nat.sub_diag by lia. cbn [insert list_insert].
      apply findOne_app_new; [exact Hnone|]. now apply has_user_true.
    + discriminate.
    + discriminate.
Qed.

Lemma newVerify_run (user : instance User.t) (now : Z) (uuid : jsstring) (t : Tokens) :
  newVerify user now uuid t =
  (let '(row, rows) :=
     (let '(found, _, rows1) := findOrCreate (fst user) now (Verifies t) in
      Token_update found uuid now rows1) in
   (row, mkTokens rows (Resets t))).
Proof.
  unfold newVerify. destruct (findOrCreate _ _ _) as [[found created] rows1].
  reflexivity.
Qed.

Lemma newReset_run (user : instance User.t) (now : Z) (uuid : jsstring) (t : Tokens) :
  newReset user now uuid t =
  (let '(row, rows) :=
     (let '(found, _, rows1) := findOrCreate (fst user) now (Resets t) in
      Token_update found uuid now rows1) in
   (row, mkTokens (Verifies t) rows)).
Proof.
  unfold newReset. destruct (findOrCreate _ _ _) as [[found created] rows1].
  reflexivity.
Qed.

Lemma getDaysBetween_zero (this date : Z) :
  - (2 ^ 31 * 86400000) < date - this < 2 ^ 31 * 86400000 ->
  (getDaysBetween this date = 0 <-> - 86400000 < date - this < 86400000).
Proof.
  intros Hd. unfold getDaysBetween.
  destruct (between_small 86400000 this date ltac:(lia) Hd) as (-> & _ & _).
  set (d := date - this) in *.
  destruct (Z.le_gt_cases 0 d) as [Hpos|Hneg].
  - rewrite Z.quot_div_nonneg by lia. split.
    + intros Hz. pose proof (Z.div_mod d 86400000 ltac:(lia)).
      pose proof (Z.mod_pos_bound d 86400000 ltac:(lia)). lia.
    + intros Hlt. apply Z.div_small. lia.
  - rewrite <- (Z.opp_involutive d), Z.quot_opp_l by lia.
    rewrite Z.quot_div_nonneg by lia. split.
    + intros Hz. pose proof (Z.div_mod (- d) 86400000 ltac:(lia)).
      pose proof (Z.mod_pos_bound (- d) 86400000 ltac:(lia)). lia.
    + intros Hlt. rewrite Z.div_small by lia. reflexivity.
Qed.

Lemma fresh_not_found (uuid : jsstring) (rows : list Token.t) (n : nat) :
  (forall (k : nat) (r : Token.t), rows !! k = Some r -> Token.token r <> Some uuid) ->
  forall (k : nat) (r : Token.t), (k < n)%nat -> rows !! k = Some r ->
    has_token uuid r = false.
Proof. intros Hfresh k r _ Hr. apply has_token_false. now apply (Hfresh k). Qed.

(** X22.  A token that was just issued is found.  [newVerify] gives the
    user's row of the table Verify the token [uuid], creating the row when
    the user has none, and leaves the table Reset alone; when no row held
    that token before, [findVerify] of it less than a day later returns
    the row.  [newReset] and [findReset] do the same with the tables
    exchanged. *)
Theorem tokens_issued_are_found
    (user : instance User.t) (now later : Z) (uuid : jsstring) (t : Tokens) :
  - 86400000 < later - now < 86400000 ->
  ((forall (k : nat) (r : Token.t),
      Verifies t !! k = Some r -> Token.token r <> Some uuid) ->
   let issued := newVerify user now uuid t in
   snd (fst issued) = Token.mk (Some uuid) (Some (fst user)) now /\
   Verifies (snd issued) !! fst (fst issued) = Some (snd (fst issued)) /\
   Resets (snd issued) = Resets t /\
   findVerify uuid later (snd issued) = inl (fst issued)) /\
  ((forall (k : nat) (r : Token.t),
      Resets t !! k = Some r -> Token.token r <> Some uuid) ->
   let issued := newReset user now uuid t in
   snd (fst issued) = Token.mk (Some uuid) (Some (fst user)) now /\
   Resets (snd issued) !! fst (fst issued) = Some (snd (fst issued)) /\
   Verifies (snd issued) = Verifies t /\
   findReset uuid later (snd issued) = inl (fst issued)).
Proof.
  intros Hday.
  assert (Hzero : getDaysBetween now later = 0).
  { apply getDaysBetween_zero; [|exact Hday]. change (2 ^ 31) with 2147483648. lia. }
  split; intros Hfresh issued; subst issued.
  - rewrite newVerify_run.
    destruct (issue_token (fst user) now uuid (Verifies t) (fresh_found _ _ _ Hfresh))
      as (i & rows' & -> & Hi & Hother & _ & _).
    cbn [fst snd Verifies Resets]. repeat split; [exact Hi|].
    unfold findVerify. cbn [Verifies].
    rewrite (findOne_first (has_token uuid) rows' i _ Hi).
    + cbn [snd Token.updatedAt]. now rewrite Hzero.
    + now apply has_token_true.
    + intros k r Hk Hr. rewrite Hother in Hr by lia.
      now apply (fresh_not_found uuid (Verifies t) i Hfresh k).
  - rewrite newReset_run.
    destruct (issue_token (fst user) now uuid (Resets t) (fresh_found _ _ _ Hfresh))
      as (i & rows' & -> & Hi & Hother & _ & _).
    cbn [fst snd Verifies Resets]. repeat split; [exact Hi|].
    unfold findReset. cbn [Resets].
    rewrite (findOne_first (has_token uuid) rows' i _ Hi).
    + cbn [snd Token.updatedAt]. now rewrite Hzero.
    + now apply has_token_true.
    + intros k r Hk Hr. rewrite Hother in Hr by lia.
      now apply (fresh_not_found uuid (Resets t) i Hfresh k).
Qed.

(** X23.  Tokens expire after a day.  For a token that a row holds,
    [findVerify] returns the row exactly when less than 86400000
    milliseconds lie between the last update of the row and now, in
    either direction, and fails with "Verify has expired" otherwise;
    [findReset] does the same on the table Reset. *)
Theorem tokens_expire_after_a_day
    (token : jsstring) (now : Z) (t : Tokens) (row : instance Token.t) :
  - (2 ^ 31 * 86400000) < now - Token.updatedAt (snd row) < 2 ^ 31 * 86400000 ->
  (findOne (has_token token) (Verifies t) = Some row ->
   findVerify token now t =
   if bool_decide (- 86400000 < now - Token.updatedAt (snd row) < 86400000)
   then inl row else inr (VerifyNotFound "Verify has expired")) /\
  (findOne (has_token token) (Resets t) = Some row ->
   findReset token now t =
   if bool_decide (- 86400000 < now - Token.updatedAt (snd row) < 86400000)
   then inl row else inr (ResetNotFound "Reset has expired")).
Proof.
  intros Hd. pose proof (getDaysBetween_zero _ _ Hd) as Hz.
  split; intros Hf; [unfold findVerify|unfold findReset]; rewrite Hf; cbv zeta.
  - case_bool_decide as Hday.
    + apply Hz in Hday. now rewrite Hday.
    + destruct (Z.eqb_spec (getDaysBetween (Token.updatedAt (snd row)) now) 0) as [E|E];
        [now apply Hz in E|reflexivity].
  - case_bool_decide as Hday.
    + apply Hz in Hday. now rewrite Hday.
    + destruct (Z.eqb_spec (getDaysBetween (Token.updatedAt (snd row)) now) 0) as [E|E];
        [now apply Hz in E|reflexivity].
Qed.

(** X24.  A user has one verification token at a time: a second
    [newVerify] for the same user adds no row to the table, and the token
    of the first call, which no other row held, is not found any more. *)
Theorem newVerify_replaces_token
    (user : instance User.t) (now1 now2 later : Z) (uuid1 uuid2 : jsstring) (t : Tokens) :
  (forall (k : nat) (r : Token.t),
     Verifies t !! k = Some r -> Token.token r <> Some uuid1) ->
  uuid1 <> uuid2 ->
  let first := newVerify user now1 uuid1 t in
  let second := newVerify user now2 uuid2 (snd first) in
  fst (fst second) = fst (fst first) /\
  length (Verifies (snd second)) = length (Verifies (snd first)) /\
  findVerify uuid1 later (snd second) = inr (VerifyNotFound "Verify not found").
Proof.
  intros Hfresh Hne first second. subst first second.
  rewrite (newVerify_run user now1).
  destruct (issue_token (fst user) now1 uuid1 (Verifies t) (fresh_found _ _ _ Hfresh))
    as (i & rows1 & -> & Hi & Hother & Hfirst & _).
  cbn [fst snd]. rewrite newVerify_run. cbn [Verifies Resets].
  assert (Hnew : forall d : instance Token.t,
            findOne (has_user (fst user)) rows1 = Some d ->
            Token.token (snd d) <> Some uuid2).
  { intros d Hd. rewrite Hfirst in Hd. injection Hd as <-.
    cbn [snd Token.token]. congruence. }
  destruct (issue_token (fst user) now2 uuid2 rows1 Hnew)
    as (j & rows2 & -> & Hj & Hother2 & Hfirst2 & Hlen).
  cbn [fst snd Verifies].
  destruct (Hlen _ Hfirst) as [Hij Hsame]. cbn [fst] in Hij. subst j.
  repeat split; [exact Hsame|].
  unfold findVerify. cbn [Verifies].
  rewrite findOne_none; [reflexivity|].
  intros k r Hr. apply has_token_false.
  destruct (decide (k = i)) as [->|Hk].
  - rewrite Hj in Hr. injection Hr as <-. cbn. congruence.
  - rewrite Hother2, Hother in Hr by exact Hk. now apply (Hfresh k).
Qed.

(** ** Action types *)

(** X25.  The lookup table of [getPrettyType] does not match the values
    of the [type] column: the type edit has no entry, so it is the one
    type shown as "Unknown action", and the entries editUser and
    editProfile are shown for no type. *)
Theorem getPrettyType_edit_unknown (type : ActionType) :
  (getPrettyType type = "Unknown action" <-> type = edit) /\
  getPrettyType type <> "Edited user data" /\
  getPrettyType type <> "Edited user profile data".
Proof.
  destruct type; vm_compute; repeat split; intros; congruence.
Qed.

(** ** The version 1 codec and the memory it allocates *)

Lemma new_Buffer_Ok (memory : nat -> Z) (n : nat) :
  exists buf, new_Buffer memory (Z.of_nat n) = Ok buf /\ length buf = n.
Proof.
  unfold new_Buffer. destruct (Z.ltb_spec (Z.of_nat n) 0); [lia|].
  eexists. split; [reflexivity|]. now rewrite length_map, length_seq, Nat2Z.id.
Qed.

Lemma chunk (l : list Z) (a : nat) :
  (a <= length l)%nat ->
  exists l1 l2, l = l1 ++ l2 /\ length l1 = a /\ length l2 = (length l - a)%nat.
Proof.
  intros Ha. exists (take a l), (drop a l).
  rewrite take_drop, length_take_le, length_drop by exact Ha. auto.
Qed.

Lemma writeInt32LE_at (pre old post : list Z) (v off : Z) :
  off = blength pre -> length old = 4%nat -> 0 <= v < 2 ^ 31 ->
  writeInt32LE (pre ++ old ++ post) v off = Ok (pre ++ le_bytes 4 v ++ post).
Proof.
  intros Hoff Hold Hv.
  rewrite <- (write_le_at 4 pre old post v off Hoff Hold);
    [|change (2 ^ (8 * Z.of_nat 4)) with (2 ^ 31 + 2 ^ 31); lia].
  unfold writeInt32LE, write_le.
  change (2 ^ (8 * Z.of_nat 4)) with (2 ^ 31 + 2 ^ 31). change (Z.of_nat 4) with 4.
  destruct (Z.ltb_spec v (- 2 ^ 31)); [lia|]. destruct (Z.leb_spec (2 ^ 31) v); [lia|].
  destruct (Z.ltb_spec v 0); [lia|]. destruct (Z.leb_spec (2 ^ 31 + 2 ^ 31) v); [lia|].
  reflexivity.
Qed.

Lemma readInt32LE_small (buf : Buffer) (off v : Z) :
  readUInt32LE buf off = Ok v -> 0 <= v < 2 ^ 31 -> readInt32LE buf off = Ok v.
Proof.
  intros Hread Hv. unfold readInt32LE. rewrite Hread. cbn [result_bind].
  replace (Z.testbit v 31) with false; [reflexivity|].
  symmetry. apply Z.testbit_false; [lia|]. now rewrite Z.div_small.
Qed.

Lemma writeString_over (pre old post : list Z) (str : jsstring) (off : Z) :
  off = blength pre -> length old = S (length str) ->
  writeString (pre ++ old ++ post) str off = Ok (pre ++ Buffer_from_ascii str ++ 0 :: post).
Proof.
  intros -> Hold.
  destruct (chunk old (length str)) as (o1 & o2 & -> & Ho1 & Ho2); [lia|].
  rewrite Hold in Ho2. unfold writeString.
  rewrite <- (app_assoc o1).
  rewrite copy_all_at by (rewrite ?length_Buffer_from_ascii; auto).
  cbn [result_bind]. unfold writeUInt8.
  rewrite (app_assoc pre).
  rewrite (write_le_at 1 _ o2 post 0);
    [|rewrite blength_app; reflexivity|lia|simpl; lia].
  rewrite <- app_assoc. reflexivity.
Qed.

Lemma list_inserts_0_over (k l : list Z) :
  (length k <= length l)%nat -> list_inserts 0 k l = k ++ drop (length k) l.
Proof.
  intros Hk. rewrite <- (take_drop (length k) l) at 1.
  apply list_inserts_0_r. now rewrite length_take_le.
Qed.

(** What [source.copy(target, 0, off, off + n)] leaves in a target of [n]
    bytes: the bytes of the source from [off] on, as far as there are any,
    and then what the target held. *)
Lemma copy_from (source target e : Buffer) (off n : Z) :
  0 <= off -> blength target = n ->
  copy source target 0 off (off + n) = Ok e ->
  e = take (Z.to_nat n) (drop (Z.to_nat off) source)
      ++ drop (length (drop (Z.to_nat off) source)) target.
Proof.
  intros Hoff Hn. unfold copy.
  destruct (0 <? 0) eqn:E0; [discriminate|].
  destruct ((off <? 0) || (blength source <? off)); [discriminate|].
  destruct (off + n <? 0); [discriminate|].
  pose proof (blength_nonneg target).
  destruct (Z.leb_spec (blength target) 0) as [Hz|Hz]; cbn [orb].
  - intros [= <-]. assert (target = []) as ->.
    { destruct target; [reflexivity|]. unfold blength in Hz. cbn in Hz. lia. }
    replace n with 0 by (unfold blength in Hn; cbn in Hn; lia).
    now rewrite drop_nil.
  - destruct (Z.leb_spec (off + n) off); [lia|]. intros [= <-].
    replace (Z.to_nat (off + n - off)) with (Z.to_nat n) by lia.
    change (Z.to_nat 0) with 0%nat.
    set (rest := drop (Z.to_nat off) source).
    assert (Hlen : length target = Z.to_nat n) by (unfold blength in Hn; lia).
    rewrite list_inserts_0_over by (rewrite length_take; lia).
    f_equal. rewrite length_take.
    destruct (Nat.le_ge_cases (Z.to_nat n) (length rest)) as [Hle|Hge].
    + rewrite Nat.min_l by exact Hle. rewrite !drop_ge by lia. reflexivity.
    + now rewrite Nat.min_r.
Qed.

Lemma copy_out_over (pre payload post target : list Z) (off : Z) :
  off = blength pre -> length target = length payload ->
  copy (pre ++ payload ++ post) target 0 off (off + blength payload) = Ok payload.
Proof.
  intros -> Htarget.
  destruct (copy (pre ++ payload ++ post) target 0 (blength pre)
              (blength pre + blength payload)) as [e|err] eqn:Hcopy.
  - apply copy_from in Hcopy; [|apply blength_nonneg|unfold blength; lia].
    rewrite Hcopy. unfold blength. rewrite !Nat2Z.id.
    rewrite drop_app_length, take_app_length.
    rewrite drop_ge by (rewrite length_app; lia). now rewrite app_nil_r.
  - exfalso. revert Hcopy. unfold copy.
    pose proof (blength_nonneg pre). pose proof (blength_nonneg payload).
    pose proof (blength_nonneg post). rewrite !blength_app.
    destruct (0 <? 0) eqn:E0; [discriminate|].
    destruct (Z.ltb_spec (blength pre) 0); [lia|].
    destruct (Z.ltb_spec (blength pre + (blength payload + blength post)) (blength pre));
      [lia|].
    destruct (Z.ltb_spec (blength pre + blength payload) 0); [lia|]. cbn [orb].
    destruct (_ || _); discriminate.
Qed.

Lemma V1_framed_layout (memory : nat -> Z) (magic session : Z) (payload : Buffer) :
  0 <= magic < 2 ^ 32 -> 0 <= session < 2 ^ 32 -> blength payload < 2 ^ 31 ->
  (do buf <- new_Buffer memory (12 + blength payload);
   do buf <- writeUInt32LE buf magic 0;
   do buf <- writeUInt32LE buf session 4;
   do buf <- writeInt32LE buf (blength payload) 8;
   do buf <- copy_all payload buf 12;
   Ok buf)
  = Ok (le_bytes 4 magic ++ le_bytes 4 session ++ le_bytes 4 (blength payload) ++ payload).
Proof.
  intros Hm Hs Hp. pose proof (blength_nonneg payload).
  destruct (new_Buffer_Ok memory (12 + length payload)) as (l & Hl & Hlen).
  replace (Z.of_nat (12 + length payload)) with (12 + blength payload) in Hl
    by (unfold blength; lia).
  rewrite Hl. cbn [result_bind].
  destruct (chunk l 4) as (c1 & r1 & -> & Hc1 & Hr1); [lia|].
  destruct (chunk r1 4) as (c2 & r2 & -> & Hc2 & Hr2); [lia|].
  destruct (chunk r2 4) as (c3 & c4 & -> & Hc3 & Hc4); [rewrite length_app in Hr1; lia|].
  rewrite !length_app in *.
  unfold writeUInt32LE.
  pose proof (write_le_at 4 [] c1 (c2 ++ c3 ++ c4) magic 0 eq_refl Hc1 Hm) as E.
  cbn [app] in E. rewrite E. clear E.
  cbn [result_bind app].
  rewrite (write_le_at 4 (le_bytes 4 magic) c2); [|reflexivity|exact Hc2|exact Hs].
  cbn [result_bind]. rewrite (app_assoc (le_bytes 4 magic)).
  rewrite (writeInt32LE_at _ c3); [|reflexivity|exact Hc3|lia].
  cbn [result_bind]. rewrite (app_assoc _ (le_bytes 4 (blength payload))).
  rewrite <- (app_nil_r c4).
  rewrite copy_all_at; [|reflexivity|lia].
  cbn [result_bind]. rewrite app_nil_r, <- !app_assoc. reflexivity.
Qed.

Lemma V1_framed_fields (memory : nat -> Z) (magic session : Z) (payload : Buffer) :
  0 <= magic < 2 ^ 32 -> 0 <= session < 2 ^ 32 -> blength payload < 2 ^ 31 ->
  let buf := le_bytes 4 magic ++ le_bytes 4 session
             ++ le_bytes 4 (blength payload) ++ payload in
  readUInt32LE buf 0 = Ok magic /\
  readUInt32LE buf 4 = Ok session /\
  readInt32LE buf 8 = Ok (blength payload) /\
  (do target <- new_Buffer memory (blength payload);
   copy buf target 0 12 (12 + blength payload)) = Ok payload.
Proof.
  intros Hm Hs Hp buf. pose proof (blength_nonneg payload).
  assert (H32 : 2 ^ (8 * Z.of_nat 4) = 2 ^ 31 + 2 ^ 31) by reflexivity.
  unfold readUInt32LE. subst buf. repeat split.
  - rewrite read_le_head by reflexivity. now rewrite le_value_le_bytes.
  - rewrite (read_le_at 4 (le_bytes 4 magic)) by reflexivity. now rewrite le_value_le_bytes.
  - apply readInt32LE_small; [|lia]. unfold readUInt32LE.
    rewrite (app_assoc (le_bytes 4 magic)).
    rewrite (read_le_at 4) by reflexivity. rewrite le_value_le_bytes; [reflexivity|lia].
  - destruct (new_Buffer_Ok memory (length payload)) as (target & Ht & Hlen).
    change (Z.of_nat (length payload)) with (blength payload) in Ht.
    rewrite Ht. cbn [result_bind].
    rewrite (app_assoc (le_bytes 4 magic)), (app_assoc _ (le_bytes 4 (blength payload))).
    pose proof (copy_out_over ((le_bytes 4 magic ++ le_bytes 4 session)
                                 ++ le_bytes 4 (blength payload)) payload [] target 12
                  eq_refl Hlen) as E.
    now rewrite app_nil_r in E.
Qed.

Lemma V1_authNegotiate_layout (memory : nat -> Z) (s : Z) (salt : Buffer) (u : jsstring) :
  0 <= s < 2 ^ 32 -> blength salt < 256 ->
  V1_more.authNegotiate.marshall memory (V1_more.authNegotiate.mk s salt u) =
  Ok (le_bytes 4 AUTH_NEGOTIATE ++ le_bytes 1 1 ++ le_bytes 4 s
      ++ le_bytes 1 (blength salt) ++ salt ++ Buffer_from_ascii u ++ [0]).
Proof.
  intros Hs Hsalt. pose proof (blength_nonneg salt).
  unfold V1_more.authNegotiate.marshall, byteLength_ascii.
  cbn [V1_more.authNegotiate.session V1_more.authNegotiate.username
         V1_more.authNegotiate.salt].
  destruct (new_Buffer_Ok memory (10 + length salt + length u + 1)) as (l & Hl & Hlen).
  replace (Z.of_nat (10 + length salt + length u + 1))
    with (10 + blength salt + blength u + 1) in Hl by (unfold blength; lia).
  rewrite Hl. cbn [result_bind].
  destruct (chunk l 4) as (c1 & r1 & -> & Hc1 & Hr1); [lia|].
  destruct (chunk r1 1) as (c2 & r2 & -> & Hc2 & Hr2); [lia|].
  rewrite !length_app in *.
  destruct (chunk r2 4) as (c3 & r3 & -> & Hc3 & Hr3); [lia|].
  rewrite !length_app in *.
  destruct (chunk r3 1) as (c4 & r4 & -> & Hc4 & Hr4); [lia|].
  rewrite !length_app in *.
  destruct (chunk r4 (length salt)) as (c5 & c6 & -> & Hc5 & Hc6); [lia|].
  rewrite !length_app in *.
  unfold writeUInt32LE, writeUInt8 at 1 2.
  pose proof (write_le_at 4 [] c1 (c2 ++ c3 ++ c4 ++ c5 ++ c6) AUTH_NEGOTIATE 0 eq_refl Hc1
                (magic_bounds AuthNegotiate)) as E.
  cbn [app] in E. rewrite E. clear E. cbn [result_bind].
  rewrite (write_le_at 1 (le_bytes 4 AUTH_NEGOTIATE) c2);
    [|reflexivity|exact Hc2|simpl; lia].
  cbn [result_bind]. rewrite (app_assoc (le_bytes 4 AUTH_NEGOTIATE)).
  rewrite (write_le_at 4 _ c3); [|reflexivity|exact Hc3|exact Hs].
  cbn [result_bind]. rewrite (app_assoc _ (le_bytes 4 _)).
  rewrite (write_le_at 1 _ c4); [|reflexivity|exact Hc4|simpl; lia].
  cbn [result_bind]. rewrite (app_assoc _ (le_bytes 1 _)).
  rewrite (copy_all_at salt _ c5); [|reflexivity|exact Hc5].
  cbn [result_bind]. rewrite (app_assoc _ salt).
  rewrite <- (app_nil_r c6).
  rewrite (writeString_over _ c6 [] u); [|rewrite blength_app; reflexivity|lia].
  cbn [result_bind]. now rewrite <- !app_assoc.
Qed.

Lemma V1_authNegotiate_fields (memory : nat -> Z) (s : Z) (salt : Buffer) (u : jsstring) :
  0 <= s < 2 ^ 32 -> blength salt < 256 -> is_username u = true ->
  let buf := le_bytes 4 AUTH_NEGOTIATE ++ le_bytes 1 1 ++ le_bytes 4 s
             ++ le_bytes 1 (blength salt) ++ salt ++ Buffer_from_ascii u ++ [0] in
  readUInt32LE buf 0 = Ok AUTH_NEGOTIATE /\
  readUInt8 buf 4 = Ok 1 /\
  readUInt8 buf 9 = Ok (blength salt) /\
  (do target <- new_Buffer memory (blength salt);
   copy buf target 0 10 (10 + blength salt)) = Ok salt /\
  readUInt32LE buf 5 = Ok s /\
  readString buf (10 + blength salt) = Ok u.
Proof.
  intros Hs Hsalt Hu buf. pose proof (blength_nonneg salt).
  set (m := le_bytes 4 AUTH_NEGOTIATE) in *. set (v := le_bytes 1 1) in *.
  set (i := le_bytes 4 s) in *.
  set (n := le_bytes 1 (blength salt)) in *. set (t := Buffer_from_ascii u ++ [0]) in *.
  unfold readUInt32LE, readUInt8. repeat split.
  - apply (read_le_split 4 buf [] m (v ++ i ++ n ++ salt ++ t));
      [reflexivity|reflexivity|reflexivity|apply (magic_bounds AuthNegotiate)].
  - apply (read_le_split 1 buf m v (i ++ n ++ salt ++ t));
      [reflexivity|reflexivity|reflexivity|simpl; lia].
  - apply (read_le_split 1 buf (m ++ v ++ i) n (salt ++ t));
      [subst buf; reassoc|reflexivity|reflexivity|simpl; lia].
  - destruct (new_Buffer_Ok memory (length salt)) as (target & Ht & Hlen).
    change (Z.of_nat (length salt)) with (blength salt) in Ht.
    rewrite Ht. cbn [result_bind].
    replace buf with ((m ++ v ++ i ++ n) ++ salt ++ t) by (subst buf; reassoc).
    now apply copy_out_over.
  - apply (read_le_split 4 buf (m ++ v) i (n ++ salt ++ t));
      [subst buf; reassoc|reflexivity|reflexivity|assumption].
  - apply (readString_split buf (m ++ v ++ i ++ n ++ salt) []);
      [subst buf t; reassoc| |assumption].
    rewrite !app_assoc, blength_app. reflexivity.
Qed.

(** X26.  The version 1 codec does not depend on the memory its buffers
    are allocated in: a well-formed AUTH_NEGOTIATE, SERVER_EPHEMERAL or
    AUTH_EPHEMERAL packet of version 1 has one encoding, whatever the
    uninitialised buffer held, since every byte of it is written; and the
    decoder returns the packet from that encoding, whatever the buffer of
    the salt or the ephemeral held. *)
Theorem V1_roundtrip_any_memory (p : V1_packet) :
  V1_well_formed p = true ->
  exists buf : Buffer,
    (forall memory, V1_marshall memory p = Ok buf) /\
    (forall memory, V1_unmarshall memory (V1_kind_of p) buf = Ok p).
Proof.
  destruct p as [[s salt u]|[s e]|[s e]];
    cbn [V1_well_formed V1_marshall V1_unmarshall V1_kind_of
           V1_more.authNegotiate.session V1_more.authNegotiate.salt
           V1_more.authNegotiate.username
           V1_more.serverEphemeral.session V1_more.serverEphemeral.ephemeral
           V1_more.authEphemeral.session V1_more.authEphemeral.ephemeral];
    intros Hwf.
  - apply andb_prop in Hwf as [Hwf Hu]. apply andb_prop in Hwf as [Hs Hsalt].
    apply uint_bounds in Hs. apply Z.ltb_lt in Hsalt.
    eexists. split; [intros memory; now apply V1_authNegotiate_layout|].
    intros memory.
    destruct (V1_authNegotiate_fields memory s salt u Hs Hsalt Hu)
      as (E1 & E2 & E3 & E4 & E5 & E6).
    unfold V1_more.authNegotiate.unmarshall.
    rewrite E1. cbn [result_bind]. rewrite Z.eqb_refl. cbn [negb].
    rewrite E2. cbn [result_bind Z.eqb Pos.eqb negb].
    rewrite E3. cbn [result_bind].
    destruct (new_Buffer memory (blength salt)) as [target|]; [|discriminate E4].
    cbn [result_bind] in *. rewrite E4. cbn [result_bind].
    rewrite E5. cbn [result_bind]. rewrite E6. reflexivity.
  - apply andb_prop in Hwf as [Hs He]. apply uint_bounds in Hs. apply Z.ltb_lt in He.
    eexists. split.
    + intros memory. unfold V1_more.serverEphemeral.marshall.
      cbn [V1_more.serverEphemeral.session V1_more.serverEphemeral.ephemeral].
      apply (V1_framed_layout memory SERVER_EPHEMERAL s e (magic_bounds ServerEphemeral) Hs He).
    + intros memory.
      destruct (V1_framed_fields memory SERVER_EPHEMERAL s e
                  (magic_bounds ServerEphemeral) Hs He) as (E1 & E2 & E3 & E4).
      unfold V1_more.serverEphemeral.unmarshall.
      rewrite E1. cbn [result_bind]. rewrite Z.eqb_refl. cbn [negb].
      rewrite E3. cbn [result_bind].
      destruct (new_Buffer memory (blength e)) as [target|]; [|discriminate E4].
      cbn [result_bind] in *. rewrite E4. cbn [result_bind].
      rewrite E2. reflexivity.
  - apply andb_prop in Hwf as [Hs He]. apply uint_bounds in Hs. apply Z.ltb_lt in He.
    eexists. split.
    + intros memory. unfold V1_more.authEphemeral.marshall.
      cbn [V1_more.authEphemeral.session V1_more.authEphemeral.ephemeral].
      apply (V1_framed_layout memory AUTH_EPHEMERAL s e (magic_bounds AuthEphemeral) Hs He).
    + intros memory.
      destruct (V1_framed_fields memory AUTH_EPHEMERAL s e
                  (magic_bounds AuthEphemeral) Hs He) as (E1 & E2 & E3 & E4).
      unfold V1_more.authEphemeral.unmarshall.
      rewrite E1. cbn [result_bind]. rewrite Z.eqb_refl. cbn [negb].
      rewrite E3. cbn [result_bind].
      destruct (new_Buffer memory (blength e)) as [target|]; [|discriminate E4].
      cbn [result_bind] in *. rewrite E4. cbn [result_bind].
      rewrite E2. reflexivity.
Qed.

Lemma drop_new_Buffer (memory : nat -> Z) (n : Z) (target : Buffer) (k : nat) :
  new_Buffer memory n = Ok target ->
  0 <= n /\ blength target = n /\
  drop k target = map (fun i => memory i mod 256) (seq k (Z.to_nat n - k)).
Proof.
  unfold new_Buffer. destruct (Z.ltb_spec n 0); [discriminate|]. intros [= <-].
  split; [assumption|]. split.
  - unfold blength. rewrite length_map, length_seq. lia.
  - change (map ?f ?l) with (f <$> l). now rewrite <- fmap_drop, drop_seq.
Qed.

Lemma V1_framed_exposes (memory : nat -> Z) (buf e : Buffer) :
  (do ephemeralLength <- readInt32LE buf 8;
   do ephemeral <- new_Buffer memory ephemeralLength;
   copy buf ephemeral 0 12 (12 + ephemeralLength)) = Ok e ->
  exists n : Z,
    readInt32LE buf 8 = Ok n /\ 0 <= n /\
    e = take (Z.to_nat n) (drop 12 buf)
        ++ map (fun i => memory i mod 256)
             (seq (length (drop 12 buf)) (Z.to_nat n - length (drop 12 buf))).
Proof.
  destruct (readInt32LE buf 8) as [n|]; [|discriminate]. cbn [result_bind].
  destruct (new_Buffer memory n) as [target|] eqn:Ht; [|discriminate].
  cbn [result_bind]. intros Hcopy.
  destruct (drop_new_Buffer memory n target (length (drop 12 buf)) Ht) as (Hn & Hlen & Hdrop).
  exists n. split; [reflexivity|]. split; [exact Hn|].
  apply copy_from in Hcopy; [|lia|exact Hlen].
  change (Z.to_nat 12) with 12%nat in Hcopy. now rewrite Hdrop in Hcopy.
Qed.

(** X27.  What a version 1 ephemeral decoder returns when the packet is
    shorter than its length field says: the bytes the buffer has from
    offset 12 on, and after them the bytes that the memory of the new
    buffer held, at their place.  Nothing compares the signed length at
    offset 8 with the size of the packet. *)
Theorem V1_ephemeral_exposes_memory
    (memory : nat -> Z) (k : V1_kind) (buf : Buffer) (p : V1_packet) (e : Buffer) :
  V1_unmarshall memory k buf = Ok p ->
  V1_ephemeral p = Some e ->
  exists n : Z,
    readInt32LE buf 8 = Ok n /\ 0 <= n /\ blength e = n /\
    e = take (Z.to_nat n) (drop 12 buf)
        ++ map (fun i => memory i mod 256)
             (seq (length (drop 12 buf)) (Z.to_nat n - length (drop 12 buf))).
Proof.
  assert (Hlen : forall (n : Z) (x : Buffer), 0 <= n ->
            x = take (Z.to_nat n) (drop 12 buf)
                ++ map (fun i => memory i mod 256)
                     (seq (length (drop 12 buf)) (Z.to_nat n - length (drop 12 buf))) ->
            blength x = n).
  { intros n x Hn ->. unfold blength.
    rewrite length_app, length_take, length_map, length_seq. lia. }
  destruct k; cbn [V1_unmarshall].
  - destruct (V1_more.authNegotiate.unmarshall memory buf); [|discriminate].
    cbn [result_bind]. intros [= <-]. discriminate.
  - unfold V1_more.serverEphemeral.unmarshall.
    destruct (readUInt32LE buf 0) as [magic|]; [|discriminate]. cbn [result_bind].
    destruct (negb (magic =? SERVER_EPHEMERAL)); [discriminate|].
    destruct (do ephemeralLength <- readInt32LE buf 8;
              do ephemeral <- new_Buffer memory ephemeralLength;
              copy buf ephemeral 0 12 (12 + ephemeralLength)) as [x|] eqn:Hx.
    + destruct (V1_framed_exposes memory buf x Hx) as (n & Hn & Hpos & Hx').
      revert Hx. rewrite Hn. cbn [result_bind].
      destruct (new_Buffer memory n) as [target|]; [|discriminate]. cbn [result_bind].
      intros ->. cbn [result_bind].
      destruct (readUInt32LE buf 4) as [s|]; [|discriminate]. cbn [result_bind].
      intros [= <-] [= <-]. exists n. eauto.
    + revert Hx. destruct (readInt32LE buf 8) as [n|]; [|discriminate].
      cbn [result_bind].
      destruct (new_Buffer memory n) as [target|]; [|discriminate]. cbn [result_bind].
      intros ->. discriminate.
  - unfold V1_more.authEphemeral.unmarshall.
    destruct (readUInt32LE buf 0) as [magic|]; [|discriminate]. cbn [result_bind].
    destruct (negb (magic =? AUTH_EPHEMERAL)); [discriminate|].
    destruct (do ephemeralLength <- readInt32LE buf 8;
              do ephemeral <- new_Buffer memory ephemeralLength;
              copy buf ephemeral 0 12 (12 + ephemeralLength)) as [x|] eqn:Hx.
    + destruct (V1_framed_exposes memory buf x Hx) as (n & Hn & Hpos & Hx').
      revert Hx. rewrite Hn. cbn [result_bind].
      destruct (new_Buffer memory n) as [target|]; [|discriminate]. cbn [result_bind].
      intros ->. cbn [result_bind].
      destruct (readUInt32LE buf 4) as [s|]; [|discriminate]. cbn [result_bind].
      intros [= <-] [= <-]. exists n. eauto.
    + revert Hx. destruct (readInt32LE buf 8) as [n|]; [|discriminate].
      cbn [result_bind].
      destruct (new_Buffer memory n) as [target|]; [|discriminate]. cbn [result_bind].
      intros ->. discriminate.
Qed.

(** ** The properties on the example inputs *)

Lemma marshall_wire_size_witness :
  marshall (PServerEphemeral (serverEphemeral.mk 7 [9]))
  = Ok [0x02; 0xCA; 0x03; 0xD0; 7; 0; 0; 0; 1; 0; 9] /\
  blength [0x02; 0xCA; 0x03; 0xD0; 7; 0; 0; 0; 1; 0; 9] = 11.
Proof.
  split; [reflexivity|].
  exact (marshall_wire_size (PServerEphemeral (serverEphemeral.mk 7 [9])) _ eq_refl).
Defined.

Lemma unmarshall_rejects_other_kinds_witness :
  well_formed (PServerEphemeral (serverEphemeral.mk 7 [9])) = true /\
  exists msg,
    (do buf <- marshall (PServerEphemeral (serverEphemeral.mk 7 [9]));
     unmarshall AuthEphemeral buf) = Throw (TypeError msg).
Proof.
  split; [reflexivity|].
  apply (unmarshall_rejects_other_kinds (PServerEphemeral (serverEphemeral.mk 7 [9]))
           AuthEphemeral); [reflexivity|discriminate].
Defined.

Lemma unmarshall_ignores_trailing_bytes_witness :
  well_formed (PAuthProof (authProof.mk 7 [1; 2])) = true /\
  (do buf <- marshall (PAuthProof (authProof.mk 7 [1; 2]));
   unmarshall AuthProof (buf ++ [3; 4; 5])) = Ok (PAuthProof (authProof.mk 7 [1; 2])).
Proof.
  split; [reflexivity|].
  apply (unmarshall_ignores_trailing_bytes (PAuthProof (authProof.mk 7 [1; 2])) [3; 4; 5]);
    [reflexivity|].
  intros q [= <-]. vm_compute. reflexivity.
Defined.

Lemma error_roundtrip_witness :
  error_well_formed (PUserError (userError.mk 1 (js "mallory"))) = true /\
  (do buf <- marshall_error (PUserError (userError.mk 1 (js "mallory")));
   unmarshall_error UserError buf) = Ok (PUserError (userError.mk 1 (js "mallory"))).
Proof.
  split; [reflexivity|].
  apply (error_roundtrip (PUserError (userError.mk 1 (js "mallory")))). reflexivity.
Defined.

Lemma sessionError_magic_apart_witness :
  error_well_formed (PSessionError (sessionError.mk 1 7)) = true /\
  exists msg,
    (do buf <- marshall_error (PSessionError (sessionError.mk 1 7));
     unmarshall_error ClientSessionError buf) = Throw (TypeError msg).
Proof.
  split; [reflexivity|].
  apply (sessionError_magic_apart (PSessionError (sessionError.mk 1 7)) ClientSessionError);
    [reflexivity|].
  left. split; [reflexivity|discriminate].
Defined.

(** A letter outside ASCII before a NUL: what is read back is shorter and
    another letter. *)
Lemma readString_writeString_witness :
  (do written <- writeString [9; 9; 9; 9; 9; 9; 9] [97; 321; 0; 98] 1;
   readString written 1) = Ok (js "aA").
Proof.
  apply (readString_writeString [9; 9; 9; 9; 9; 9; 9] [97; 321; 0; 98] 1);
    vm_compute; discriminate.
Defined.

Lemma V1_serverNegotiate_roundtrip_witness :
  is_username (js "alice") = true /\
  (do buf <- V1.serverNegotiate.marshall (V1.serverNegotiate.mk (js "alice"));
   V1.serverNegotiate.unmarshall buf) = Ok (V1.serverNegotiate.mk (js "alice")).
Proof.
  split; [reflexivity|].
  apply (V1_serverNegotiate_roundtrip (V1.serverNegotiate.mk (js "alice"))). reflexivity.
Defined.

Lemma V1_refuses_version_2_witness :
  well_formed (PServerNegotiate (serverNegotiate.mk 5 (js "alice") 2)) = true /\
  (do buf <- serverNegotiate.marshall (serverNegotiate.mk 5 (js "alice") 2);
   V1.serverNegotiate.unmarshall buf)
  = Throw (TypeError "Buffer is incorrect version of protocol").
Proof.
  split; [reflexivity|].
  apply (V1_refuses_version_2 (serverNegotiate.mk 5 (js "alice") 2)); reflexivity.
Defined.

Lemma findUser_ignores_case_witness :
  @toLowerCase example_env (js "ALICE") = @toLowerCase example_env (js "Alice") /\
  fst (@findUser example_env (js "ALICE") w_alice) = Ok (0%nat, alice_row) /\
  fst (@findUser example_env (js "Alice") w_alice) = Ok (0%nat, alice_row).
Proof.
  split; [reflexivity|]. split; [reflexivity|].
  destruct (@findUser_ignores_case example_env (js "ALICE") (js "Alice") w_alice eq_refl)
    as (_ & Hsame & _).
  now apply Hsame.
Defined.

Lemma not_alice (name : jsstring) :
  name <> js "alice" ->
  forall (j : nat) (r : User.t), Users w_alice !! j = Some r -> User.username r <> name.
Proof.
  intros Hne [|j] r Hr; [|discriminate Hr].
  injection Hr as <-. intros E. apply Hne. symmetry. exact E.
Qed.

Lemma addUser_then_findUser_witness :
  fst (@findUser example_env (js "Bob")
         (snd (@addUser example_env (js "Bob") (js "swordfish") (js "bob@example.org")
                 None w_alice)))
  = Ok (1%nat, bob_row).
Proof.
  apply (@addUser_then_findUser example_env (js "Bob") (js "swordfish")
           (js "bob@example.org") None w_alice).
  apply not_alice. discriminate.
Defined.

Lemma not_first_session (sid : Z) (w : World) :
  Sessions w = [first_session] -> sid <> 117901063 ->
  forall (j : nat) (r : Session.t), Sessions w !! j = Some r -> Session.session r <> sid.
Proof.
  intros -> Hne [|j] r Hr; [|discriminate Hr].
  injection Hr as <-. intros E. apply Hne. symmetry. exact E.
Qed.

Lemma newSession_unknown_user_witness :
  fst (@newSession example_env (js "bob") 2000 w_later)
  = Throw (UserNotFound "User not found" (js "bob")) /\
  Sessions (snd (@newSession example_env (js "bob") 2000 w_later))
  = [first_session; Session.mk 16843009 None None 2000 None] /\
  fst (findSession 16843009 30 3000 (snd (@newSession example_env (js "bob") 2000 w_later)))
  = Throw (Error "Session is not attached to User").
Proof.
  destruct (@newSession_unknown_user example_env (js "bob") 2000 30 3000 w_later)
    as (Hfail & Hrows & Hfind).
  - apply (not_alice (js "bob")). discriminate.
  - apply not_first_session; [reflexivity|vm_compute; discriminate].
  - vm_compute. discriminate.
  - split; [exact Hfail|]. split; [exact Hrows|]. exact (f_equal fst Hfind).
Defined.

Lemma session_of_new_user_witness :
  let w1 := snd (@addUser example_env (js "Bob") (js "swordfish") (js "bob@example.org")
                   (Some USER) w_later) in
  let w2 := snd (@newSession example_env (js "Bob") 2000 w1) in
  fst (findSession 16843009 30 3000 w2)
  = Ok (1%nat, Session.mk 16843009 None None 2000 (Some 1%nat)).
Proof.
  destruct (@session_of_new_user example_env (js "Bob") (js "swordfish")
              (js "bob@example.org") (Some USER) 2000 3000 30 w_later)
    as (_ & Hfind).
  - apply (not_alice (js "bob")). discriminate.
  - apply not_first_session; [reflexivity|vm_compute; discriminate].
  - vm_compute. discriminate.
  - exact Hfind.
Defined.

Lemma only_first_session :
  forall (j : nat) (r : Session.t),
    Sessions w_one !! j = Some r -> Session.session r = 117901063 -> j = 0%nat.
Proof. intros [|j] r Hr _; [reflexivity|discriminate Hr]. Qed.

Lemma setEphemeral_then_findSession_witness :
  fst (findSession 117901063 30 2000 w_one) = Ok (0%nat, first_session) /\
  fst (findSession 117901063 30 2000 (snd (setEphemeral 117901063 [1] [2] w_one)))
  = Ok (0%nat, Session.mk 117901063 (Some [1]) (Some [2]) 1000 (Some 0%nat)).
Proof.
  split; [reflexivity|].
  exact (setEphemeral_then_findSession w_one 117901063 30 2000 0 first_session [1] [2]
           eq_refl eq_refl eq_refl eq_refl only_first_session eq_refl).
Defined.

Lemma reachable_w_one : @reachable example_env w_one.
Proof. repeat apply (@reachable_exec example_env). apply (@reachable_empty example_env). Qed.

Lemma reachable_sessions_sound_witness :
  @reachable example_env w_one /\ Forall (session_ok w_one) (Sessions w_one).
Proof.
  split; [exact reachable_w_one|].
  exact (@reachable_sessions_sound example_env w_one reachable_w_one).
Defined.


Lemma usernames_lowered_and_kept_witness :
  @reachable example_env w_one /\
  exists u' : User.t,
    Users (@exec example_env (SavePassword 0 (js "swordfish")) w_one) !! 0%nat = Some u' /\
    User.username u' = js "alice".
Proof.
  split; [exact reachable_w_one|].
  destruct (@usernames_lowered_and_kept example_env (SavePassword 0 (js "swordfish")) w_one
              reachable_w_one) as [_ Hkept].
  exact (Hkept 0%nat alice_row eq_refl).
Defined.

Lemma verifyUser_compares_verifiers_witness :
  @verifyUser example_env (js "Alice@Example.org") (js "hunter2") w_alice
  = inl (0%nat, alice_row) /\
  @verifyUser example_env (js "Alice@Example.org") (js "hunter3") w_alice
  = inr (LoginAuthFailed "Login failed").
Proof.
  split.
  - exact (@verifyUser_compares_verifiers example_env (js "Alice@Example.org")
             (js "hunter2") w_alice eq_refl eq_refl).
  - exact (@verifyUser_compares_verifiers example_env (js "Alice@Example.org")
             (js "hunter3") w_alice eq_refl eq_refl).
Defined.

Lemma addUser_then_verifyUser_witness :
  @verifyUser example_env (js "BOB") (js "swordfish")
    (snd (@addUser example_env (js "BOB") (js "swordfish") (js "bob@example.org")
            None w_alice))
  = inl (1%nat, bob_row).
Proof.
  apply (@addUser_then_verifyUser example_env (js "BOB") (js "swordfish")
           (js "bob@example.org") None w_alice).
  intros [|j] r Hr; [|discriminate Hr]. injection Hr as <-. split; discriminate.
Defined.

Lemma userpass_then_verifyUser_witness :
  Users w_bob = [alice_row; bob_row] /\
  exists saved : User.t,
    fst (@userpass example_env (js "Bob") w_bob) = Ok ((1%nat, saved), js "BwcHBwcHBwcH") /\
    Users (snd (@userpass example_env (js "Bob") w_bob)) = [alice_row; saved] /\
    @verifyUser example_env (js "Bob") (js "BwcHBwcHBwcH")
      (snd (@userpass example_env (js "Bob") w_bob)) = inl (1%nat, saved).
Proof.
  split; [reflexivity|].
  destruct (@userpass_then_verifyUser example_env (js "Bob") w_bob (1%nat, bob_row) eq_refl)
    as (saved & Hrun & _ & _ & _ & _ & _ & _ & Hrows & _ & Hlogin).
  - intros [|j] r Hj Hr; [|cbn in Hj; lia]. injection Hr as <-. discriminate.
  - exists saved. split; [exact Hrun|]. split; [exact Hrows|exact Hlogin].
Defined.

Lemma fresh_in_some_tokens (uuid : jsstring) :
  uuid <> js "v1" -> uuid <> js "v2" -> uuid <> js "r1" ->
  (forall (k : nat) (r : Token.t),
     Verifies some_tokens !! k = Some r -> Token.token r <> Some uuid) /\
  (forall (k : nat) (r : Token.t),
     Resets some_tokens !! k = Some r -> Token.token r <> Some uuid).
Proof.
  intros H1 H2 H3. split.
  - intros [|[|k]] r Hr; [| |discriminate Hr]; injection Hr as <-;
      cbn [Token.token]; congruence.
  - intros [|k] r Hr; [|discriminate Hr]; injection Hr as <-;
      cbn [Token.token]; congruence.
Qed.

Lemma tokens_issued_are_found_witness :
  findVerify (js "v3") 5000 (snd (newVerify (0%nat, alice_row) 1000 (js "v3") some_tokens))
  = inl (1%nat, Token.mk (Some (js "v3")) (Some 0%nat) 1000) /\
  findReset (js "v3") 5000 (snd (newReset (0%nat, alice_row) 1000 (js "v3") some_tokens))
  = inl (0%nat, Token.mk (Some (js "v3")) (Some 0%nat) 1000).
Proof.
  destruct (fresh_in_some_tokens (js "v3")) as [Hv Hr]; [discriminate..|].
  destruct (tokens_issued_are_found (0%nat, alice_row) 1000 5000 (js "v3") some_tokens)
    as [Hverify Hreset]; [lia|].
  split.
  - exact (proj2 (proj2 (proj2 (Hverify Hv)))).
  - exact (proj2 (proj2 (proj2 (Hreset Hr)))).
Defined.

Lemma tokens_expire_after_a_day_witness :
  findVerify (js "v2") 86399999 some_tokens
  = inl (1%nat, Token.mk (Some (js "v2")) (Some 0%nat) 0) /\
  findVerify (js "v2") 86400000 some_tokens = inr (VerifyNotFound "Verify has expired") /\
  findReset (js "r1") 86400000 some_tokens = inr (ResetNotFound "Reset has expired").
Proof.
  split; [|split].
  - apply (tokens_expire_after_a_day (js "v2") 86399999 some_tokens
             (1%nat, Token.mk (Some (js "v2")) (Some 0%nat) 0));
      [vm_compute; split; reflexivity|reflexivity].
  - apply (tokens_expire_after_a_day (js "v2") 86400000 some_tokens
             (1%nat, Token.mk (Some (js "v2")) (Some 0%nat) 0));
      [vm_compute; split; reflexivity|reflexivity].
  - apply (tokens_expire_after_a_day (js "r1") 86400000 some_tokens
             (0%nat, Token.mk (Some (js "r1")) (Some 0%nat) 0));
      [vm_compute; split; reflexivity|reflexivity].
Defined.

Lemma newVerify_replaces_token_witness :
  let first := newVerify (0%nat, alice_row) 1000 (js "v3") some_tokens in
  let second := newVerify (0%nat, alice_row) 2000 (js "v4") (snd first) in
  fst (fst second) = 1%nat /\
  length (Verifies (snd second)) = 2%nat /\
  findVerify (js "v3") 3000 (snd second) = inr (VerifyNotFound "Verify not found").
Proof.
  destruct (fresh_in_some_tokens (js "v3")) as [Hv _]; [discriminate..|].
  apply (newVerify_replaces_token (0%nat, alice_row) 1000 2000 3000 (js "v3") (js "v4")
           some_tokens Hv).
  discriminate.
Defined.

Lemma marshall_fails_out_of_range_witness :
  marshall (PServerEphemeral (serverEphemeral.mk 4294967296 [9])) = Throw RangeError /\
  encodable (PServerEphemeral (serverEphemeral.mk 4294967296 [9])) = false.
Proof.
  split; [reflexivity|].
  exact (proj2 (marshall_fails_out_of_range
                  (PServerEphemeral (serverEphemeral.mk 4294967296 [9])))).
Defined.

Lemma getPrettyType_edit_unknown_witness : getPrettyType edit = "Unknown action".
Proof. apply (getPrettyType_edit_unknown edit). reflexivity. Defined.

Lemma V1_roundtrip_any_memory_witness :
  V1_well_formed (V1PAuthNegotiate (V1_more.authNegotiate.mk 7 [1; 2] (js "alice"))) = true /\
  exists buf : Buffer,
    (forall memory,
       V1_marshall memory (V1PAuthNegotiate (V1_more.authNegotiate.mk 7 [1; 2] (js "alice")))
       = Ok buf) /\
    (forall memory,
       V1_unmarshall memory V1_AuthNegotiate buf
       = Ok (V1PAuthNegotiate (V1_more.authNegotiate.mk 7 [1; 2] (js "alice")))).
Proof.
  split; [reflexivity|].
  apply (V1_roundtrip_any_memory
           (V1PAuthNegotiate (V1_more.authNegotiate.mk 7 [1; 2] (js "alice")))).
  reflexivity.
Defined.

Lemma V1_ephemeral_exposes_memory_witness :
  V1_unmarshall (fun _ => 170) V1_ServerEphemeral short_ephemeral_v1
  = Ok (V1PServerEphemeral (V1_more.serverEphemeral.mk 7 [9; 170; 170])) /\
  exists n : Z,
    readInt32LE short_ephemeral_v1 8 = Ok n /\ 0 <= n /\ blength [9; 170; 170] = n /\
    [9; 170; 170]
    = take (Z.to_nat n) (drop 12 short_ephemeral_v1)
      ++ map (fun i => 170 mod 256)
           (seq (length (drop 12 short_ephemeral_v1))
              (Z.to_nat n - length (drop 12 short_ephemeral_v1))).
Proof.
  split; [reflexivity|].
  exact (V1_ephemeral_exposes_memory (fun _ => 170) V1_ServerEphemeral short_ephemeral_v1
           (V1PServerEphemeral (V1_more.serverEphemeral.mk 7 [9; 170; 170])) [9; 170; 170]
           eq_refl eq_refl).
Defined.

(** ** Sessions that share an id *)

Lemma no_older_row (rows : list Session.t) (session : Z) :
  forall (j : nat) (r : Session.t),
    (j < 0)%nat -> rows !! j = Some r -> Session.session r <> session.
Proof. intros j r Hj. lia. Qed.

Lemma reachable_w_shared : @reachable example_env w_shared.
Proof. repeat apply (@reachable_exec example_env). apply (@reachable_empty example_env). Qed.



(** The id was carried by one row at the first call; a session created
    afterwards drew the same id, and the second call writes that row. *)
Lemma setEphemeral_after_shared_draw :
  Sessions w_one = [first_session] /\
  fst (setEphemeral 117901063 [1] [2] w_one)
  = Ok (0%nat, Session.mk 117901063 (Some [1]) (Some [2]) 1000 (Some 0%nat)) /\
  fst (setEphemeral 117901063 [3] [4]
         (@exec example_env (NewSession (js "alice") 2000)
            (snd (setEphemeral 117901063 [1] [2] w_one))))
  = Ok (1%nat, Session.mk 117901063 (Some [3]) (Some [4]) 2000 (Some 0%nat)).
Proof. repeat split. Qed.

Lemma findSession_within_ttl_witness :
  getSecondsBetween 1000 31999 = 30 /\
  fst (findSession 117901063 30 31999 w_one) = Ok (0%nat, first_session) /\
  findSession 117901063 30 32000 w_one = (Throw (Error "Session has expired"), w_one) /\
  fst (findSession 117901063 30 32000 w_two) <> Ok (0%nat, first_session).
Proof.
  split; [reflexivity|].
  destruct (findSession_within_ttl w_one 117901063 30 31999 0 first_session
              eq_refl eq_refl) as [_ Hin].
  destruct (findSession_within_ttl w_one 117901063 30 32000 0 first_session
              eq_refl eq_refl) as [_ Hout].
  destruct (findSession_within_ttl w_two 117901063 30 32000 0 first_session
              eq_refl eq_refl) as [Hnever _].
  split; [|split].
  - apply (Hin (no_older_row _ _)) with (user := (0%nat, alice_row));
      [reflexivity|discriminate|].
    cbn [Session.createdAt first_session]. vm_compute. discriminate.
  - apply (Hout (no_older_row _ _)). cbn [Session.createdAt first_session].
    vm_compute. reflexivity.
  - apply Hnever. cbn [Session.createdAt first_session]. vm_compute. reflexivity.
Defined.

(** A session half a minute old, within the timeout, is refused as
    expired: an older row carries its id. *)
Lemma findSession_older_row_decides :
  @reachable example_env w_two /\
  Sessions w_two !! 1%nat = Some second_session /\
  getSecondsBetween (Session.createdAt second_session) 32000 = 30 /\
  findSession 117901063 30 32000 w_two = (Throw (Error "Session has expired"), w_two).
Proof.
  split; [repeat apply (@reachable_exec example_env); apply (@reachable_empty example_env)|].
  repeat split.
Qed.

Lemma findSession_rejects_unverified_witness :
  getSecondsBetween (Session.createdAt first_session) 1000 <= 30 /\
  findSession 117901063 30 1000 w_demoted
  = (Throw (Error "Session belongs to UNVERIFIED User"), w_demoted) /\
  fst (findSession 117901063 30 1000 w_shared) <> Ok (1%nat, bob_session).
Proof.
  assert (Hfresh : getSecondsBetween (Session.createdAt first_session) 1000 <= 30)
    by (vm_compute; discriminate).
  split; [exact Hfresh|].
  destruct (findSession_rejects_unverified w_demoted 117901063 30 1000 0 first_session
              eq_refl eq_refl) as [_ Holdest].
  destruct (Holdest (no_older_row _ _) Hfresh) as [_ Hunverified].
  destruct (findSession_rejects_unverified w_shared 117901063 30 1000 1 bob_session
              eq_refl eq_refl) as [Hnever _].
  split.
  - exact (Hunverified
             (0%nat, User.mk (js "alice") (js "alice@example.org")
                       ([7; 7; 7; 7] ++ js "alice" ++ js "hunter2") [7; 7; 7; 7]
                       UNVERIFIED true)
             eq_refl eq_refl).
  - apply Hnever. right. exists (1%nat, bob_row). split; reflexivity.
Defined.

(** Bob is UNVERIFIED and his session is fresh, but the lookup of its id
    throws no error: it returns the session of Alice, stored before it
    under the same id. *)
Lemma findSession_returns_older_row :
  @reachable example_env w_shared /\
  Sessions w_shared = [first_session; bob_session] /\
  Users w_shared !! 1%nat = Some bob_row /\
  User.access bob_row = UNVERIFIED /\
  getSecondsBetween (Session.createdAt bob_session) 1500 <= 30 /\
  findSession (Session.session bob_session) 30 1500 w_shared
  = (Ok (0%nat, first_session), w_shared).
Proof.
  split; [exact reachable_w_shared|].
  repeat split. vm_compute. discriminate.
Qed.

Lemma salt_and_verifier_set_jointly_witness :
  @reachable example_env w_alice /\
  Forall (@consistent example_env) (Users w_alice) /\
  Users w_alice !! 0%nat = Some alice_row /\
  Users (@exec example_env (SavePassword 0 (js "s3cret")) w_alice) !! 0%nat
  = Some (User.mk (js "alice") (js "alice@example.org")
            ([7; 7; 7; 7] ++ js "alice" ++ js "s3cret") [7; 7; 7; 7] USER true) /\
  forall u' : User.t,
    Users (@exec example_env (SaveEmail 0 (js "a@example.org")) w_alice) !! 0%nat = Some u' ->
    User.salt u' = User.salt alice_row /\ User.verifier u' = User.verifier alice_row.
Proof.
  assert (Hw : @reachable example_env w_alice)
    by (repeat apply (@reachable_exec example_env); apply (@reachable_empty example_env)).
  split; [exact Hw|].
  destruct (@salt_and_verifier_set_jointly example_env w_alice
              (SavePassword 0 (js "s3cret")) Hw) as (Hall & _ & _ & Hsave & _).
  destruct (@salt_and_verifier_set_jointly example_env w_alice
              (SaveEmail 0 (js "a@example.org")) Hw) as (_ & _ & _ & _ & _ & Hkeep).
  split; [exact Hall|]. split; [reflexivity|].
  split; [exact (Hsave 0%nat (js "s3cret") alice_row eq_refl eq_refl)|].
  intros u'. apply (Hkeep 0%nat alice_row u'); [discriminate|reflexivity].
Defined.

Lemma findSession_expires_after_witness :
  findSession 117901063 30 32000 w_one = (Throw (Error "Session has expired"), w_one) /\
  findSession 117901063 30 31999 w_one <> (Throw (Error "Session has expired"), w_one).
Proof.
  split.
  - apply (findSession_expires_after w_one 117901063 30 32000 0 first_session);
      [reflexivity|reflexivity|apply no_older_row|lia|vm_compute; split; reflexivity
      |vm_compute; discriminate].
  - intros E.
    apply (findSession_expires_after w_one 117901063 30 31999 0 first_session)
      in E; [|reflexivity|reflexivity|apply no_older_row|lia|vm_compute; split; reflexivity].
    revert E. vm_compute. intros E. now apply E.
Defined.
